(** * Scoring and re-ranking engine for dengue-control strategies

    A shallow embedding of the algorithmic core of the repository:
    [parse_threshold], [load_strategies_from_xlsx],
    [normalize_strategy_weights], [check_condition],
    [build_indicator_matrix], [normalize_criterion], [get_tipo_respuesta],
    [aplicar_multiplicador_urgencia] and [build_mcda_matrix] of
    [scikit-criteria-demo.py], and the steps of [ejecutar_escenario] in
    [escenarios_prescriptivos.py] around the aggregation: loading and
    normalising, the level, the re-ranking, the ranking and the indicator
    counters.

    Conventions of the model:
    - a Python [str] is the list of its code points ([Py.str]); literals are
      written as UTF-8 text and decoded by [Py.py];
    - a Python [float] is an exact rational of [Q]; rounding, infinities and
      NaN are outside the model, and equality of numbers is [Qeq];
    - the Unicode tables of the interpreter (white space, decimal digits,
      lower-casing of non-ASCII text) are a parameter [Py.unicode_db]; the
      ASCII range is written out as CPython does;
    - a [dict] whose iteration order matters is an association list in
      insertion order; a [dict] that is only looked up is a [gmap];
    - a raised exception is the [Raise] case of [Py.result];
    - a data frame is the list of its rows, by the columns the code reads;
      the cell types covered are stated at [sheet_row]. *)

From Stdlib Require Import ZArith NArith QArith Qminmax Lqa Lia Ascii String.
From stdpp Require Import base option list gmap sorting.

(** ** The Python run time the code relies on *)

Module Py.

Definition char := N.
Definition str := list char.

(** UTF-8 decoding, used only to write literals. *)
Fixpoint utf8 (bs : list N) : str :=
  match bs with
  | [] => []
  | b0 :: r =>
    if (b0 <? 128)%N then b0 :: utf8 r
    else if (b0 <? 224)%N then
      match r with
      | b1 :: r1 => (N.land b0 31 * 64 + N.land b1 63)%N :: utf8 r1
      | _ => []
      end
    else if (b0 <? 240)%N then
      match r with
      | b1 :: b2 :: r2 =>
        (N.land b0 15 * 4096 + N.land b1 63 * 64 + N.land b2 63)%N :: utf8 r2
      | _ => []
      end
    else
      match r with
      | b1 :: b2 :: b3 :: r3 =>
        (N.land b0 7 * 262144 + N.land b1 63 * 4096
         + N.land b2 63 * 64 + N.land b3 63)%N :: utf8 r3
      | _ => []
      end
  end.

Definition py (s : string) : str :=
  utf8 (map N_of_ascii (list_ascii_of_string s)).
Arguments py s%_string.

(** Exceptions and results. *)
Inductive exn := ValueError | IndexError | TypeError | KeyError | AxisError.

Inductive result (A : Type) :=
| Ok (a : A)
| Raise (e : exn).
Arguments Ok {A} a.
Arguments Raise {A} e.

Definition bind {A B} (r : result A) (f : A -> result B) : result B :=
  match r with
  | Ok a => f a
  | Raise e => Raise e
  end.

Fixpoint mapM {A B} (f : A -> result B) (l : list A) : result (list B) :=
  match l with
  | [] => Ok []
  | a :: l' => bind (f a) (fun b => bind (mapM f l') (fun bs => Ok (b :: bs)))
  end.

(** The Unicode character database, for what lies beyond ASCII. *)
Record unicode_db := {
  db_isspace : char -> bool;
  db_decimal : char -> option N;
  db_lower : str -> str;
}.

Definition is_ascii (c : char) : bool := (c <? 128)%N.

(** [Py_UNICODE_ISSPACE]: the ASCII table, else the database. *)
Definition ascii_isspace (c : char) : bool :=
  ((9 <=? c) && (c <=? 13) || (28 <=? c) && (c <=? 32))%N.

Definition isspace (db : unicode_db) (c : char) : bool :=
  if is_ascii c then ascii_isspace c else db_isspace db c.

(** [Py_UNICODE_TODECIMAL]: the value of a decimal digit, if it is one. *)
Definition to_decimal (db : unicode_db) (c : char) : option N :=
  if is_ascii c
  then if ((48 <=? c) && (c <=? 57))%N then Some (c - 48)%N else None
  else db_decimal db c.

Definition isdecimal (db : unicode_db) (c : char) : bool :=
  match to_decimal db c with Some _ => true | None => false end.

(** [str.strip()] *)
Fixpoint lstrip (db : unicode_db) (s : str) : str :=
  match s with
  | c :: s' => if isspace db c then lstrip db s' else s
  | [] => []
  end.

Definition rstrip (db : unicode_db) (s : str) : str :=
  rev (lstrip db (rev s)).

Definition strip (db : unicode_db) (s : str) : str :=
  rstrip db (lstrip db s).

(** [str.replace(old, new)] for a one-character [old]. *)
Definition replace (old : char) (new : str) (s : str) : str :=
  flat_map (fun c => if (c =? old)%N then new else [c]) s.

(** [str.lower()]: ASCII strings are lowered in place, the others through
    the database. *)
Definition ascii_lower (c : char) : char :=
  if ((65 <=? c) && (c <=? 90))%N then (c + 32)%N else c.

Definition lower (db : unicode_db) (s : str) : str :=
  if forallb is_ascii s then map ascii_lower s else db_lower db s.

(** [sub in s] *)
Fixpoint startswith (s p : str) : bool :=
  match p, s with
  | [], _ => true
  | c :: p', d :: s' => (c =? d)%N && startswith s' p'
  | _ :: _, [] => false
  end.

Fixpoint contains (s sub : str) : bool :=
  startswith s sub ||
  match s with
  | [] => false
  | _ :: s' => contains s' sub
  end.

Definition eqb (a b : str) : bool := bool_decide (a = b).

(** [float(s)] on the texts the number pattern can capture: decimal digits,
    then optionally a dot and further digits. Any other text is outside this
    fragment and reported as a [ValueError]. *)
Fixpoint digits (db : unicode_db) (acc : N) (s : str) : N * str :=
  match s with
  | c :: s' =>
    match to_decimal db c with
    | Some d => digits db (acc * 10 + d)%N s'
    | None => (acc, s)
    end
  | [] => (acc, [])
  end.

Definition float (db : unicode_db) (s : str) : result Q :=
  match s with
  | [] => Raise ValueError
  | c :: _ =>
    if isdecimal db c then
      let '(ip, r) := digits db 0 s in
      match r with
      | [] => Ok (inject_Z (Z.of_N ip))
      | d :: r' =>
        if (d =? 46)%N then
          let '(fp, r'') := digits db 0 r' in
          match r'' with
          | [] => Ok (inject_Z (Z.of_N ip)
                      + inject_Z (Z.of_N fp)
                        / inject_Z (Z.of_N (10 ^ N.of_nat (length r'))))%Q
          | _ => Raise ValueError
          end
        else Raise ValueError
      end
    else Raise ValueError
  end.

(** Dictionaries in insertion order. *)
Definition dict (V : Type) := list (str * V).

Fixpoint dict_get {V} (d : dict V) (k : str) : option V :=
  match d with
  | [] => None
  | (k', v) :: d' => if eqb k k' then Some v else dict_get d' k
  end.

Fixpoint dict_set {V} (d : dict V) (k : str) (v : V) : dict V :=
  match d with
  | [] => [(k, v)]
  | (k', v') :: d' =>
    if eqb k k' then (k', v) :: d' else (k', v') :: dict_set d' k v
  end.

End Py.

#[export] Instance result_bind : MBind Py.result := fun _ _ f r => Py.bind r f.

Import Py (Ok, Raise, py).

(** ** The fragment of [re] the threshold parser uses *)

Module Re.

(** Patterns: sequences of character classes, greedy repetitions of a class,
    greedy optional parts and numbered capturing groups. *)
Inductive pattern :=
| Cls (p : Py.char -> bool)
| Star (p : Py.char -> bool)
| Plus (p : Py.char -> bool)
| Opt (r : pattern)
| Cat (r1 r2 : pattern)
| Grp (n : nat) (r : pattern).

(** A match object: the text of each group that took part in the match. *)
Abbreviation match_obj := (gmap nat Py.str).

(** Backtracking matcher in continuation-passing style: [k] receives the
    rest of the subject and the groups so far; the first success in the order
    of greedy choices is the match. *)
Fixpoint star {A} (p : Py.char -> bool) (s : Py.str)
    (k : Py.str -> option A) : option A :=
  match s with
  | c :: s' =>
    if p c
    then match star p s' k with
         | Some a => Some a
         | None => k s
         end
    else k s
  | [] => k []
  end.

Fixpoint exec {A} (r : pattern) (s : Py.str) (g : match_obj)
    (k : Py.str -> match_obj -> option A) : option A :=
  match r with
  | Cls p =>
    match s with
    | c :: s' => if p c then k s' g else None
    | [] => None
    end
  | Star p => star p s (fun s' => k s' g)
  | Plus p =>
    match s with
    | c :: s' => if p c then star p s' (fun s'' => k s'' g) else None
    | [] => None
    end
  | Opt r1 =>
    match exec r1 s g k with
    | Some a => Some a
    | None => k s g
    end
  | Cat r1 r2 => exec r1 s g (fun s' g' => exec r2 s' g' k)
  | Grp n r1 =>
    exec r1 s g
      (fun s' g' => k s' (<[n := take (length s - length s') s]> g'))
  end.

Definition match_at (r : pattern) (s : Py.str) : option match_obj :=
  exec r s ∅ (fun _ g => Some g).

(** [re.search]: the match at the leftmost position that has one. *)
Fixpoint search (r : pattern) (s : Py.str) : option match_obj :=
  match match_at r s with
  | Some m => Some m
  | None =>
    match s with
    | [] => None
    | _ :: s' => search r s'
    end
  end.

(** [m.group(n)] *)
Definition group (m : match_obj) (n : nat) : Py.result Py.str :=
  match m !! n with
  | Some t => Ok t
  | None => Raise Py.TypeError
  end.

End Re.

Infix "⋅" := Re.Cat (at level 41, right associativity).

(** ** [scikit-criteria-demo.py] *)

Section Engine.

Context (db : Py.unicode_db).

(** *** [parse_threshold] *)

Definition is_lt_gt (c : Py.char) : bool := ((c =? 60) || (c =? 62))%N.
Definition is_char (x : N) (c : Py.char) : bool := (c =? x)%N.

(** A number: one or more digits, an optional dot, any digits. *)
Definition re_number : Re.pattern :=
  Re.Plus (Py.isdecimal db) ⋅ Re.Opt (Re.Cls (is_char 46%N))
  ⋅ Re.Star (Py.isdecimal db).

(** First pattern: group 1 is one of [<] [>]; white space, [=], white
    space; group 2 is a number. *)
Definition re_compound : Re.pattern :=
  Re.Grp 1 (Re.Cls is_lt_gt) ⋅ Re.Star (Py.isspace db) ⋅ Re.Cls (is_char 61%N)
  ⋅ Re.Star (Py.isspace db) ⋅ Re.Grp 2 re_number.

(** Second pattern: group 1 is one of [<] [>]; white space; group 2 is a
    number. *)
Definition re_simple : Re.pattern :=
  Re.Grp 1 (Re.Cls is_lt_gt) ⋅ Re.Star (Py.isspace db) ⋅ Re.Grp 2 re_number.

(** Third pattern: an opening parenthesis; group 1 is one of [<] [>] and an
    optional [=]; white space; group 2 is a number. *)
Definition re_paren : Re.pattern :=
  Re.Cls (is_char 40%N)
  ⋅ Re.Grp 1 (Re.Cls is_lt_gt ⋅ Re.Opt (Re.Cls (is_char 61%N)))
  ⋅ Re.Star (Py.isspace db) ⋅ Re.Grp 2 re_number.

(** The fallback pattern: group 1 is a number. *)
Definition re_bare : Re.pattern := Re.Grp 1 re_number.

Definition extractor := Re.match_obj -> Py.result (Py.str * Q).

Definition patterns : list (Re.pattern * extractor) :=
  [ (re_compound,
     fun m => g1 ← Re.group m 1 ; g2 ← Re.group m 2 ;
              v ← Py.float db g2 ; Ok (g1 ++ py "=", v));
    (re_simple,
     fun m => g1 ← Re.group m 1 ; g2 ← Re.group m 2 ;
              v ← Py.float db g2 ; Ok (g1, v));
    (re_paren,
     fun m => g1 ← Re.group m 1 ; g2 ← Re.group m 2 ;
              v ← Py.float db g2 ;
              Ok (g1 ++ (if Py.contains g1 (py "=") then py "=" else []), v)) ].

(** The [if]/[elif] chain that normalises the operator. *)
Definition normalise_op (op : Py.str) : Py.str :=
  if Py.eqb op (py "<=") || Py.eqb op (py "≤") then py "<="
  else if Py.eqb op (py ">=") || Py.eqb op (py "≥") then py ">="
  else op.

(** The text the patterns are tried on: stripped, with the two glyphs
    replaced. *)
Definition normalise_text (umbral_str : Py.str) : Py.str :=
  Py.replace 8805%N (py ">=")
    (Py.replace 8804%N (py "<=") (Py.strip db umbral_str)).

(** The [for] loop over [patterns]; [None] when no pattern matches. *)
Fixpoint first_pattern (ps : list (Re.pattern * extractor)) (s : Py.str)
    : option (Py.result (Py.str * Q)) :=
  match ps with
  | [] => None
  | (pattern, extract) :: ps' =>
    match Re.search pattern s with
    | Some m => Some (r ← extract m ; Ok (normalise_op (fst r), snd r))
    | None => first_pattern ps' s
    end
  end.

(** The argument is a [str]: [pd.isna] is false on it and [str()] returns
    it. *)
Definition parse_threshold (umbral_str : Py.str)
    : Py.result (option Py.str * option Q) :=
  match umbral_str with
  | [] => Ok (None, None)
  | _ =>
    let umbral_str := normalise_text umbral_str in
    match first_pattern patterns umbral_str with
    | Some r => p ← r ; Ok (Some (fst p), Some (snd p))
    | None =>
      match Re.search re_bare umbral_str with
      | Some number_match =>
        g1 ← Re.group number_match 1 ;
        v ← Py.float db g1 ;
        Ok (Some (py ">="), Some v)
      | None => Ok (None, None)
      end
    end
  end.

End Engine.

(** *** Strategies and their rules *)

(** One entry of a strategy's rule list: the dict with keys ["indicator"] and
    ["weight"]. *)
Record rule := { indicator : Py.str; weight : Q }.

(** [normalize_strategy_weights] updates the rule objects in place, so they
    live in a store: a rule list holds references. [load_strategies_from_xlsx]
    allocates one fresh object per spreadsheet row. *)
Definition loc := nat.
Definition store := loc -> rule.

Definition store_set (h : store) (l : loc) (r : rule) : store :=
  fun l' => if bool_decide (l' = l) then r else h l'.

(** [sum(r["weight"] for r in rules)], from the integer 0, left to right *)
Definition py_sum (ws : list Q) : Q := foldl Qplus 0%Q ws.

Definition total_weight (h : store) (rules : list loc) : Q :=
  py_sum (map (fun r => weight (h r)) rules).

(** The inner loop: [r["weight"] = r["weight"] / total]. *)
Definition divide_weights (total : Q) (rules : list loc) (h : store) : store :=
  foldl (fun h r =>
           store_set h r
             {| indicator := indicator (h r); weight := (weight (h r) / total)%Q |})
        h rules.

(** The allocation pattern of [load_strategies_from_xlsx]: the rows of a
    strategy become new rule objects, at the addresses from [next] on, and the
    strategy gets the list of their references. *)
Definition alloc_rules (next : loc) (rows : list rule) (h : store)
    : list loc * store :=
  (seq next (length rows),
   fun l => if bool_decide (next <= l)%nat
            then default (h l) (rows !! (l - next)%nat) else h l).

Fixpoint alloc_config (next : loc) (rows_by_strategy : Py.dict (list rule))
    (h : store) : Py.dict (list loc) * store :=
  match rows_by_strategy with
  | [] => ([], h)
  | (est, rows) :: rest =>
    let '(refs, h1) := alloc_rules next rows h in
    let '(cfg, h2) := alloc_config (next + length rows) rest h1 in
    ((est, refs) :: cfg, h2)
  end.

(** One turn of the outer loop: a strategy whose total is 0 is skipped. *)
Definition normalize_one (h : store) (rules : list loc) : store :=
  let total := total_weight h rules in
  if Qeq_bool total 0 then h else divide_weights total rules h.

Definition normalize_strategy_weights
    (strategies_config : Py.dict (list loc)) (h : store) : store :=
  foldl (fun h '(est, rules) => normalize_one h rules) h strategies_config.

(** *** [check_condition] *)

Definition Qlt_bool (x y : Q) : bool :=
  match (x ?= y)%Q with Lt => true | _ => false end.

Definition check_condition (value : option Q) (op : Py.str) (threshold : Q)
    : Py.result bool :=
  match value with
  | None => Ok false
  | Some value =>
    if Py.eqb op (py "<") then Ok (Qlt_bool value threshold)
    else if Py.eqb op (py "<=") then Ok (Qle_bool value threshold)
    else if Py.eqb op (py ">") then Ok (Qlt_bool threshold value)
    else if Py.eqb op (py ">=") then Ok (Qle_bool threshold value)
    else Raise Py.ValueError
  end.

(** *** [build_indicator_matrix] *)

(** An entry of [indicator_thresholds]; both keys are read with a default. *)
Record threshold_config := { tc_op : option Py.str; tc_threshold : option Q }.

(** [{r["indicator"]: r for r in rules}] *)
Definition rule_by_ind (rules : list rule) : Py.dict rule :=
  foldl (fun d r => Py.dict_set d (indicator r) r) [] rules.

(** [threshold_config.get("op", ">=")] and
    [threshold_config.get("threshold", 0)] *)
Definition threshold_op (tc : threshold_config) : Py.str :=
  default (py ">=") (tc_op tc).
Definition threshold_bound (tc : threshold_config) : Q :=
  default 0%Q (tc_threshold tc).

(** The entry of an indicator, when the table is given and has one. *)
Definition threshold_of
    (indicator_thresholds : option (gmap Py.str threshold_config))
    (ind : Py.str) : option threshold_config :=
  indicator_thresholds ≫= fun t => t !! ind.

(** The body of the loop over [indicators]: the value appended to the row.
    [indicator_values] holds the indicators that have a value; [None] for
    [indicator_thresholds] is the default argument. *)
Definition cell (indicator_values : gmap Py.str Q)
    (indicator_thresholds : option (gmap Py.str threshold_config))
    (by_ind : Py.dict rule) (ind : Py.str) : Py.result Q :=
  match Py.dict_get by_ind ind with
  | None => Ok 0%Q
  | Some rule =>
    match indicator_values !! ind with
    | None => Ok 0%Q
    | Some val =>
      match threshold_of indicator_thresholds ind with
      | Some threshold_config =>
        let op := threshold_op threshold_config in
        let threshold := threshold_bound threshold_config in
        ok ← check_condition (Some val) op threshold;
        Ok (if ok : bool then weight rule else 0%Q)
      | None => Ok (weight rule)
      end
    end
  end.

Definition build_indicator_matrix (indicator_values : gmap Py.str Q)
    (strategies_config : Py.dict (list rule)) (indicators : list Py.str)
    (indicator_thresholds : option (gmap Py.str threshold_config))
    : Py.result (list (list Q) * list Py.str) :=
  let strategy_names := map fst strategies_config in
  matrix ← Py.mapM
    (fun est =>
       match Py.dict_get strategies_config est with
       | None => Raise Py.KeyError
       | Some rules =>
         Py.mapM (cell indicator_values indicator_thresholds (rule_by_ind rules))
                 indicators
       end)
    strategy_names;
  Ok (matrix, strategy_names).

(** [compliance = indicator_matrix.sum(axis=1)] in [build_mcda_matrix]; an
    array built from no row at all has a single axis. *)
Definition compliance (indicator_matrix : list (list Q)) : Py.result (list Q) :=
  match indicator_matrix with
  | [] => Raise Py.AxisError
  | _ => Ok (map py_sum indicator_matrix)
  end.

(** *** [normalize_criterion] *)

(** [values.min()] and [values.max()]; the code calls them on arrays that are
    not empty. *)
Definition np_min (values : list Q) : Q :=
  match values with
  | [] => 0%Q
  | v :: vs => foldl Qmin v vs
  end.

Definition np_max (values : list Q) : Q :=
  match values with
  | [] => 0%Q
  | v :: vs => foldl Qmax v vs
  end.

Definition normalize_criterion (values : list Q) (maximize : bool) : list Q :=
  match values with
  | [] => values
  | _ =>
    let min_val := np_min values in
    let max_val := np_max values in
    if Qeq_bool max_val min_val then map (fun _ => 1%Q) values
    else
      let normalized :=
        map (fun x => ((x - min_val) / (max_val - min_val))%Q) values in
      if maximize then normalized
      else map (fun x => (1 - x)%Q) normalized
  end.

(** *** The response-type taxonomy and the multiplier tables *)

Local Open Scope Q_scope.

Definition ESTRATEGIA_TIPO_RESPUESTA : Py.dict Py.str :=
  [ (py "Aplicar adulticidas químicos como malatión o deltametrina para el control rápido del vector adulto en espacios abiertos.",
     py "inmediata");
    (py "Implementar rápidamente protocolos de triage y fortalecer la capacitación del personal de salud para el manejo clínico del dengue.",
     py "inmediata");
    (py "Aplicar larvicidas químicos en criaderos específicos de gran volumen donde no es viable el control físico, garantizando seguridad ambiental.",
     py "activa");
    (py "Aplicar métodos biológicos para el control larvario del vector, incluyendo el uso de peces larvívoros y Bacillus thuringiensis.",
     py "activa");
    (py "Implementar acciones de control físico en el entorno domiciliario y comunitario para reducir o eliminar criaderos del vector.",
     py "activa");
    (py "Realizar identificación focalizada de criaderos mediante inspección directa y herramientas de georreferenciación.",
     py "activa");
    (py "Fomentar el uso de medidas de protección individual, como repelente y barreras físicas, especialmente en grupos de riesgo.",
     py "activa");
    (py "Promover prácticas preventivas sostenibles mediante campañas educativas, cambio de comportamiento social y vigilancia participativa.",
     py "preventiva");
    (py "Difundir mensajes preventivos inmediatos a través de canales como SMS, redes sociales y altavoces en zonas de brote.",
     py "preventiva");
    (py "Fortalecer la percepción de riesgo del dengue y promover prácticas preventivas comunitarias mediante información, educación y comunicación.",
     py "preventiva");
    (py "Fortalecer la prevención individual frente al dengue mediante el uso de vacunas aprobadas en población objetivo según lineamientos nacionales.",
     py "preventiva");
    (py "Articular esfuerzos con los sectores de agua, saneamiento, educación y servicios públicos para acciones preventivas sostenibles.",
     py "coordinacion");
    (py "Fortalecer la articulación institucional para asegurar la continuidad de las acciones de control y facilitar la entrada a predios.",
     py "coordinacion");
    (py "Fortalecer la sostenibilidad del programa de control del dengue mediante inversión continua, alianzas y gestión de recursos.",
     py "coordinacion");
    (py "Utilizar datos meteorológicos y modelos de alerta temprana para anticipar condiciones favorables al vector.",
     py "monitoreo");
    (py "Utilizar tecnologías innovadoras para el monitoreo y control focalizado del vector, como drones, sensores remotos o trampas inteligentes.",
     py "monitoreo");
    (py "Monitorear condiciones climáticas y gestionar escorrentías o acumulaciones de agua que favorezcan criaderos.",
     py "monitoreo");
    (py "Implementar estrategias de control vectorial basadas en biotecnología, como la liberación de mosquitos Wolbachia o técnica del insecto estéril.",
     py "monitoreo");
    (py "Implementar programas de diagnóstico oportuno, tratamiento adecuado y acompañamiento a pacientes con dengue.",
     py "monitoreo") ].

Definition MULTIPLICADORES_URGENCIA : Py.dict (Py.dict Q) :=
  [ (py "bajo_riesgo",
     [ (py "inmediata", 0.2);
       (py "activa", 0.5);
       (py "preventiva", 1.8);
       (py "coordinacion", 1.5);
       (py "monitoreo", 1.7) ]);
    (py "riesgo_moderado",
     [ (py "inmediata", 0.4);
       (py "activa", 1.6);
       (py "preventiva", 0.9);
       (py "coordinacion", 1.2);
       (py "monitoreo", 1.3) ]);
    (py "alto_riesgo",
     [ (py "inmediata", 1.8);
       (py "activa", 1.3);
       (py "preventiva", 0.4);
       (py "coordinacion", 1.0);
       (py "monitoreo", 0.6) ]);
    (py "emergencia",
     [ (py "inmediata", 2.5);
       (py "activa", 0.9);
       (py "preventiva", 0.2);
       (py "coordinacion", 0.7);
       (py "monitoreo", 0.3) ]) ].

Definition CONTEXTO_ESCENARIO : Py.dict (Py.dict Q) :=
  [ (py "lluvias_intensas",
     [ (py "Monitorear condiciones climáticas y gestionar escorrentías", 1.8);
       (py "Realizar identificación focalizada de criaderos", 1.5);
       (py "Implementar acciones de control físico", 1.4);
       (py "Utilizar datos meteorológicos", 1.6);
       (py "Aplicar larvicidas químicos", 1.3) ]);
    (py "intermitencia_agua",
     [ (py "Implementar acciones de control físico", 1.7);
       (py "Realizar identificación focalizada de criaderos", 1.6);
       (py "Promover prácticas preventivas", 1.4);
       (py "Fortalecer la percepción de riesgo", 1.3);
       (py "Aplicar larvicidas químicos", 1.5);
       (py "Articular esfuerzos con los sectores de agua", 1.6) ]);
    (py "movilidad_eventos",
     [ (py "Implementar programas de diagnóstico oportuno", 1.7);
       (py "Implementar rápidamente protocolos de triage", 1.5);
       (py "Difundir mensajes preventivos inmediatos", 1.6);
       (py "Fomentar el uso de medidas de protección individual", 1.5);
       (py "Utilizar tecnologías innovadoras para el monitoreo", 1.4) ]);
    (py "saturacion_operativa",
     [ (py "Fortalecer la articulación institucional", 1.7);
       (py "Fortalecer la sostenibilidad del programa", 1.5);
       (py "Aplicar adulticidas químicos", 1.4);
       (py "Implementar rápidamente protocolos de triage", 1.6);
       (py "Articular esfuerzos con los sectores", 1.5) ]);
    (py "agua_intermitente",
     [ (py "Implementar acciones de control físico", 6.0);
       (py "Aplicar larvicidas químicos", 5.0);
       (py "Articular esfuerzos con los sectores de agua", 4.5);
       (py "Promover prácticas preventivas", 4.0);
       (py "métodos biológicos", 0.3);
       (py "adulticidas", 0.4) ]);
    (py "alta_densidad",
     [ (py "Aplicar adulticidas químicos", 6.0);
       (py "Fomentar el uso de medidas de protección individual", 5.5);
       (py "Implementar rápidamente protocolos de triage", 5.0);
       (py "Implementar programas de diagnóstico oportuno", 4.5);
       (py "métodos biológicos", 0.2);
       (py "control físico", 0.4) ]);
    (py "construcciones",
     [ (py "Monitorear condiciones climáticas y gestionar escorrentías", 6.0);
       (py "Utilizar tecnologías innovadoras", 5.5);
       (py "Articular esfuerzos con los sectores", 5.0);
       (py "Realizar identificación focalizada de criaderos", 4.5);
       (py "métodos biológicos", 0.3);
       (py "adulticidas", 0.5) ]);
    (py "dificil_acceso",
     [ (py "Utilizar tecnologías innovadoras", 6.0);
       (py "Aplicar métodos biológicos", 5.5);
       (py "Fortalecer la articulación institucional", 5.0);
       (py "Promover prácticas preventivas", 4.5);
       (py "adulticidas", 0.3);
       (py "larvicidas químicos", 0.4) ]);
    (py "rechazo_comunitario",
     [ (py "Fortalecer la percepción de riesgo", 6.0);
       (py "Difundir mensajes preventivos", 5.5);
       (py "Promover prácticas preventivas", 5.0);
       (py "Fortalecer la articulación institucional", 4.5);
       (py "métodos biológicos", 0.3);
       (py "adulticidas", 0.3);
       (py "larvicidas", 0.4) ]);
    (py "historicamente_problematica",
     [ (py "Realizar identificación focalizada de criaderos", 6.0);
       (py "Utilizar tecnologías innovadoras", 5.5);
       (py "Utilizar datos meteorológicos", 5.0);
       (py "métodos biológicos", 0.4);
       (py "adulticidas", 0.3) ]);
    (py "bien_organizada",
     [ (py "Promover prácticas preventivas", 6.0);
       (py "Fortalecer la percepción de riesgo", 5.5);
       (py "Difundir mensajes preventivos", 5.0);
       (py "métodos biológicos", 0.4);
       (py "adulticidas", 0.2);
       (py "larvicidas", 0.3) ]);
    (py "buena_infraestructura",
     [ (py "Utilizar tecnologías innovadoras", 6.0);
       (py "Utilizar datos meteorológicos", 5.5);
       (py "Monitorear condiciones climáticas", 5.0);
       (py "métodos biológicos", 0.4);
       (py "adulticidas", 0.2);
       (py "larvicidas", 0.3) ]);
    (py "cobertura_agua_variable",
     [ (py "Promover prácticas preventivas", 6.0);
       (py "Implementar acciones de control físico", 5.5);
       (py "Articular esfuerzos con los sectores de agua", 5.0);
       (py "métodos biológicos", 0.4);
       (py "adulticidas", 0.2) ]);
    (py "transicion",
     [ (py "Fortalecer la sostenibilidad del programa", 6.0);
       (py "Promover prácticas preventivas", 5.5);
       (py "Realizar identificación focalizada de criaderos", 5.0);
       (py "métodos biológicos", 0.4);
       (py "adulticidas", 0.2);
       (py "larvicidas", 0.3) ]) ].

Local Close Scope Q_scope.

Section Urgency.

Context (db : Py.unicode_db).

(** *** [get_tipo_respuesta] *)

Definition get_tipo_respuesta (estrategia : Py.str) : Py.str :=
  match Py.dict_get ESTRATEGIA_TIPO_RESPUESTA estrategia with
  | Some tipo => tipo
  | None =>
    let est_norm := Py.lower db (take 50 (Py.strip db estrategia)) in
    match
      find (fun '(est_key, _) =>
              Py.eqb (Py.lower db (take 50 (Py.strip db est_key))) est_norm)
           ESTRATEGIA_TIPO_RESPUESTA
    with
    | Some (_, tipo) => tipo
    | None => py "activa"
    end
  end.

(** *** [aplicar_multiplicador_urgencia] *)

(** The inner loop over [mult_contexto.items()], with its [break]. *)
Definition mult_ctx (mult_contexto : Py.dict Q) (est_name : Py.str) : Q :=
  match
    find (fun '(ctx_key, _) =>
            Py.contains (Py.lower db est_name) (Py.lower db ctx_key))
         mult_contexto
  with
  | Some (_, ctx_mult) => ctx_mult
  | None => 1%Q
  end.

(** [contexto_escenario] is [None] or a string; the empty string is falsy. *)
Definition mult_contexto (contexto_escenario : option Py.str) : Py.dict Q :=
  match contexto_escenario with
  | Some (c :: cs) => default [] (Py.dict_get CONTEXTO_ESCENARIO (c :: cs))
  | _ => []
  end.

(** The loop over [enumerate(zip(scores, strategy_names))]: entry [i] of the
    zero-filled copy is written; [i] is always in range. *)
Definition scores_ajustados (multiplicadores : Py.dict Q)
    (mult_contexto : Py.dict Q) (scores : list Q) (strategy_names : list Py.str)
    : list Q :=
  foldl (fun acc '(i, (score, est_name)) =>
           let tipo := get_tipo_respuesta est_name in
           let mult_nivel := default 1%Q (Py.dict_get multiplicadores tipo) in
           <[i := (score * mult_nivel * mult_ctx mult_contexto est_name)%Q]> acc)
        (map (fun _ => 0%Q) scores)
        (imap (fun i p => (i, p)) (zip scores strategy_names)).

Definition aplicar_multiplicador_urgencia (scores : list Q)
    (strategy_names : list Py.str) (nivel_riesgo : Py.str)
    (contexto_escenario : option Py.str) : list Q :=
  match Py.dict_get MULTIPLICADORES_URGENCIA nivel_riesgo with
  | None => scores
  | Some multiplicadores =>
    let adjusted :=
      scores_ajustados multiplicadores (mult_contexto contexto_escenario)
                       scores strategy_names in
    match adjusted with
    | [] => adjusted
    | _ =>
      let max_score := np_max adjusted in
      if Qlt_bool 0 max_score
      then map (fun x => (x / max_score)%Q) adjusted
      else adjusted
    end
  end.

End Urgency.

(** ** [escenarios_prescriptivos.py]: the re-ranking in [ejecutar_escenario] *)

Section Ranking.

(** [np.argsort] with its default sort kind. NumPy promises the indices that
    sort the array in ascending order and nothing about equal entries. *)
Context (argsort : list Q -> list nat).

(** [np.argsort(scores_ajustados)[::-1]] *)
Definition indices_ordenados (scores : list Q) : list nat :=
  reverse (argsort scores).

(** [ranks_ajustados[idx] = rank]; an index out of range raises. *)
Definition setitem {A} (l : list A) (i : nat) (x : A) : Py.result (list A) :=
  if (i <? length l)%nat then Ok (<[i := x]> l) else Raise Py.IndexError.

(** The loop over [enumerate(indices_ordenados, 1)]. *)
Fixpoint assign_ranks (rank : nat) (indices : list nat) (ranks : list nat)
    : Py.result (list nat) :=
  match indices with
  | [] => Ok ranks
  | idx :: indices' =>
    ranks' ← setitem ranks idx rank;
    assign_ranks (S rank) indices' ranks'
  end.

Definition ranks_ajustados (scores : list Q) : Py.result (list nat) :=
  assign_ranks 1 (indices_ordenados scores) (map (fun _ => 0%nat) scores).

End Ranking.

(** *** [load_strategies_from_xlsx] *)

(** A row of the data frame [pd.read_excel] returns, by the four columns the
    loader reads. The frames covered are those in which every cell of the two
    name columns is a [str], every weight cell a number or NaN ([None] here)
    and every threshold cell a [str] or NaN ([None] here). Other frames are
    outside this model and nothing is stated about them: a name cell that is
    empty or holds a text such as "NA" is read as NaN, which [sorted] cannot
    compare with a [str], and a text in the weight column goes to [float],
    which raises on a text that is not a number. *)
Record sheet_row := {
  Estrategia : Py.str;
  Indicador : Py.str;
  Peso : option Q;
  Umbral : option Py.str;
}.

(** [Series.unique()]: the values in the order of their first appearance. *)
Fixpoint unique (l : list Py.str) : list Py.str :=
  match l with
  | [] => []
  | x :: l' => x :: filter (fun y => y <> x) (unique l')
  end.

(** The order of [str]: by code points, a proper prefix first. *)
Fixpoint str_leb (a b : Py.str) : bool :=
  match a, b with
  | [], _ => true
  | _ :: _, [] => false
  | x :: a', y :: b' => (x <? y)%N || ((x =? y)%N && str_leb a' b')
  end.

Definition str_le (a b : Py.str) : Prop := str_leb a b = true.

#[export] Instance str_le_dec : RelDecision str_le.
Proof. intros a b. unfold str_le. apply _. Defined.

(** [sorted] on a list of [str]. *)
Definition sorted (l : list Py.str) : list Py.str := merge_sort str_le l.

(** A loop whose body may raise. *)
Fixpoint foldM {S B} (f : S -> B -> Py.result S) (s : S) (l : list B)
    : Py.result S :=
  match l with
  | [] => Ok s
  | x :: l' => s' ← f s x; foldM f s' l'
  end.

Section Loader.

Context (db : Py.unicode_db).

(** [parse_threshold(row.get('Umbral Consensuado', ''))]; an empty cell is
    NaN, which [pd.isna] sends to (None, None). *)
Definition parse_cell (umbral : option Py.str)
    : Py.result (option Py.str * option Q) :=
  match umbral with
  | None => Ok (None, None)
  | Some umbral_str => parse_threshold db umbral_str
  end.

(** The body of the loop over the rows of one strategy. *)
Definition load_row (acc : list rule * gmap Py.str threshold_config)
    (row : sheet_row) : Py.result (list rule * gmap Py.str threshold_config) :=
  let '(indicators_list, indicator_thresholds) := acc in
  let indicador := Indicador row in
  let peso := match Peso row with Some p => p | None => 0%Q end in
  let indicators_list :=
    indicators_list ++ [{| indicator := indicador; weight := peso |}] in
  p ← parse_cell (Umbral row);
  match p with
  | (Some op, Some threshold_val) =>
    Ok (indicators_list,
        <[indicador := {| tc_op := Some op; tc_threshold := Some threshold_val |}]>
          indicator_thresholds)
  | _ => Ok (indicators_list, indicator_thresholds)
  end.

(** The body of the loop over the strategies. *)
Definition load_strategy (df : list sheet_row)
    (acc : Py.dict (list rule) * gmap Py.str threshold_config)
    (estrategia : Py.str)
    : Py.result (Py.dict (list rule) * gmap Py.str threshold_config) :=
  let '(strategies_config, indicator_thresholds) := acc in
  let estrategia_df := filter (fun row => Estrategia row = estrategia) df in
  r ← foldM load_row ([], indicator_thresholds) estrategia_df;
  Ok (Py.dict_set strategies_config estrategia r.1, r.2).

Definition load_strategies_from_xlsx (df : list sheet_row)
    : Py.result (Py.dict (list rule) * list Py.str
                 * gmap Py.str threshold_config) :=
  let indicators := sorted (unique (map Indicador df)) in
  r ← foldM (load_strategy df) ([], ∅) (unique (map Estrategia df));
  Ok (r.1, indicators, r.2).

End Loader.

(** *** [build_mcda_matrix] *)

Definition FACTOR_NAMES : list Py.str :=
  [ py "disponibilidad_recursos"; py "costo_operativo"; py "tiempo_cobertura";
    py "dependencias_externas"; py "aceptacion_comunidad"; py "acceso_predios";
    py "percepcion_riesgo"; py "resistencia_vector"; py "otros_vectores";
    py "efectividad_esperada"; py "magnitud_brote" ].

Section Mcda.

Context (db : Py.unicode_db).

(** The test of the loop that looks for a key close to the strategy name:
    the same first 30 characters when both names are longer than that, or one
    name inside the other. *)
Definition partial_match (est est_key : Py.str) : bool :=
  let est_normalized := Py.strip db est in
  let est_key_normalized := Py.strip db est_key in
  ((30 <? length est_normalized)%nat && (30 <? length est_key_normalized)%nat
   && Py.eqb (take 30 est_normalized) (take 30 est_key_normalized))
  || (Py.contains est_key_normalized est_normalized
      || Py.contains est_normalized est_key_normalized).

(** [factors]: the entry of the strategy and, when it has none or an empty
    one, the entry of the first key that matches in part; the keys of a
    [dict] are distinct, so that entry is [strategy_factors[est_key]]. *)
Definition strategy_factors_of (strategy_factors : Py.dict (Py.dict Q))
    (est : Py.str) : Py.dict Q :=
  match default [] (Py.dict_get strategy_factors est) with
  | [] =>
    match find (fun '(est_key, _) => partial_match est est_key) strategy_factors with
    | Some (_, factors) => factors
    | None => []
    end
  | factors => factors
  end.

(** The loop over [FACTOR_NAMES]. *)
Definition factor_score (factors strategy_context_values
    factor_values_general : Py.dict Q) : Q :=
  foldl (fun score_total factor_name =>
           let factor_estrategia := default 0%Q (Py.dict_get factors factor_name) in
           let factor_contexto :=
             match Py.dict_get factor_values_general factor_name with
             | Some v => v
             | None => default 0%Q (Py.dict_get strategy_context_values factor_name)
             end in
           (score_total + factor_estrategia * factor_contexto)%Q)
        0%Q FACTOR_NAMES.

Definition factor_scores (strategy_names : list Py.str)
    (strategy_factors factor_values_by_strategy : Py.dict (Py.dict Q))
    (factor_values_general : Py.dict Q) : list Q :=
  map (fun est =>
         let factors := strategy_factors_of strategy_factors est in
         let strategy_context_values :=
           default (default [] (Py.dict_get factor_values_by_strategy (py "_default")))
                   (Py.dict_get factor_values_by_strategy est) in
         factor_score factors strategy_context_values factor_values_general)
      strategy_names.

(** [np.column_stack] of two vectors: they must have the same length. *)
Definition column_stack (a b : list Q) : Py.result (list (list Q)) :=
  if (length a =? length b)%nat
  then Ok (zip_with (fun x y => [x; y]) a b)
  else Raise Py.ValueError.

Definition criteria_names : list Py.str :=
  [py "cumplimiento_indicadores"; py "score_factores"].

Definition build_mcda_matrix (indicator_matrix : list (list Q))
    (strategy_names : list Py.str)
    (strategy_factors factor_values_by_strategy : Py.dict (Py.dict Q))
    (factor_values_general : Py.dict Q) (normalize : bool)
    : Py.result (list (list Q) * list Py.str * list Q) :=
  compliance ← compliance indicator_matrix;
  let factor_scores :=
    factor_scores strategy_names strategy_factors factor_values_by_strategy
      factor_values_general in
  mcda_matrix ←
    (if normalize
     then column_stack (normalize_criterion compliance true)
                       (normalize_criterion factor_scores true)
     else column_stack compliance factor_scores);
  Ok (mcda_matrix, criteria_names, factor_scores).

End Mcda.

(** *** The level and the ranking in [ejecutar_escenario] *)

Definition niveles_validos : list Py.str :=
  [py "bajo_riesgo"; py "riesgo_moderado"; py "alto_riesgo"; py "emergencia"].

(** The table from alert level to risk level, read with a default. *)
Definition nivel_por_alerta (nivel_alerta : Z) : Py.str :=
  match nivel_alerta with
  | 1%Z => py "bajo_riesgo"
  | 2%Z => py "riesgo_moderado"
  | 3%Z => py "alto_riesgo"
  | 4%Z => py "emergencia"
  | _ => py "riesgo_moderado"
  end.

(** [nivel_riesgo]: the scenario id when it names a level, else the level of
    [escenario.get('nivel_alerta', 2)]. *)
Definition nivel_riesgo (escenario_id : Py.str) (nivel_alerta : option Z)
    : Py.str :=
  if bool_decide (escenario_id ∈ niveles_validos) then escenario_id
  else nivel_por_alerta (default 2%Z nivel_alerta).

(** An entry of the ranking: strategy, rank, score, compliance. *)
Definition entry : Type := Py.str * nat * Q * Q.

Definition entry_rank (x : entry) : nat := x.1.1.2.
Definition entry_score (x : entry) : Q := x.1.2.

(** [sorted(..., key=lambda x: x[1])]: a stable sort by rank; an element
    goes behind those sorted so far whose rank is not larger. *)
Fixpoint insert_by_rank (x : entry) (l : list entry) : list entry :=
  match l with
  | [] => [x]
  | y :: l' =>
    if (entry_rank y <=? entry_rank x)%nat then y :: insert_by_rank x l'
    else x :: l
  end.

Definition sorted_by_rank (l : list entry) : list entry :=
  foldl (fun acc x => insert_by_rank x acc) [] l.

(** [ranking] *)
Definition ranking (alternatives : list Py.str) (ranks_finales : list nat)
    (scores_finales compliance : list Q) : list entry :=
  sorted_by_rank (zip (zip (zip alternatives ranks_finales) scores_finales)
                      compliance).

Section Scenario.

Context (db : Py.unicode_db) (argsort : list Q -> list nat).

(** [ejecutar_escenario] from the scores of the aggregation on: [scores] is
    [result.e_.score], [compliance] the first column of the decision
    matrix. *)
Definition ejecutar_escenario_ranking (scores : list Q)
    (strategy_names : list Py.str) (compliance : list Q)
    (escenario_id : Py.str) (nivel_alerta : option Z)
    (contexto_escenario : option Py.str) : Py.result (list entry) :=
  let nivel_riesgo := nivel_riesgo escenario_id nivel_alerta in
  let scores_ajustados :=
    aplicar_multiplicador_urgencia db scores strategy_names nivel_riesgo
      contexto_escenario in
  ranks_ajustados ← ranks_ajustados argsort scores_ajustados;
  Ok (ranking strategy_names ranks_ajustados scores_ajustados compliance).

End Scenario.

(** *** The indicator counters of [ejecutar_escenario] *)

(** [d[k]] on an entry of the threshold table: a missing key raises. *)
Definition getitem {V} (v : option V) : Py.result V :=
  match v with
  | Some x => Ok x
  | None => Raise Py.KeyError
  end.

(** The body of the loop over [indicators]; the state is
    ([indicadores_criticos], [indicadores_normales]). *)
Definition contar_indicador (indicator_values : gmap Py.str Q)
    (indicator_thresholds : gmap Py.str threshold_config)
    (acc : nat * nat) (ind : Py.str) : Py.result (nat * nat) :=
  let '(indicadores_criticos, indicadores_normales) := acc in
  match indicator_values !! ind, indicator_thresholds !! ind with
  | Some val, Some tc =>
    op ← getitem (tc_op tc);
    threshold ← getitem (tc_threshold tc);
    ok ← check_condition (Some val) op threshold;
    if ok : bool then Ok (S indicadores_criticos, indicadores_normales)
    else Ok (indicadores_criticos, S indicadores_normales)
  | _, _ => Ok acc
  end.

Definition contar_indicadores (indicators : list Py.str)
    (indicator_values : gmap Py.str Q)
    (indicator_thresholds : gmap Py.str threshold_config)
    : Py.result (nat * nat) :=
  foldM (contar_indicador indicator_values indicator_thresholds) (0, 0)%nat
        indicators.

(** *** The first steps of [ejecutar_escenario] *)

(** The configuration as [build_indicator_matrix] reads it: every reference
    followed to its rule object. *)
Definition deref (strategies_config : Py.dict (list loc)) (h : store)
    : Py.dict (list rule) :=
  map (fun '(est, refs) => (est, map h refs)) strategies_config.

(** Load the sheet, normalise the weights in place, build the matrix for
    the indicator values of the scenario. The rule objects of the loader
    live at the addresses from 0 on. *)
Definition ejecutar_escenario_indicator_matrix (db : Py.unicode_db)
    (df : list sheet_row) (indicator_values : gmap Py.str Q)
    : Py.result (list (list Q) * list Py.str) :=
  r ← load_strategies_from_xlsx db df;
  let loaded :=
    alloc_config 0 r.1.1 (fun _ => {| indicator := []; weight := 0%Q |}) in
  let h := normalize_strategy_weights loaded.1 loaded.2 in
  build_indicator_matrix indicator_values (deref loaded.1 h) r.1.2 (Some r.2).

(** ** Notions used to state the properties *)

(** *** Conditions *)

Definition supported_op (op : Py.str) : Prop :=
  op = py "<" \/ op = py "<=" \/ op = py ">" \/ op = py ">=".

(** The alarming region of each operator. *)
Inductive alarming (value threshold : Q) : Py.str -> Prop :=
| alarming_lt : (value < threshold)%Q -> alarming value threshold (py "<")
| alarming_le : (value <= threshold)%Q -> alarming value threshold (py "<=")
| alarming_gt : (threshold < value)%Q -> alarming value threshold (py ">")
| alarming_ge : (threshold <= value)%Q -> alarming value threshold (py ">=").

(** *** Vectors *)

Definition is_min (lo : Q) (values : list Q) : Prop :=
  lo ∈ values /\ forall x, x ∈ values -> (lo <= x)%Q.

Definition is_max (hi : Q) (values : list Q) : Prop :=
  hi ∈ values /\ forall x, x ∈ values -> (x <= hi)%Q.

Definition all_equal (values : list Q) : Prop :=
  forall x y, x ∈ values -> y ∈ values -> (x == y)%Q.

(** *** The compliance matrix *)

(** The strategy has a rule for the indicator. *)
Definition references (rules : list rule) (ind : Py.str) : Prop :=
  exists r, r ∈ rules /\ indicator r = ind.

(** The weight the strategy gives the indicator: that of its last rule for
    it. *)
Definition weight_for (rules : list rule) (ind : Py.str) (w : Q) : Prop :=
  exists l1 r l2,
    rules = l1 ++ r :: l2 /\ indicator r = ind /\ weight r = w
    /\ forall r', r' ∈ l2 -> indicator r' <> ind.

(** What is expected of one cell. *)
Definition cell_spec (indicator_values : gmap Py.str Q)
    (indicator_thresholds : option (gmap Py.str threshold_config))
    (rules : list rule) (ind : Py.str) (c : Q) : Prop :=
  (~ references rules ind -> c = 0%Q)
  /\ (indicator_values !! ind = None -> c = 0%Q)
  /\ (forall w val,
        weight_for rules ind w -> indicator_values !! ind = Some val ->
        (forall tc, threshold_of indicator_thresholds ind = Some tc ->
           exists ok,
             check_condition (Some val) (threshold_op tc) (threshold_bound tc)
             = Ok ok
             /\ c = if ok then w else 0%Q)
        /\ (threshold_of indicator_thresholds ind = None -> c = w)).

(** The same, read off the threshold table itself: the entry of the
    indicator, its operator (">=" when the entry has none) and its bound (0
    when it has none). *)
Definition cell_cases (indicator_values : gmap Py.str Q)
    (indicator_thresholds : option (gmap Py.str threshold_config))
    (rules : list rule) (ind : Py.str) (c : Q) : Prop :=
  (~ references rules ind -> c = 0%Q)
  /\ (indicator_values !! ind = None -> c = 0%Q)
  /\ (forall w val,
        weight_for rules ind w -> indicator_values !! ind = Some val ->
        match indicator_thresholds with
        | None => c = w
        | Some table =>
          match table !! ind with
          | None => c = w
          | Some entry =>
            let op := match tc_op entry with Some o => o | None => py ">=" end in
            let bound :=
              match tc_threshold entry with Some b => b | None => 0%Q end in
            exists ok,
              check_condition (Some val) op bound = Ok ok
              /\ (ok = true <-> alarming val bound op)
              /\ c = if ok then w else 0%Q
          end
        end).

(** Every operator of the table is one [check_condition] supports, as
    [parse_threshold] produces them. *)
Definition valid_thresholds
    (indicator_thresholds : option (gmap Py.str threshold_config)) : Prop :=
  forall ind tc, threshold_of indicator_thresholds ind = Some tc ->
    supported_op (threshold_op tc).

(** The same on the table itself: every entry has an operator
    [check_condition] supports, ">=" standing for an entry without one. *)
Definition supported_table
    (indicator_thresholds : option (gmap Py.str threshold_config)) : Prop :=
  forall table ind entry,
    indicator_thresholds = Some table -> table !! ind = Some entry ->
    supported_op (match tc_op entry with Some o => o | None => py ">=" end).

(** The last rule of the list for an indicator, scanning left to right. *)
Fixpoint last_rule (acc : option rule) (rules : list rule) (ind : Py.str)
    : option rule :=
  match rules with
  | [] => acc
  | r :: rules' =>
    last_rule (if Py.eqb ind (indicator r) then Some r else acc) rules' ind
  end.

(** *** The urgency multiplier *)

Definition response_types : list Py.str :=
  [py "inmediata"; py "activa"; py "preventiva"; py "coordinacion";
   py "monitoreo"].

(** The severity multiplier of a tag at a level. *)
Definition multiplicador (nivel_riesgo tipo : Py.str) : option Q :=
  Py.dict_get MULTIPLICADORES_URGENCIA nivel_riesgo
    ≫= fun t => Py.dict_get t tipo.

Definition positive_table (t : Py.dict Q) : bool :=
  forallb (fun '(_, m) => Qlt_bool 0 m) t.

Section UrgencySpec.

Context (db : Py.unicode_db).

(** The keyword occurs in the strategy name, letter case apart. *)
Definition keyword_in (ctx_key est_name : Py.str) : Prop :=
  exists pre post, Py.lower db est_name = pre ++ Py.lower db ctx_key ++ post.

(** The multiplier of the first keyword of the table that occurs in the
    name; 1 when none does. *)
Inductive first_keyword (est_name : Py.str) : Py.dict Q -> Q -> Prop :=
| first_keyword_none : first_keyword est_name [] 1%Q
| first_keyword_here ctx_key ctx_mult rest :
    keyword_in ctx_key est_name ->
    first_keyword est_name ((ctx_key, ctx_mult) :: rest) ctx_mult
| first_keyword_later ctx_key ctx_mult rest c :
    ~ keyword_in ctx_key est_name ->
    first_keyword est_name rest c ->
    first_keyword est_name ((ctx_key, ctx_mult) :: rest) c.

(** The context multiplier of a strategy in a scenario: the multiplier, in the
    scenario's table of [CONTEXTO_ESCENARIO], of the first keyword of that
    table that occurs in the name; 1 when [CONTEXTO_ESCENARIO] has no table
    for the scenario and when no scenario is given. *)
Definition context_multiplier (contexto_escenario : option Py.str)
    (est_name : Py.str) (c : Q) : Prop :=
  match contexto_escenario with
  | None => c = 1%Q
  | Some ctx =>
    (forall table, In (ctx, table) CONTEXTO_ESCENARIO ->
       first_keyword est_name table c)
    /\ ((forall table, ~ In (ctx, table) CONTEXTO_ESCENARIO) -> c = 1%Q)
  end.

(** What the loop of [aplicar_multiplicador_urgencia] writes for one
    strategy. *)
Definition ajuste (multiplicadores mult_contexto : Py.dict Q)
    (p : Q * Py.str) : Q :=
  (p.1 * default 1%Q (Py.dict_get multiplicadores (get_tipo_respuesta db p.2))
   * mult_ctx db mult_contexto p.2)%Q.

End UrgencySpec.

(** *** Ranking *)

(** NumPy's contract for [argsort] at one input: the result lists every
    index once and the entries are in ascending order along it. *)
Definition argsort_spec (argsort : list Q -> list nat) (scores : list Q)
    : Prop :=
  argsort scores ≡ₚ seq 0 (length scores)
  /\ forall k1 k2 i1 i2 s1 s2,
       (k1 < k2)%nat ->
       argsort scores !! k1 = Some i1 -> argsort scores !! k2 = Some i2 ->
       scores !! i1 = Some s1 -> scores !! i2 = Some s2 -> (s1 <= s2)%Q.

(** The tie rule of the specification: among equal scores the earlier
    strategy gets the better rank. *)
Definition ties_by_input_order (scores : list Q) (ranks : list nat) : Prop :=
  forall i j si sj ri rj,
    (i < j)%nat -> scores !! i = Some si -> scores !! j = Some sj ->
    (si == sj)%Q -> ranks !! i = Some ri -> ranks !! j = Some rj ->
    (ri < rj)%nat.

(** A stable [argsort]: the insertion sort that NumPy's portable quicksort
    runs on short arrays. [R] is the sorted prefix, last element first. *)
Definition item (v : list Q) (i : nat) : Q := default 0%Q (v !! i).

Fixpoint ainsert (v : list Q) (vi : nat) (R : list nat) : list nat :=
  match R with
  | [] => [vi]
  | pk :: R' =>
    if Qlt_bool (item v vi) (item v pk) then pk :: ainsert v vi R' else vi :: R
  end.

Definition insertion_argsort (v : list Q) : list nat :=
  reverse (foldl (fun R vi => ainsert v vi R) [] (seq 0 (length v))).

(** In the sorted prefix, last element first, [x] stands before [y] when its
    entry is larger, or equal with a larger index. *)
Definition after (v : list Q) (x y : nat) : Prop :=
  (item v y < item v x)%Q \/ ((item v y == item v x)%Q /\ (y < x)%nat).

(** *** Threshold texts *)

(** The longest run of characters of a class at the head of a text, and the
    rest. *)
Fixpoint span (p : Py.char -> bool) (s : Py.str) : Py.str * Py.str :=
  match s with
  | c :: s' =>
    if p c then let '(run, r) := span p s' in (c :: run, r) else ([], s)
  | [] => ([], [])
  end.

Definition digit_run (db : Py.unicode_db) : Py.str -> Py.str * Py.str :=
  span (Py.isdecimal db).

(** The number that starts a text: its digits and, when a dot follows them,
    the dot and the digits after it. *)
Definition number_at (db : Py.unicode_db) (s : Py.str) : Py.str :=
  let '(ip, r) := digit_run db s in
  match r with
  | c :: r' => if (c =? 46)%N then ip ++ c :: (digit_run db r').1 else ip
  | [] => ip
  end.

(** The first bare number of a text, if it has a digit at all. *)
Fixpoint first_number (db : Py.unicode_db) (s : Py.str) : option Py.str :=
  match s with
  | [] => None
  | c :: s' =>
    if Py.isdecimal db c then Some (number_at db s) else first_number db s'
  end.

Definition has_digit (db : Py.unicode_db) (c : Py.char) : Prop :=
  Py.isdecimal db c = true.

(** Every match of the pattern reads a character of the class [P]. *)
Inductive demands (P : Py.char -> Prop) : Re.pattern -> Prop :=
| demands_cls q : (forall c, q c = true -> P c) -> demands P (Re.Cls q)
| demands_plus q : (forall c, q c = true -> P c) -> demands P (Re.Plus q)
| demands_cat_l r1 r2 : demands P r1 -> demands P (r1 ⋅ r2)
| demands_cat_r r1 r2 : demands P r2 -> demands P (r1 ⋅ r2)
| demands_grp n r : demands P r -> demands P (Re.Grp n r).

(** What becomes of a character when the glyphs are replaced: U+2264 gives
    "<=", U+2265 gives ">=", any other character stays. *)
Definition sin_glifo (c : Py.char) : Py.str :=
  if (c =? 8804)%N then [60; 61]%N
  else if (c =? 8805)%N then [62; 61]%N
  else [c].

(** *** Data for the worked examples *)

(** A character database that covers Latin-1. *)
Definition latin1_lower (c : Py.char) : Py.char :=
  if ((65 <=? c) && (c <=? 90)
      || (192 <=? c) && (c <=? 222) && negb (c =? 215))%N
  then (c + 32)%N else c.

Definition latin1_db : Py.unicode_db :=
  {| Py.db_isspace := fun c => ((c =? 133) || (c =? 160))%N;
     Py.db_decimal := fun _ => None;
     Py.db_lower := map latin1_lower |}.

Definition est_adulticidas : Py.str :=
  py "Aplicar adulticidas químicos como malatión o deltametrina para el control rápido del vector adulto en espacios abiertos.".

Definition est_mayusculas : Py.str :=
  py "APLICAR ADULTICIDAS QUÍMICOS EN ZONAS DE OBRA".

Definition est_promover : Py.str :=
  py "Promover prácticas preventivas sostenibles mediante campañas educativas, cambio de comportamiento social y vigilancia participativa.".

(** Two strategies, the second without indicators; indicator IB is above its
    threshold, IA has no threshold, IC has no value. *)
Definition ejemplo_config : Py.dict (list rule) :=
  [ (py "E1", [ {| indicator := py "IB"; weight := 0.6 |};
                {| indicator := py "IA"; weight := 0.4 |} ]);
    (py "E2", []) ].

Definition ejemplo_indicators : list Py.str := [py "IA"; py "IB"; py "IC"].

Definition ejemplo_values : gmap Py.str Q :=
  <[py "IB" := 35%Q]> (<[py "IA" := 1%Q]> ∅).

Definition ejemplo_thresholds : option (gmap Py.str threshold_config) :=
  Some (<[py "IB" := {| tc_op := Some (py ">"); tc_threshold := Some 20%Q |}]> ∅).

(** A table in which IB is above its threshold and IA is not below its
    own. *)
Definition ejemplo_umbrales : option (gmap Py.str threshold_config) :=
  Some (<[py "IB" := {| tc_op := Some (py ">"); tc_threshold := Some 20%Q |}]>
          (<[py "IA" := {| tc_op := Some (py "<"); tc_threshold := Some 1%Q |}]>
             ∅)).

(** Three rule objects at addresses 0, 1 and 2. *)
Definition ejemplo_store : store :=
  fun l =>
    match l with
    | 0%nat => {| indicator := py "IB"; weight := 2 |}
    | 1%nat => {| indicator := py "IA"; weight := 6 |}
    | _ => {| indicator := py "IC"; weight := 0 |}
    end.

Definition ejemplo_refs : Py.dict (list loc) :=
  [ (py "E1", [0; 1]%nat); (py "E2", [2]%nat) ].

(** *** Matches, declaratively *)

(** [matches r s g s' g']: the pattern can read the text between [s] and its
    suffix [s'], turning the groups [g] into [g'], whatever the order in
    which the matcher tries the alternatives. *)
Inductive matches : Re.pattern -> Py.str -> Re.match_obj -> Py.str
    -> Re.match_obj -> Prop :=
| matches_cls p c s g : p c = true -> matches (Re.Cls p) (c :: s) g s g
| matches_star p run s g :
    Forall (fun c => p c = true) run -> matches (Re.Star p) (run ++ s) g s g
| matches_plus p c run s g :
    p c = true -> Forall (fun c => p c = true) run ->
    matches (Re.Plus p) (c :: run ++ s) g s g
| matches_opt_some r s g s' g' :
    matches r s g s' g' -> matches (Re.Opt r) s g s' g'
| matches_opt_none r s g : matches (Re.Opt r) s g s g
| matches_cat r1 r2 s g s1 g1 s2 g2 :
    matches r1 s g s1 g1 -> matches r2 s1 g1 s2 g2 ->
    matches (r1 ⋅ r2) s g s2 g2
| matches_grp n r s g s' g' :
    matches r s g s' g' ->
    matches (Re.Grp n r) s g s' (<[n := take (length s - length s') s]> g').

(** The texts the number pattern reads: digits, then optionally a dot and
    further digits. *)
Definition number_text (db : Py.unicode_db) (num : Py.str) : Prop :=
  exists c d1 dot d2,
    num = c :: d1 ++ dot ++ d2
    /\ Py.isdecimal db c = true
    /\ Forall (fun c => Py.isdecimal db c = true) d1
    /\ (dot = [] \/ dot = [46%N])
    /\ Forall (fun c => Py.isdecimal db c = true) d2.

(** *** Compliance *)

(** The indicator counts for a strategy: it has a value and, when it has a
    threshold entry, [check_condition] holds. *)
Definition activates (indicator_values : gmap Py.str Q)
    (indicator_thresholds : option (gmap Py.str threshold_config))
    (ind : Py.str) : bool :=
  match indicator_values !! ind with
  | None => false
  | Some val =>
    match threshold_of indicator_thresholds ind with
    | None => true
    | Some tc =>
      match check_condition (Some val) (threshold_op tc) (threshold_bound tc) with
      | Ok ok => ok
      | Raise _ => false
      end
    end
  end.


(** What a rule adds to the compliance of its strategy. *)
Definition contribution (indicator_values : gmap Py.str Q)
    (indicator_thresholds : option (gmap Py.str threshold_config))
    (r : rule) : Q :=
  if activates indicator_values indicator_thresholds (indicator r)
  then weight r else 0%Q.

(** The value of a cell, by the rule that owns the indicator. *)
Definition cell_value (indicator_values : gmap Py.str Q)
    (indicator_thresholds : option (gmap Py.str threshold_config))
    (rules : list rule) (ind : Py.str) : Q :=
  match last_rule None rules ind with
  | Some r => contribution indicator_values indicator_thresholds r
  | None => 0%Q
  end.

(** *** Loaded configurations *)

(** The rule a row of the sheet stands for. *)
Definition row_rule (row : sheet_row) : rule :=
  {| indicator := Indicador row; weight := default 0%Q (Peso row) |}.

(** An entry as the loader writes them: both keys, a supported operator, a
    value that is not negative. *)
Definition loaded_entry (tc : threshold_config) : Prop :=
  exists op v,
    tc = {| tc_op := Some op; tc_threshold := Some v |}
    /\ supported_op op /\ (0 <= v)%Q.

(** The threshold cell holds a text with a decimal digit, once stripped and
    with the glyphs replaced. *)
Definition has_number (db : Py.unicode_db) (umbral : option Py.str) : bool :=
  match umbral with
  | Some s => existsb (Py.isdecimal db) (normalise_text db s)
  | None => false
  end.

(** The rules of a strategy: its rows, in the order of the sheet. *)
Definition rules_of (df : list sheet_row) (estrategia : Py.str) : list rule :=
  map row_rule (filter (fun row => Estrategia row = estrategia) df).

(** What a run of the loader over some rows does to the threshold table. *)
Definition thresholds_after (db : Py.unicode_db) (rows : list sheet_row)
    (thr thr' : gmap Py.str threshold_config) : Prop :=
  (map_Forall (fun _ => loaded_entry) thr ->
   map_Forall (fun _ => loaded_entry) thr')
  /\ forall ind,
       is_Some (thr' !! ind)
       <-> is_Some (thr !! ind)
           \/ exists row, row ∈ rows /\ Indicador row = ind
                /\ has_number db (Umbral row) = true.

(** The rows of the strategies of a list. *)
Definition rows_of (df : list sheet_row) (ests : list Py.str) : list sheet_row :=
  concat (map (fun est => filter (fun row => Estrategia row = est) df) ests).

Definition ejemplo_sheet : list sheet_row :=
  [ {| Estrategia := py "E1"; Indicador := py "IB"; Peso := Some 3%Q;
       Umbral := Some (py "> 20%") |};
    {| Estrategia := py "E2"; Indicador := py "IA"; Peso := None;
       Umbral := None |};
    {| Estrategia := py "E1"; Indicador := py "IA"; Peso := Some 1%Q;
       Umbral := Some (py "sin dato") |} ].

(** *** The decision matrix *)

(** A row of the normalised decision matrix: two entries in [0,1]. *)
Definition unit_row (row : list Q) : Prop :=
  exists c f, row = [c; f] /\ (0 <= c <= 1)%Q /\ (0 <= f <= 1)%Q.

(** *** The ranking *)

(** The entry of the strategy at an index. *)
Definition entry_at (alternatives : list Py.str) (ranks : list nat)
    (scores compliance : list Q) (i : nat) : entry :=
  (default ([] : Py.str) (alternatives !! i), default 0%nat (ranks !! i),
   default 0%Q (scores !! i), default 0%Q (compliance !! i)).

Definition by_rank (x y : entry) : Prop := (entry_rank x <= entry_rank y)%nat.

(** *** Counting indicators *)

(** The number of entries of a list that pass a test. *)
Definition count_if (p : Py.str -> bool) (l : list Py.str) : nat :=
  length (filter (fun x => p x = true) l).

(** The indicator has a value and a threshold entry. *)
Definition evaluated (indicator_values : gmap Py.str Q)
    (indicator_thresholds : gmap Py.str threshold_config)
    (ind : Py.str) : bool :=
  bool_decide (is_Some (indicator_values !! ind))
  && bool_decide (is_Some (indicator_thresholds !! ind)).

(** ** Proofs *)

(** *** [check_condition] *)

Lemma Qlt_bool_iff x y : Qlt_bool x y = true <-> (x < y)%Q.
Proof.
  unfold Qlt_bool. rewrite Qlt_alt. destruct (x ?= y)%Q; split; congruence.
Qed.

Lemma eqb_eq a b : Py.eqb a b = true <-> a = b.
Proof. unfold Py.eqb. apply bool_decide_eq_true. Qed.

Lemma check_condition_cases value op threshold :
  (op = py "<" /\ check_condition (Some value) op threshold = Ok (Qlt_bool value threshold))
  \/ (op = py "<=" /\ check_condition (Some value) op threshold = Ok (Qle_bool value threshold))
  \/ (op = py ">" /\ check_condition (Some value) op threshold = Ok (Qlt_bool threshold value))
  \/ (op = py ">=" /\ check_condition (Some value) op threshold = Ok (Qle_bool threshold value))
  \/ (~ supported_op op /\ check_condition (Some value) op threshold = Raise Py.ValueError).
Proof.
  unfold check_condition, supported_op, Py.eqb.
  repeat case_bool_decide; subst; auto 6.
  do 4 right. split; [|done]. intros [|[|[|]]]; done.
Qed.

Lemma alarming_inv value threshold op :
  alarming value threshold op ->
  (op = py "<" /\ (value < threshold)%Q) \/ (op = py "<=" /\ (value <= threshold)%Q)
  \/ (op = py ">" /\ (threshold < value)%Q) \/ (op = py ">=" /\ (threshold <= value)%Q).
Proof. destruct 1; auto 6. Qed.

Lemma check_condition_alarming value op threshold ok :
  check_condition (Some value) op threshold = Ok ok ->
  ok = true <-> alarming value threshold op.
Proof.
  assert (Hle : forall x y, Qle_bool x y = true <-> (x <= y)%Q)
    by (intros; apply Qle_bool_iff).
  destruct (check_condition_cases value op threshold)
    as [[-> E]|[[-> E]|[[-> E]|[[-> E]|[_ E]]]]]; rewrite E; intros [= <-].
  - rewrite Qlt_bool_iff. split; [by constructor|].
    intros H. apply alarming_inv in H as [[_ H]|[[H _]|[[H _]|[H _]]]];
      [done|by vm_compute in H..].
  - rewrite Hle. split; [by constructor|].
    intros H. apply alarming_inv in H as [[H _]|[[_ H]|[[H _]|[H _]]]];
      [by vm_compute in H|done|by vm_compute in H..].
  - rewrite Qlt_bool_iff. split; [by constructor|].
    intros H. apply alarming_inv in H as [[H _]|[[H _]|[[_ H]|[H _]]]];
      [by vm_compute in H..|done|by vm_compute in H].
  - rewrite Hle. split; [by constructor|].
    intros H. apply alarming_inv in H as [[H _]|[[H _]|[[H _]|[_ H]]]];
      [by vm_compute in H..|done].
Qed.

(** C5. With a value, [check_condition] returns [True] exactly in the
    alarming region of the operator ([<] strictly below, [<=] at or below,
    [>] strictly above, [>=] at or above) and [False] exactly outside it for
    a supported operator; it raises [ValueError] exactly when the operator is
    none of the four; at the boundary [>=] holds and [>] does not; without a
    value it returns [False] for every operator. *)
Theorem C5_check_condition value op threshold :
  (check_condition (Some value) op threshold = Ok true
     <-> alarming value threshold op)
  /\ (check_condition (Some value) op threshold = Ok false
     <-> supported_op op /\ ~ alarming value threshold op)
  /\ (check_condition (Some value) op threshold = Raise Py.ValueError
     <-> ~ supported_op op)
  /\ (forall e, check_condition (Some value) op threshold = Raise e
     -> e = Py.ValueError)
  /\ check_condition (Some threshold) (py ">=") threshold = Ok true
  /\ check_condition (Some threshold) (py ">") threshold = Ok false
  /\ check_condition None op threshold = Ok false.
Proof.
  assert (Hlt : forall x y, Qlt_bool x y = false <-> ~ (x < y)%Q).
  { intros x y. rewrite <- Qlt_bool_iff. destruct (Qlt_bool x y); split; congruence. }
  assert (Hle : forall x y, Qle_bool x y = false <-> ~ (x <= y)%Q).
  { intros x y. rewrite <- Qle_bool_iff. destruct (Qle_bool x y); split; congruence. }
  assert (Hsup : forall o, (o = py "<" \/ o = py "<=" \/ o = py ">" \/ o = py ">=") -> supported_op o) by (intros; assumption).
  repeat split.
  - intros H. destruct (check_condition_cases value op threshold)
      as [[-> E]|[[-> E]|[[-> E]|[[-> E]|[_ E]]]]]; rewrite E in H; try discriminate;
      injection H as H; constructor;
      first [by apply Qlt_bool_iff | by apply Qle_bool_iff].
  - intros H. apply alarming_inv in H as [[-> H]|[[-> H]|[[-> H]|[-> H]]]];
      cbn; f_equal; first [by apply Qlt_bool_iff | by apply Qle_bool_iff].
  - destruct (check_condition_cases value op threshold)
      as [[-> E]|[[-> E]|[[-> E]|[[-> E]|[_ E]]]]]; rewrite E in H; try discriminate;
      apply Hsup; auto.
  - intros Ha. destruct (check_condition_cases value op threshold)
      as [[-> E]|[[-> E]|[[-> E]|[[-> E]|[_ E]]]]]; rewrite E in H; try discriminate;
      injection H as H; apply alarming_inv in Ha as [[? Ha]|[[? Ha]|[[? Ha]|[? Ha]]]];
      try discriminate;
      first [by apply Hlt in H | by apply Hle in H].
  - intros [Hs Hn]. destruct (check_condition_cases value op threshold)
      as [[-> E]|[[-> E]|[[-> E]|[[-> E]|[Hns E]]]]]; [..|done]; rewrite E; f_equal;
      first [apply Hlt | apply Hle]; intros Hc; apply Hn; by constructor.
  - intros H. destruct (check_condition_cases value op threshold)
      as [[-> E]|[[-> E]|[[-> E]|[[-> E]|[Hns E]]]]]; rewrite E in H; try discriminate; done.
  - intros Hns. destruct (check_condition_cases value op threshold)
      as [[-> E]|[[-> E]|[[-> E]|[[-> E]|[_ E]]]]]; try done;
      exfalso; apply Hns, Hsup; auto.
  - intros e H. destruct (check_condition_cases value op threshold)
      as [[-> E]|[[-> E]|[[-> E]|[[-> E]|[_ E]]]]]; rewrite E in H; congruence.
  - cbn. f_equal. apply Qle_bool_iff. apply Qle_refl.
  - cbn. f_equal. apply Hlt. apply Qlt_irrefl.
Qed.

(** *** [normalize_criterion] *)

Lemma Qmin_cases x y : (Qmin x y = x /\ (x <= y)%Q) \/ (Qmin x y = y /\ (y <= x)%Q).
Proof.
  unfold Qmin, GenericMinMax.gmin. destruct (x ?= y)%Q eqn:E.
  - left. split; [done|]. apply Qeq_alt in E. rewrite E. apply Qle_refl.
  - left. split; [done|]. apply Qlt_alt in E. by apply Qlt_le_weak.
  - right. split; [done|]. apply Qgt_alt in E. by apply Qlt_le_weak.
Qed.

Lemma Qmax_cases x y : (Qmax x y = x /\ (y <= x)%Q) \/ (Qmax x y = y /\ (x <= y)%Q).
Proof.
  unfold Qmax, GenericMinMax.gmax. destruct (x ?= y)%Q eqn:E.
  - left. split; [done|]. apply Qeq_alt in E. rewrite E. apply Qle_refl.
  - right. split; [done|]. apply Qlt_alt in E. by apply Qlt_le_weak.
  - left. split; [done|]. apply Qgt_alt in E. by apply Qlt_le_weak.
Qed.

Lemma foldl_Qmin_spec l a :
  foldl Qmin a l ∈ a :: l /\ forall x, x ∈ a :: l -> (foldl Qmin a l <= x)%Q.
Proof.
  revert a. induction l as [|b l IH]; intros a; cbn.
  - split; [left|]. intros x ->%list_elem_of_singleton. apply Qle_refl.
  - destruct (IH (Qmin a b)) as [Hin Hle]. split.
    + apply elem_of_cons in Hin as [Hin|Hin]; [|by do 2 right].
      rewrite Hin. destruct (Qmin_cases a b) as [[-> _]|[-> _]]; [left|right; left].
    + intros x Hx.
      assert (foldl Qmin (Qmin a b) l <= Qmin a b)%Q as H0 by (apply Hle; left).
      apply elem_of_cons in Hx as [->|Hx].
      * eapply Qle_trans; [apply H0|apply Q.le_min_l].
      * apply elem_of_cons in Hx as [->|Hx]; [|by apply Hle; right].
        eapply Qle_trans; [apply H0|apply Q.le_min_r].
Qed.

Lemma foldl_Qmax_spec l a :
  foldl Qmax a l ∈ a :: l /\ forall x, x ∈ a :: l -> (x <= foldl Qmax a l)%Q.
Proof.
  revert a. induction l as [|b l IH]; intros a; cbn.
  - split; [left|]. intros x ->%list_elem_of_singleton. apply Qle_refl.
  - destruct (IH (Qmax a b)) as [Hin Hle]. split.
    + apply elem_of_cons in Hin as [Hin|Hin]; [|by do 2 right].
      rewrite Hin. destruct (Qmax_cases a b) as [[-> _]|[-> _]]; [left|right; left].
    + intros x Hx.
      assert (Qmax a b <= foldl Qmax (Qmax a b) l)%Q as H0 by (apply Hle; left).
      apply elem_of_cons in Hx as [->|Hx].
      * eapply Qle_trans; [apply Q.le_max_l|apply H0].
      * apply elem_of_cons in Hx as [->|Hx]; [|by apply Hle; right].
        eapply Qle_trans; [apply Q.le_max_r|apply H0].
Qed.

Lemma np_min_is_min values : values <> [] -> is_min (np_min values) values.
Proof. destruct values as [|v vs]; [done|]. intros _. apply foldl_Qmin_spec. Qed.

Lemma np_max_is_max values : values <> [] -> is_max (np_max values) values.
Proof. destruct values as [|v vs]; [done|]. intros _. apply foldl_Qmax_spec. Qed.

Lemma is_min_unique lo lo' values : is_min lo values -> is_min lo' values -> (lo == lo')%Q.
Proof. intros [H1 H2] [H3 H4]. apply Qle_antisym; auto. Qed.

Lemma is_max_unique hi hi' values : is_max hi values -> is_max hi' values -> (hi == hi')%Q.
Proof. intros [H1 H2] [H3 H4]. apply Qle_antisym; auto. Qed.

Lemma all_equal_min_max lo hi values :
  is_min lo values -> is_max hi values -> all_equal values <-> (hi == lo)%Q.
Proof.
  intros [H1 H2] [H3 H4]. split.
  - intros H. by apply H.
  - intros E x y Hx Hy. apply Qle_antisym.
    + pose proof (H4 x Hx). pose proof (H2 y Hy). lra.
    + pose proof (H4 y Hy). pose proof (H2 x Hx). lra.
Qed.

(** C6. On a non-empty vector [normalize_criterion] with [maximize=True]
    returns a vector of the same length with entries in [0,1]: all ones when
    the entries are all equal (the all-zero vector included), else the
    min-max scaling [(x - min) / (max - min)]. *)
Theorem C6_normalize_criterion (values : list Q) :
  values <> [] ->
  let r := normalize_criterion values true in
  length r = length values
  /\ Forall (fun x => 0 <= x /\ x <= 1)%Q r
  /\ (all_equal values -> r = replicate (length values) 1%Q)
  /\ (~ all_equal values ->
      exists lo hi, is_min lo values /\ is_max hi values /\ (lo < hi)%Q
        /\ r = map (fun x => (x - lo) / (hi - lo))%Q values).
Proof.
  intros Hne r.
  pose proof (np_min_is_min values Hne) as Hmin.
  pose proof (np_max_is_max values Hne) as Hmax.
  pose proof (all_equal_min_max _ _ _ Hmin Hmax) as Heq.
  assert (Hones : forall l : list Q, map (fun _ => 1%Q) l = replicate (length l) 1%Q).
  { induction l; cbn; congruence. }
  subst r. unfold normalize_criterion.
  destruct values as [|v vs] eqn:Ev; [done|]. rewrite <- Ev in *. clear Ev v vs.
  destruct (Qeq_bool (np_max values) (np_min values)) eqn:E.
  - apply Qeq_bool_iff in E. rewrite Hones. split; [|split; [|split]].
    + by rewrite length_replicate.
    + apply Forall_replicate. split; lra.
    + done.
    + intros Hn. exfalso. apply Hn, (proj2 Heq E).
  - apply Qeq_bool_neq in E.
    assert (np_min values < np_max values)%Q as Hlt.
    { destruct Hmin as [Hi Hm]. pose proof (Hm _ (proj1 Hmax)) as H.
      apply Qle_lteq in H as [H|H]; [done|]. exfalso. apply E. by symmetry. }
    split; [|split; [|split]].
    + by rewrite length_map.
    + apply Forall_map, Forall_forall. intros x Hx. cbn.
      pose proof (proj2 Hmin x Hx). pose proof (proj2 Hmax x Hx).
      split.
      * apply Qle_shift_div_l; lra.
      * apply Qle_shift_div_r; lra.
    + intros Ha. exfalso. apply E, (proj1 Heq Ha).
    + intros _. by exists (np_min values), (np_max values).
Qed.

Lemma C6_witness :
  let r := normalize_criterion [0; 0; 0]%Q true in
  length r = 3%nat
  /\ Forall (fun x => 0 <= x /\ x <= 1)%Q r
  /\ (all_equal [0; 0; 0]%Q -> r = replicate 3 1%Q)
  /\ (~ all_equal [0; 0; 0]%Q ->
      exists lo hi, is_min lo [0; 0; 0]%Q /\ is_max hi [0; 0; 0]%Q /\ (lo < hi)%Q
        /\ r = map (fun x => (x - lo) / (hi - lo))%Q [0; 0; 0]%Q).
Proof. apply (C6_normalize_criterion [0; 0; 0]%Q). discriminate. Defined.

(** *** [normalize_strategy_weights] *)

Lemma foldl_Qplus a l : (foldl Qplus a l == a + py_sum l)%Q.
Proof.
  unfold py_sum. revert a. induction l as [|x l IH]; intros a; cbn.
  - lra.
  - rewrite (IH (a + x)%Q), (IH (0 + x)%Q). lra.
Qed.

Lemma py_sum_cons x l : (py_sum (x :: l) == x + py_sum l)%Q.
Proof. unfold py_sum at 1. cbn. rewrite foldl_Qplus. lra. Qed.

Lemma py_sum_div total l :
  (py_sum (map (fun w => w / total) l) == py_sum l / total)%Q.
Proof.
  induction l as [|x l IH]; cbn [map].
  - unfold py_sum, Qdiv. cbn. lra.
  - rewrite !py_sum_cons, IH. unfold Qdiv. lra.
Qed.

Lemma py_sum_nonneg l : Forall (fun w => 0 <= w)%Q l -> (0 <= py_sum l)%Q.
Proof.
  induction 1 as [|x l Hx Hl IH].
  - unfold py_sum. cbn. lra.
  - rewrite py_sum_cons. lra.
Qed.

Lemma py_sum_positive l :
  Forall (fun w => 0 <= w)%Q l -> Exists (fun w => ~ (w == 0)%Q) l ->
  (0 < py_sum l)%Q.
Proof.
  induction 1 as [|x l Hx Hl IH]; intros He.
  - by apply Exists_nil in He.
  - rewrite py_sum_cons. pose proof (py_sum_nonneg l Hl).
    apply Exists_cons in He as [He|He].
    + assert (0 < x)%Q by (apply Qle_lteq in Hx as [|E]; [done|]; exfalso; apply He; by symmetry).
      lra.
    + specialize (IH He). lra.
Qed.

Lemma store_set_eq h l r : store_set h l r l = r.
Proof. unfold store_set. by rewrite bool_decide_eq_true_2. Qed.

Lemma store_set_ne h l r l' : l' <> l -> store_set h l r l' = h l'.
Proof. intros. unfold store_set. by rewrite bool_decide_eq_false_2. Qed.

Lemma divide_weights_other total rules h r :
  r ∉ rules -> divide_weights total rules h r = h r.
Proof.
  unfold divide_weights. revert h. induction rules as [|x rules IH]; intros h Hr; cbn.
  - done.
  - apply not_elem_of_cons in Hr as [Hx Hr]. rewrite IH by done.
    by apply store_set_ne.
Qed.

Lemma divide_weights_in total rules h r :
  NoDup rules -> r ∈ rules ->
  divide_weights total rules h r
  = {| indicator := indicator (h r); weight := (weight (h r) / total)%Q |}.
Proof.
  revert h. induction rules as [|x rules IH]; intros h Hnd Hr.
  - by apply elem_of_nil in Hr.
  - apply NoDup_cons in Hnd as [Hx Hnd]. change (divide_weights total (x :: rules) h)
      with (divide_weights total rules
              (store_set h x {| indicator := indicator (h x);
                                weight := (weight (h x) / total)%Q |})).
    apply elem_of_cons in Hr as [->|Hr].
    + rewrite divide_weights_other by done. apply store_set_eq.
    + rewrite IH by done. rewrite store_set_ne; [done|]. by intros ->.
Qed.

Lemma total_weight_ext h1 h2 rules :
  (forall r, r ∈ rules -> h1 r = h2 r) ->
  total_weight h1 rules = total_weight h2 rules.
Proof.
  intros H. unfold total_weight. f_equal. apply map_ext_in.
  intros r Hr. by rewrite H by (by apply list_elem_of_In).
Qed.

Lemma total_weight_divide total rules h :
  NoDup rules ->
  (total_weight (divide_weights total rules h) rules
   == total_weight h rules / total)%Q.
Proof.
  intros Hnd. unfold total_weight at 2. rewrite <- py_sum_div.
  unfold total_weight. rewrite map_map.
  erewrite map_ext_in; [reflexivity|].
  intros r Hr. cbn. rewrite divide_weights_in; [done..|]. by apply list_elem_of_In.
Qed.

Lemma elem_of_rules (cfg : Py.dict (list loc)) est rules r :
  (est, rules) ∈ cfg -> r ∈ rules -> r ∈ concat (map snd cfg).
Proof.
  intros Hin Hr. apply list_elem_of_In, in_concat. exists rules.
  split; [|by apply list_elem_of_In].
  apply in_map_iff. exists (est, rules). split; [done|]. by apply list_elem_of_In.
Qed.

Lemma normalize_strategy_weights_cons est rules cfg h :
  normalize_strategy_weights ((est, rules) :: cfg) h
  = normalize_strategy_weights cfg (normalize_one h rules).
Proof. reflexivity. Qed.

Lemma normalize_one_other h rules r : r ∉ rules -> normalize_one h rules r = h r.
Proof.
  intros Hr. unfold normalize_one. destruct (Qeq_bool _ _); [done|].
  by apply divide_weights_other.
Qed.

Lemma divide_weights_indicator total rules h r :
  indicator (divide_weights total rules h r) = indicator (h r).
Proof.
  unfold divide_weights. revert h. induction rules as [|x rules IH]; intros h; [done|].
  cbn. rewrite IH. unfold store_set. by case_bool_decide; subst.
Qed.

Lemma normalize_one_indicator h rules r :
  indicator (normalize_one h rules r) = indicator (h r).
Proof.
  unfold normalize_one. destruct (Qeq_bool _ _); [done|].
  apply divide_weights_indicator.
Qed.

Lemma normalize_strategy_weights_other cfg h r :
  r ∉ concat (map snd cfg) -> normalize_strategy_weights cfg h r = h r.
Proof.
  revert h. induction cfg as [|[est rules] cfg IH]; intros h Hr; [done|].
  rewrite normalize_strategy_weights_cons. cbn in Hr.
  apply not_elem_of_app in Hr as [Hr1 Hr2].
  rewrite IH by done. by apply normalize_one_other.
Qed.

Lemma normalize_strategy_weights_indicator cfg h r :
  indicator (normalize_strategy_weights cfg h r) = indicator (h r).
Proof.
  revert h. induction cfg as [|[est rules] cfg IH]; intros h; [done|].
  rewrite normalize_strategy_weights_cons, IH. apply normalize_one_indicator.
Qed.

Lemma normalized_total_one strategies_config : forall h est rules,
  NoDup (concat (map snd strategies_config)) ->
  (est, rules) ∈ strategies_config ->
  ~ (total_weight h rules == 0)%Q ->
  (total_weight (normalize_strategy_weights strategies_config h) rules == 1)%Q.
Proof.
  induction strategies_config as [|[est0 rules0] cfg IH]; intros h est rules Hnd Hin;
    [by apply elem_of_nil in Hin|].
  cbn in Hnd. apply NoDup_app in Hnd as (Hnd0 & Hdisj & Hnd').
  rewrite normalize_strategy_weights_cons.
  apply elem_of_cons in Hin as [[= <- <-]|Hin].
  - intros Hnz.
    rewrite (total_weight_ext _ (normalize_one h rules) rules).
    2:{ intros r Hr. apply normalize_strategy_weights_other. by apply Hdisj. }
    unfold normalize_one.
    destruct (Qeq_bool _ _) eqn:E; [by apply Qeq_bool_iff in E|].
    rewrite total_weight_divide by done. by field.
  - intros Hnz.
    assert (forall r, r ∈ rules -> normalize_one h rules0 r = h r) as Hsame.
    { intros r Hr. apply normalize_one_other. intros Hr0.
      apply (Hdisj r Hr0). by eapply elem_of_rules. }
    apply (IH _ est rules); [done..|]. by rewrite (total_weight_ext _ h rules).
Qed.

Lemma zero_total_untouched strategies_config : forall h est rules,
  NoDup (concat (map snd strategies_config)) ->
  (est, rules) ∈ strategies_config ->
  (total_weight h rules == 0)%Q ->
  forall r, r ∈ rules -> normalize_strategy_weights strategies_config h r = h r.
Proof.
  induction strategies_config as [|[est0 rules0] cfg IH]; intros h est rules Hnd Hin;
    [by apply elem_of_nil in Hin|].
  cbn in Hnd. apply NoDup_app in Hnd as (Hnd0 & Hdisj & Hnd').
  rewrite normalize_strategy_weights_cons.
  apply elem_of_cons in Hin as [[= <- <-]|Hin].
  - intros Hz r Hr.
    rewrite normalize_strategy_weights_other by (by apply Hdisj).
    unfold normalize_one. apply Qeq_bool_iff in Hz. by rewrite Hz.
  - intros Hz r Hr.
    assert (forall r, r ∈ rules -> normalize_one h rules0 r = h r) as Hsame.
    { intros r' Hr'. apply normalize_one_other. intros Hr0.
      apply (Hdisj r' Hr0). by eapply elem_of_rules. }
    rewrite <- (Hsame r Hr). apply (IH _ est rules); [done..| |done].
    by rewrite (total_weight_ext _ h rules).
Qed.

(** C7. When every rule is an object of its own, as the loader builds them,
    after [normalize_strategy_weights] the weights of every strategy whose
    total was not 0 sum to 1 (in particular when the weights are not negative
    and one of them is not 0), the rules of a strategy whose total was 0 are
    unchanged, and no indicator name changes. *)
Theorem C7_weights_sum_to_one (strategies_config : Py.dict (list loc)) (h : store) :
  NoDup (concat (map snd strategies_config)) ->
  let h' := normalize_strategy_weights strategies_config h in
  forall est rules, (est, rules) ∈ strategies_config ->
    (~ (total_weight h rules == 0)%Q -> (total_weight h' rules == 1)%Q)
    /\ ((total_weight h rules == 0)%Q -> forall r, r ∈ rules -> h' r = h r)
    /\ (Forall (fun r => 0 <= weight (h r))%Q rules ->
        Exists (fun r => ~ (weight (h r) == 0)%Q) rules ->
        ~ (total_weight h rules == 0)%Q)
    /\ (forall r, indicator (h' r) = indicator (h r)).
Proof.
  intros Hnd h' est rules Hin. subst h'.
  split; [|split; [|split]].
  - by apply (normalized_total_one _ _ est).
  - by apply (zero_total_untouched _ _ est).
  - intros Hpos Hex.
    assert (0 < total_weight h rules)%Q; [|lra].
    apply py_sum_positive.
    + by apply Forall_map.
    + by apply Exists_fmap.
  - intros r. apply normalize_strategy_weights_indicator.
Qed.

Lemma C7_witness :
  let h' := normalize_strategy_weights ejemplo_refs ejemplo_store in
  (total_weight h' [0; 1]%nat == 1)%Q /\ h' 2%nat = ejemplo_store 2%nat.
Proof.
  assert (NoDup (concat (map snd ejemplo_refs))) as Hnd
    by (apply (bool_decide_unpack _); vm_compute; exact I).
  pose proof (C7_weights_sum_to_one ejemplo_refs ejemplo_store Hnd) as H.
  split.
  - destruct (H (py "E1") [0; 1]%nat) as (H1 & _); [unfold ejemplo_refs; left|].
    apply H1. intros E. vm_compute in E. discriminate.
  - destruct (H (py "E2") [2]%nat) as (_ & H2 & _);
      [unfold ejemplo_refs; right; left|].
    apply H2; [vm_compute; reflexivity|left].
Defined.

(** Why the rule objects must be distinct: a rule object listed twice is
    divided twice. *)
Example shared_rule_divided_twice :
  (total_weight
     (normalize_strategy_weights [(py "E", [0; 0]%nat)] ejemplo_store)
     [0; 0]%nat == 1 # 4)%Q.
Proof. vm_compute. reflexivity. Qed.

(** The configurations the loader builds meet the condition: their
    references are the addresses from [next] on, each once. *)
Lemma alloc_config_refs rows_by_strategy : forall next h,
  concat (map snd (alloc_config next rows_by_strategy h).1)
  = seq next (length (concat (map snd rows_by_strategy))).
Proof.
  induction rows_by_strategy as [|[est rows] rest IH]; intros next h; cbn; [done|].
  specialize (IH (next + length rows)%nat (alloc_rules next rows h).2).
  destruct (alloc_config _ rest _) as [cfg h2]. cbn in *.
  by rewrite IH, length_app, seq_app.
Qed.

Lemma alloc_config_NoDup next rows_by_strategy h :
  NoDup (concat (map snd (alloc_config next rows_by_strategy h).1)).
Proof. rewrite alloc_config_refs. apply NoDup_seq. Qed.

Lemma alloc_config_below rows_by_strategy : forall next h l,
  (l < next)%nat -> (alloc_config next rows_by_strategy h).2 l = h l.
Proof.
  induction rows_by_strategy as [|[est rows] rest IH]; intros next h l Hl; cbn;
    [done|].
  specialize (IH (next + length rows)%nat (alloc_rules next rows h).2 l).
  destruct (alloc_config _ rest _) as [cfg h2]. cbn in *.
  rewrite IH by lia. by rewrite bool_decide_eq_false_2 by lia.
Qed.

(** Read by value, the loaded configuration is the table of rows. *)
Lemma alloc_config_values rows_by_strategy : forall next h,
  let loaded := alloc_config next rows_by_strategy h in
  map (fun '(est, refs) => (est, map loaded.2 refs)) loaded.1 = rows_by_strategy.
Proof.
  induction rows_by_strategy as [|[est rows] rest IH]; intros next h; cbn; [done|].
  specialize (IH (next + length rows)%nat (alloc_rules next rows h).2).
  pose proof (alloc_config_below rest (next + length rows)%nat
                (alloc_rules next rows h).2) as Hb.
  destruct (alloc_config _ rest _) as [cfg h2]. cbn in *.
  rewrite IH. do 2 f_equal.
  apply list_eq. intros k. change (map h2 ?l) with (h2 <$> l).
  rewrite list_lookup_fmap.
  destruct (decide (k < length rows)%nat) as [Hk|Hk].
  - rewrite lookup_seq_lt by done. cbn. rewrite Hb by lia.
    rewrite bool_decide_eq_true_2 by lia.
    replace (next + k - next)%nat with k by lia.
    destruct (lookup_lt_is_Some_2 rows k Hk) as [r Hr]. by rewrite Hr.
  - rewrite lookup_seq_ge by lia. symmetry. apply lookup_ge_None. lia.
Qed.

Corollary loaded_weights_sum_to_one rows_by_strategy h0 est rules :
  let loaded := alloc_config 0 rows_by_strategy h0 in
  (est, rules) ∈ loaded.1 ->
  ~ (total_weight loaded.2 rules == 0)%Q ->
  (total_weight (normalize_strategy_weights loaded.1 loaded.2) rules == 1)%Q.
Proof.
  intros loaded Hin Hnz.
  apply (normalized_total_one _ _ est); [apply alloc_config_NoDup|done..].
Qed.

(** *** Substrings and context keywords *)

Lemma startswith_spec s p : Py.startswith s p = true <-> exists post, s = p ++ post.
Proof.
  revert s. induction p as [|c p IH]; intros s; cbn.
  - split; [eauto|]. by destruct s.
  - destruct s as [|d s]; cbn.
    + split; [done|]. by intros [? ?].
    + rewrite andb_true_iff, N.eqb_eq, IH. split.
      * intros [-> [post ->]]. eauto.
      * intros [post [= -> ->]]. eauto.
Qed.

Lemma contains_nil sub : Py.contains [] sub = Py.startswith [] sub || false.
Proof. reflexivity. Qed.

Lemma contains_cons d s sub :
  Py.contains (d :: s) sub = Py.startswith (d :: s) sub || Py.contains s sub.
Proof. reflexivity. Qed.

Lemma contains_spec s sub :
  Py.contains s sub = true <-> exists pre post, s = pre ++ sub ++ post.
Proof.
  induction s as [|d s IH].
  - rewrite contains_nil, orb_false_r, startswith_spec. split.
    + intros [post ->]. by exists [], post.
    + intros (pre & post & H). destruct pre; [by exists post|done].
  - rewrite contains_cons, orb_true_iff, startswith_spec, IH. split.
    + intros [[post ->]|(pre & post & ->)]; [by exists [], post|by exists (d :: pre), post].
    + intros (pre & post & H). destruct pre as [|e pre]; cbn in H.
      * left. eauto.
      * injection H as -> ->. right. eauto.
Qed.

Section ContextFacts.
Context (db : Py.unicode_db).

Lemma mult_ctx_first_keyword est_name d :
  first_keyword db est_name d (mult_ctx db d est_name).
Proof.
  unfold mult_ctx. induction d as [|[k m] d IH]; cbn.
  - constructor.
  - destruct (Py.contains (Py.lower db est_name) (Py.lower db k)) eqn:E.
    + constructor. by apply contains_spec.
    + constructor; [|done]. unfold keyword_in. rewrite <- contains_spec. congruence.
Qed.

Lemma first_keyword_fun est_name d c c' :
  first_keyword db est_name d c -> first_keyword db est_name d c' -> c = c'.
Proof.
  induction 1; inversion 1; subst; auto; done.
Qed.

Lemma mult_ctx_positive d est_name :
  positive_table d = true -> (0 < mult_ctx db d est_name)%Q.
Proof.
  unfold mult_ctx, positive_table. induction d as [|[k m] d IH]; cbn; [done|].
  rewrite andb_true_iff. intros [Hm Hd].
  destruct (Py.contains _ _); [by apply Qlt_bool_iff|auto].
Qed.
End ContextFacts.

(** *** The tables *)

Lemma dict_get_In {V} (d : Py.dict V) k v :
  Py.dict_get d k = Some v -> In (k, v) d.
Proof.
  induction d as [|[k' v'] d IH]; cbn; [done|].
  unfold Py.eqb. case_bool_decide; [|auto]. intros [= ->]. subst. by left.
Qed.

Lemma dict_get_None {V} (d : Py.dict V) k :
  ~ In k (map fst d) -> Py.dict_get d k = None.
Proof.
  induction d as [|[k' v'] d IH]; cbn; [done|].
  intros H. unfold Py.eqb. case_bool_decide; [subst; tauto|]. apply IH. tauto.
Qed.

Lemma MULTIPLICADORES_URGENCIA_keys :
  map fst MULTIPLICADORES_URGENCIA
  = [py "bajo_riesgo"; py "riesgo_moderado"; py "alto_riesgo"; py "emergencia"].
Proof. vm_compute. reflexivity. Qed.

Lemma MULTIPLICADORES_URGENCIA_complete :
  forallb (fun '(_, mults) =>
             forallb (fun t => match Py.dict_get mults t with
                               | Some m => Qlt_bool 0 m
                               | None => false
                               end) response_types)
          MULTIPLICADORES_URGENCIA = true.
Proof. vm_compute. reflexivity. Qed.

Lemma CONTEXTO_ESCENARIO_positive :
  forallb (fun '(_, t) => positive_table t) CONTEXTO_ESCENARIO = true.
Proof. vm_compute. reflexivity. Qed.

Lemma ESTRATEGIA_TIPO_RESPUESTA_tags :
  forallb (fun '(_, tipo) => bool_decide (tipo ∈ response_types))
          ESTRATEGIA_TIPO_RESPUESTA = true.
Proof. vm_compute. reflexivity. Qed.

Lemma multiplicador_nivel nivel mults tipo :
  Py.dict_get MULTIPLICADORES_URGENCIA nivel = Some mults ->
  tipo ∈ response_types ->
  exists m, Py.dict_get mults tipo = Some m /\ (0 < m)%Q.
Proof.
  intros Hn%dict_get_In Ht.
  pose proof MULTIPLICADORES_URGENCIA_complete as H.
  rewrite forallb_forall in H. specialize (H _ Hn). cbn beta iota in H.
  rewrite forallb_forall in H. apply list_elem_of_In in Ht. specialize (H _ Ht).
  destruct (Py.dict_get mults tipo) as [m|]; [|done].
  exists m. split; [done|]. by apply Qlt_bool_iff.
Qed.

Section TagFacts.
Context (db : Py.unicode_db).

Lemma get_tipo_respuesta_tag estrategia :
  get_tipo_respuesta db estrategia ∈ response_types.
Proof.
  pose proof ESTRATEGIA_TIPO_RESPUESTA_tags as H. rewrite forallb_forall in H.
  unfold get_tipo_respuesta.
  destruct (Py.dict_get _ _) as [tipo|] eqn:E.
  - apply dict_get_In in E. specialize (H _ E). by apply bool_decide_eq_true in H.
  - destruct (find _ _) as [[k tipo]|] eqn:F.
    + apply find_some in F as [F _]. specialize (H _ F). by apply bool_decide_eq_true in H.
    + apply list_elem_of_In. vm_compute. tauto.
Qed.

Lemma mult_contexto_positive contexto_escenario :
  positive_table (mult_contexto contexto_escenario) = true.
Proof.
  unfold mult_contexto. destruct contexto_escenario as [[|c cs]|]; try done.
  destruct (Py.dict_get _ _) as [t|] eqn:E; [|done]. cbn.
  apply dict_get_In in E. pose proof CONTEXTO_ESCENARIO_positive as H.
  rewrite forallb_forall in H. by specialize (H _ E).
Qed.

Lemma CONTEXTO_ESCENARIO_keys :
  forall ctx table,
    In (ctx, table) CONTEXTO_ESCENARIO ->
    ctx <> [] /\ Py.dict_get CONTEXTO_ESCENARIO ctx = Some table.
Proof.
  intros ctx table H.
  repeat (destruct H as [[= <- <-]|H]; [split; [done|vm_compute; reflexivity]|]).
  destruct H.
Qed.

Lemma mult_ctx_context_multiplier contexto_escenario est_name :
  context_multiplier db contexto_escenario est_name
    (mult_ctx db (mult_contexto contexto_escenario) est_name).
Proof.
  destruct contexto_escenario as [ctx|]; [|reflexivity].
  unfold context_multiplier. split.
  - intros table [Hne Hget]%CONTEXTO_ESCENARIO_keys.
    unfold mult_contexto. destruct ctx as [|c cs]; [done|].
    rewrite Hget. apply mult_ctx_first_keyword.
  - intros Hno. unfold mult_contexto. destruct ctx as [|c cs]; [reflexivity|].
    destruct (Py.dict_get _ _) as [t|] eqn:E; [|reflexivity].
    apply dict_get_In in E. by apply Hno in E.
Qed.

Lemma foldl_setitem {A B} (g : list B -> nat * A -> list B) (f : A -> B) l init :
  (forall acc i x, g acc (i, x) = <[i := f x]> acc) ->
  (length l <= length init)%nat ->
  foldl g init (imap (fun i x => (i, x)) l) = map f l ++ drop (length l) init.
Proof.
  intros Hg. induction l as [|x l IH] using rev_ind; intros Hl.
  - cbn. by rewrite drop_0.
  - rewrite length_app in Hl. cbn in Hl.
    rewrite imap_app, foldl_app, IH by lia. cbn. rewrite Hg.
    rewrite Nat.add_0_r, map_app, length_app. cbn.
    destruct (drop (length l) init) as [|y t] eqn:E.
    { apply (f_equal length) in E. rewrite length_drop in E. cbn in E. lia. }
    rewrite insert_app_r_alt by (rewrite length_map; lia).
    rewrite length_map, Nat.sub_diag. cbn.
    rewrite <- app_assoc. cbn. f_equal. f_equal.
    by rewrite <- drop_drop, E.
Qed.
End TagFacts.

(** *** [aplicar_multiplicador_urgencia] *)

Section LoopFacts.
Context (db : Py.unicode_db).

Lemma scores_ajustados_eq multiplicadores mult_contexto scores strategy_names :
  scores_ajustados db multiplicadores mult_contexto scores strategy_names
  = map (ajuste db multiplicadores mult_contexto) (zip scores strategy_names)
    ++ drop (length (zip scores strategy_names)) (map (fun _ => 0%Q) scores).
Proof.
  unfold scores_ajustados. apply foldl_setitem.
  - by intros acc i [score est_name].
  - rewrite length_map, length_zip. lia.
Qed.

Lemma scores_ajustados_length multiplicadores mult_contexto scores strategy_names :
  length (scores_ajustados db multiplicadores mult_contexto scores strategy_names)
  = length scores.
Proof.
  rewrite scores_ajustados_eq, length_app, length_map, length_drop, length_map,
    length_zip. lia.
Qed.

Lemma scores_ajustados_lookup multiplicadores mult_contexto scores strategy_names
    i score est_name :
  scores !! i = Some score -> strategy_names !! i = Some est_name ->
  scores_ajustados db multiplicadores mult_contexto scores strategy_names !! i
  = Some (ajuste db multiplicadores mult_contexto (score, est_name)).
Proof.
  intros Hs Hn. rewrite scores_ajustados_eq.
  assert (zip scores strategy_names !! i = Some (score, est_name)) as Hz.
  { apply lookup_zip_with_Some. eauto 6. }
  rewrite lookup_app_l by (rewrite length_map; eapply lookup_lt_Some, Hz).
  by rewrite list_lookup_fmap, Hz.
Qed.

Lemma ajuste_nonneg nivel multiplicadores contexto score est_name :
  Py.dict_get MULTIPLICADORES_URGENCIA nivel = Some multiplicadores ->
  (0 <= score)%Q ->
  (0 <= ajuste db multiplicadores (mult_contexto contexto) (score, est_name))%Q.
Proof.
  intros Hn Hs. unfold ajuste. cbn.
  destruct (multiplicador_nivel _ _ _ Hn (get_tipo_respuesta_tag db est_name))
    as (m & -> & Hm). cbn.
  pose proof (mult_ctx_positive db _ est_name (mult_contexto_positive contexto)).
  apply Qmult_le_0_compat; [apply Qmult_le_0_compat|]; lra.
Qed.

Lemma scores_ajustados_nonneg nivel multiplicadores contexto scores strategy_names :
  Py.dict_get MULTIPLICADORES_URGENCIA nivel = Some multiplicadores ->
  Forall (fun s => 0 <= s)%Q scores ->
  Forall (fun x => 0 <= x)%Q
    (scores_ajustados db multiplicadores (mult_contexto contexto) scores strategy_names).
Proof.
  intros Hn Hs. rewrite scores_ajustados_eq. apply Forall_app. split.
  - apply Forall_map, Forall_forall. intros [score est] Hin. cbn.
    eapply ajuste_nonneg; [done|].
    apply elem_of_zip_l in Hin. cbn in Hin.
    rewrite Forall_forall in Hs. by apply Hs.
  - apply Forall_drop, Forall_map, Forall_forall. intros; cbn. lra.
Qed.

Lemma aplicar_eq scores strategy_names nivel_riesgo contexto_escenario multiplicadores :
  Py.dict_get MULTIPLICADORES_URGENCIA nivel_riesgo = Some multiplicadores ->
  let raw := scores_ajustados db multiplicadores (mult_contexto contexto_escenario)
               scores strategy_names in
  aplicar_multiplicador_urgencia db scores strategy_names nivel_riesgo
    contexto_escenario
  = if Qlt_bool 0 (np_max raw)
    then map (fun x => (x / np_max raw)%Q) raw else raw.
Proof.
  intros Hn raw. unfold aplicar_multiplicador_urgencia. rewrite Hn. fold raw.
  destruct raw; [|done]. by destruct (Qlt_bool _ _).
Qed.

End LoopFacts.

(** C10. With a severity level that is none of the four tiers,
    [aplicar_multiplicador_urgencia] returns the score vector it was given:
    no multiplier, no division by the maximum, no error. *)
Theorem C10_unknown_level db scores strategy_names nivel_riesgo contexto_escenario :
  nivel_riesgo <> py "bajo_riesgo" -> nivel_riesgo <> py "riesgo_moderado" ->
  nivel_riesgo <> py "alto_riesgo" -> nivel_riesgo <> py "emergencia" ->
  aplicar_multiplicador_urgencia db scores strategy_names nivel_riesgo
    contexto_escenario = scores.
Proof.
  intros H1 H2 H3 H4. unfold aplicar_multiplicador_urgencia.
  rewrite dict_get_None; [done|].
  rewrite MULTIPLICADORES_URGENCIA_keys.
  intros [<-|[<-|[<-|[<-|[]]]]]; done.
Qed.

Lemma C10_witness :
  aplicar_multiplicador_urgencia latin1_db [0.5; 2]%Q
    [est_adulticidas; est_promover] (py "desconocido") (Some (py "alta_densidad"))
  = [0.5; 2]%Q.
Proof.
  apply (C10_unknown_level latin1_db [0.5; 2]%Q [est_adulticidas; est_promover]
           (py "desconocido") (Some (py "alta_densidad"))); vm_compute; discriminate.
Defined.

(** C8. At a known level, the vector [raw] written by the loop has, for every
    strategy, the entry base score x severity multiplier of its tag x context
    multiplier, the latter being, in the scenario's table of
    [CONTEXTO_ESCENARIO], that of the first keyword occurring in the name,
    letter case apart, and 1 when none occurs, when the scenario has no table
    or when no scenario is given. The result is [raw] divided by its maximum when the
    maximum is positive and [raw] itself otherwise. For scores that are not
    negative, as the aggregator produces them, the maximum is not negative,
    and when it is 0 the vector is all zero. *)
Theorem C8_adjusted_score db scores strategy_names nivel_riesgo
    contexto_escenario multiplicadores :
  Py.dict_get MULTIPLICADORES_URGENCIA nivel_riesgo = Some multiplicadores ->
  let result := aplicar_multiplicador_urgencia db scores strategy_names
                  nivel_riesgo contexto_escenario in
  exists raw : list Q,
    length raw = length scores
    /\ (forall i score est_name,
          scores !! i = Some score -> strategy_names !! i = Some est_name ->
          exists m c,
            Py.dict_get multiplicadores (get_tipo_respuesta db est_name) = Some m
            /\ context_multiplier db contexto_escenario est_name c
            /\ raw !! i = Some (score * m * c)%Q)
    /\ (raw = [] -> result = [])
    /\ (forall hi, is_max hi raw ->
          ((0 < hi)%Q -> Forall2 (fun y x => y == x / hi)%Q result raw)
          /\ (~ (0 < hi)%Q -> result = raw))
    /\ (Forall (fun s => 0 <= s)%Q scores ->
        forall hi, is_max hi raw ->
          (0 <= hi)%Q /\ ((hi == 0)%Q -> Forall (fun x => x == 0)%Q raw)).
Proof.
  intros Hn result.
  set (raw := scores_ajustados db multiplicadores (mult_contexto contexto_escenario)
                scores strategy_names).
  assert (Hres : result = if Qlt_bool 0 (np_max raw)
                          then map (fun x => (x / np_max raw)%Q) raw else raw)
    by (by apply aplicar_eq).
  exists raw. split; [apply scores_ajustados_length|].
  split; [|split; [|split]].
  - intros i score est_name Hi Hj.
    destruct (multiplicador_nivel _ _ _ Hn (get_tipo_respuesta_tag db est_name))
      as (m & Hm & _).
    exists m, (mult_ctx db (mult_contexto contexto_escenario) est_name).
    split; [done|]. split; [apply mult_ctx_context_multiplier|].
    unfold raw. erewrite scores_ajustados_lookup by done.
    unfold ajuste. cbn. by rewrite Hm.
  - intros E. rewrite Hres, E. by destruct (Qlt_bool _ _).
  - intros hi Hhi.
    assert (raw <> []) as Hne.
    { destruct Hhi as [Hin _]. intros E. rewrite E in Hin. by apply elem_of_nil in Hin. }
    pose proof (is_max_unique _ _ _ (np_max_is_max raw Hne) Hhi) as Hmax.
    split.
    + intros Hpos. assert (Qlt_bool 0 (np_max raw) = true) as Hb
        by (apply Qlt_bool_iff; by rewrite Hmax).
      rewrite Hres, Hb. apply Forall2_fmap_l, Forall_Forall2_diag, Forall_forall.
      intros x _. cbn. by rewrite Hmax.
    + intros Hnp. assert (Qlt_bool 0 (np_max raw) = false) as Hb.
      { destruct (Qlt_bool 0 (np_max raw)) eqn:E; [|done].
        apply Qlt_bool_iff in E. rewrite Hmax in E. done. }
      by rewrite Hres, Hb.
  - intros Hs hi Hhi.
    assert (Hpos : Forall (fun x => 0 <= x)%Q raw)
      by (by eapply scores_ajustados_nonneg).
    rewrite Forall_forall in Hpos. split; [apply Hpos, Hhi|].
    intros Hz. apply Forall_forall. intros x Hx.
    apply Qle_antisym; [|by apply Hpos].
    rewrite <- Hz. by apply Hhi.
Qed.

Lemma C8_witness :
  let scores := [0.5; 1; 1]%Q in
  let strategy_names := [est_adulticidas; est_promover; est_mayusculas] in
  let contexto := Some (py "construcciones") in
  let multiplicadores :=
    default [] (Py.dict_get MULTIPLICADORES_URGENCIA (py "emergencia")) in
  let result := aplicar_multiplicador_urgencia latin1_db scores strategy_names
                  (py "emergencia") contexto in
  Forall2 Qeq result [1; 0.32; 0.72]%Q
  /\ context_multiplier latin1_db contexto est_adulticidas 0.5%Q
  /\ context_multiplier latin1_db contexto est_promover 1%Q
  /\ context_multiplier latin1_db contexto est_mayusculas 0.5%Q
  /\ context_multiplier latin1_db (Some (py "alta_densidad")) est_mayusculas 6.0%Q
  /\ exists raw : list Q,
    length raw = length scores
    /\ (forall i score est_name,
          scores !! i = Some score -> strategy_names !! i = Some est_name ->
          exists m c,
            Py.dict_get multiplicadores (get_tipo_respuesta latin1_db est_name)
            = Some m
            /\ context_multiplier latin1_db contexto est_name c
            /\ raw !! i = Some (score * m * c)%Q)
    /\ (raw = [] -> result = [])
    /\ (forall hi, is_max hi raw ->
          ((0 < hi)%Q -> Forall2 (fun y x => y == x / hi)%Q result raw)
          /\ (~ (0 < hi)%Q -> result = raw))
    /\ (Forall (fun s => 0 <= s)%Q scores ->
        forall hi, is_max hi raw ->
          (0 <= hi)%Q /\ ((hi == 0)%Q -> Forall (fun x => x == 0)%Q raw)).
Proof.
  intros scores strategy_names contexto multiplicadores result.
  split.
  { repeat constructor; vm_compute; reflexivity. }
  split.
  { assert (E : mult_ctx latin1_db (mult_contexto contexto) est_adulticidas = 0.5%Q)
      by (vm_compute; reflexivity).
    rewrite <- E. apply mult_ctx_context_multiplier. }
  split.
  { assert (E : mult_ctx latin1_db (mult_contexto contexto) est_promover = 1%Q)
      by (vm_compute; reflexivity).
    rewrite <- E. apply mult_ctx_context_multiplier. }
  split.
  { assert (E : mult_ctx latin1_db (mult_contexto contexto) est_mayusculas = 0.5%Q)
      by (vm_compute; reflexivity).
    rewrite <- E. apply mult_ctx_context_multiplier. }
  split.
  { assert (E : mult_ctx latin1_db (mult_contexto (Some (py "alta_densidad")))
                  est_mayusculas = 6.0%Q)
      by (vm_compute; reflexivity).
    rewrite <- E. apply mult_ctx_context_multiplier. }
  apply (C8_adjusted_score latin1_db [0.5; 1; 1]%Q
           [est_adulticidas; est_promover; est_mayusculas]
           (py "emergencia") (Some (py "construcciones"))).
  vm_compute. reflexivity.
Defined.

(** *** Immediate and preventive strategies *)

Section Ordering.
Context (db : Py.unicode_db).

(** The strategy with the larger severity multiplier comes out strictly
    higher, before and after the division by the maximum. *)
Lemma aplicar_ordering scores strategy_names nivel_riesgo contexto_escenario
    i j sa sb a b ma mb :
  scores !! i = Some sa -> scores !! j = Some sb ->
  strategy_names !! i = Some a -> strategy_names !! j = Some b ->
  (sa == sb)%Q -> (0 < sa)%Q ->
  (mult_ctx db (mult_contexto contexto_escenario) a
   == mult_ctx db (mult_contexto contexto_escenario) b)%Q ->
  multiplicador nivel_riesgo (get_tipo_respuesta db a) = Some ma ->
  multiplicador nivel_riesgo (get_tipo_respuesta db b) = Some mb ->
  (mb < ma)%Q ->
  exists ea eb,
    aplicar_multiplicador_urgencia db scores strategy_names nivel_riesgo
      contexto_escenario !! i = Some ea
    /\ aplicar_multiplicador_urgencia db scores strategy_names nivel_riesgo
      contexto_escenario !! j = Some eb
    /\ (eb < ea)%Q.
Proof.
  intros Hi Hj Ha Hb Hs Hpos Hc Hma Hmb Hlt.
  unfold multiplicador in Hma, Hmb.
  destruct (Py.dict_get MULTIPLICADORES_URGENCIA nivel_riesgo) as [mults|] eqn:Hn;
    [|done]. cbn in Hma, Hmb.
  rewrite (aplicar_eq db _ _ _ _ _ Hn). cbv zeta.
  set (raw := scores_ajustados db mults (mult_contexto contexto_escenario)
                scores strategy_names).
  pose proof (scores_ajustados_lookup db mults (mult_contexto contexto_escenario)
                _ _ _ _ _ Hi Ha) as Ri.
  pose proof (scores_ajustados_lookup db mults (mult_contexto contexto_escenario)
                _ _ _ _ _ Hj Hb) as Rj.
  fold raw in Ri, Rj. unfold ajuste in Ri, Rj. cbn in Ri, Rj.
  rewrite Hma in Ri. rewrite Hmb in Rj. cbn in Ri, Rj.
  pose proof (mult_ctx_positive db _ a (mult_contexto_positive contexto_escenario)) as Hca.
  destruct (multiplicador_nivel _ _ _ Hn (get_tipo_respuesta_tag db b))
    as (mb' & Hmb' & Hmbpos).
  rewrite Hmb in Hmb'. injection Hmb' as <-.
  set (ca := mult_ctx db (mult_contexto contexto_escenario) a) in *.
  set (cb := mult_ctx db (mult_contexto contexto_escenario) b) in *.
  assert (sb * mb * cb < sa * ma * ca)%Q as Hraw.
  { rewrite <- Hs, <- Hc. apply Qmult_lt_compat_r; [done|].
    rewrite !(Qmult_comm sa). by apply Qmult_lt_compat_r. }
  assert (0 < sa * ma * ca)%Q as Hrpos.
  { apply Qmult_lt_0_compat; [apply Qmult_lt_0_compat|]; lra. }
  assert (raw <> []) as Hne by (intros E; by rewrite E in Ri).
  pose proof (np_max_is_max raw Hne) as [_ Hmax].
  assert (0 < np_max raw)%Q as Hmpos.
  { eapply Qlt_le_trans; [exact Hrpos|]. eapply Hmax, list_elem_of_lookup_2, Ri. }
  assert (Qlt_bool 0 (np_max raw) = true) as -> by (by apply Qlt_bool_iff).
  rewrite !list_lookup_fmap, Ri, Rj. cbn.
  eexists _, _. split; [done|]. split; [done|].
  unfold Qdiv. apply Qmult_lt_compat_r; [|done]. by apply Qinv_lt_0_compat.
Qed.

End Ordering.

(** C1. Two strategies with equal, strictly positive base scores and equal
    context multipliers, one tagged [inmediata] and one [preventiva]: at
    level [emergencia] (multipliers 2.5 and 0.2) the output for the immediate
    one is strictly higher, at level [bajo_riesgo] (0.2 and 1.8) strictly
    lower; both orderings are those of the output, after the division by the
    maximum. *)
Theorem C1_immediate_before_preventive db scores strategy_names
    contexto_escenario i j sa sb a b :
  scores !! i = Some sa -> scores !! j = Some sb ->
  strategy_names !! i = Some a -> strategy_names !! j = Some b ->
  (sa == sb)%Q -> (0 < sa)%Q ->
  get_tipo_respuesta db a = py "inmediata" ->
  get_tipo_respuesta db b = py "preventiva" ->
  (mult_ctx db (mult_contexto contexto_escenario) a
   == mult_ctx db (mult_contexto contexto_escenario) b)%Q ->
  (multiplicador (py "emergencia") (py "inmediata") = Some 2.5%Q
   /\ multiplicador (py "emergencia") (py "preventiva") = Some 0.2%Q
   /\ multiplicador (py "bajo_riesgo") (py "inmediata") = Some 0.2%Q
   /\ multiplicador (py "bajo_riesgo") (py "preventiva") = Some 1.8%Q)
  /\ (exists ea eb,
        aplicar_multiplicador_urgencia db scores strategy_names
          (py "emergencia") contexto_escenario !! i = Some ea
        /\ aplicar_multiplicador_urgencia db scores strategy_names
          (py "emergencia") contexto_escenario !! j = Some eb
        /\ (eb < ea)%Q)
  /\ (exists la lb,
        aplicar_multiplicador_urgencia db scores strategy_names
          (py "bajo_riesgo") contexto_escenario !! i = Some la
        /\ aplicar_multiplicador_urgencia db scores strategy_names
          (py "bajo_riesgo") contexto_escenario !! j = Some lb
        /\ (la < lb)%Q).
Proof.
  intros Hi Hj Ha Hb Hs Hpos Hta Htb Hc.
  assert (multiplicador (py "emergencia") (get_tipo_respuesta db a) = Some 2.5%Q
          /\ multiplicador (py "emergencia") (get_tipo_respuesta db b) = Some 0.2%Q
          /\ multiplicador (py "bajo_riesgo") (get_tipo_respuesta db a) = Some 0.2%Q
          /\ multiplicador (py "bajo_riesgo") (get_tipo_respuesta db b) = Some 1.8%Q)
    as (E1 & E2 & L1 & L2)
    by (rewrite Hta, Htb; repeat apply conj; vm_compute; reflexivity).
  split; [by rewrite <- Hta, <- Htb|]. split.
  - apply (aplicar_ordering db scores strategy_names (py "emergencia")
             contexto_escenario i j sa sb a b 2.5%Q 0.2%Q Hi Hj Ha Hb Hs Hpos Hc
             E1 E2).
    reflexivity.
  - assert (sb == sa)%Q as Hs' by (by symmetry).
    assert (0 < sb)%Q as Hpos' by (by rewrite <- Hs).
    destruct (aplicar_ordering db scores strategy_names (py "bajo_riesgo")
                contexto_escenario j i sb sa b a 1.8%Q 0.2%Q Hj Hi Hb Ha Hs' Hpos'
                (Qeq_sym _ _ Hc) L2 L1)
      as (lb & la & H1 & H2 & H3); [reflexivity|].
    eauto.
Qed.

Lemma C1_witness :
  (exists ea eb,
     aplicar_multiplicador_urgencia latin1_db [0.5; 0.5]%Q
       [est_adulticidas; est_promover] (py "emergencia") None !! 0%nat = Some ea
     /\ aplicar_multiplicador_urgencia latin1_db [0.5; 0.5]%Q
       [est_adulticidas; est_promover] (py "emergencia") None !! 1%nat = Some eb
     /\ (eb < ea)%Q)
  /\ (exists la lb,
        aplicar_multiplicador_urgencia latin1_db [0.5; 0.5]%Q
          [est_adulticidas; est_promover] (py "bajo_riesgo") None !! 0%nat = Some la
        /\ aplicar_multiplicador_urgencia latin1_db [0.5; 0.5]%Q
          [est_adulticidas; est_promover] (py "bajo_riesgo") None !! 1%nat = Some lb
        /\ (la < lb)%Q).
Proof.
  apply (C1_immediate_before_preventive latin1_db [0.5; 0.5]%Q
           [est_adulticidas; est_promover] None 0 1 0.5%Q 0.5%Q
           est_adulticidas est_promover);
    vm_compute; reflexivity.
Defined.

(** *** [build_indicator_matrix] *)

Ltac simpl_result := cbv [mbind result_bind Py.bind].

Lemma mapM_Ok {A B} (f : A -> Py.result B) l bs :
  Py.mapM f l = Ok bs <-> Forall2 (fun a b => f a = Ok b) l bs.
Proof.
  revert bs. induction l as [|a l IH]; intros bs; cbn.
  - split; [by intros [= <-]; constructor|by inversion 1].
  - destruct (f a) as [b|e] eqn:E; cbn.
    + destruct (Py.mapM f l) as [bs'|e] eqn:E'; cbn.
      * split.
        -- intros [= <-]. constructor; [done|]. by apply IH.
        -- inversion 1 as [|? b' ? bs'' Hb Hbs]; subst.
           apply IH in Hbs. congruence.
      * split; [done|]. inversion 1 as [|? b' ? bs'' Hb Hbs]; subst.
        by apply IH in Hbs.
    + split; [done|]. inversion 1; congruence.
Qed.

Lemma mapM_total {A B} (f : A -> Py.result B) l :
  (forall a, a ∈ l -> exists b, f a = Ok b) -> exists bs, Py.mapM f l = Ok bs.
Proof.
  induction l as [|a l IH]; intros H; cbn; [eauto|].
  destruct (H a) as [b ->]; [left|]. cbn.
  destruct IH as [bs ->]; [intros; apply H; by right|]. cbn. eauto.
Qed.

Lemma dict_get_dict_set {V} (d : Py.dict V) k v k' :
  Py.dict_get (Py.dict_set d k v) k'
  = if Py.eqb k' k then Some v else Py.dict_get d k'.
Proof.
  induction d as [|[k0 v0] d IH]; cbn; [done|].
  unfold Py.eqb in *. destruct (bool_decide (k = k0)) eqn:E; cbn.
  - apply bool_decide_eq_true in E. subst k0.
    unfold Py.eqb. by case_bool_decide.
  - apply bool_decide_eq_false in E. rewrite IH.
    unfold Py.eqb. repeat case_bool_decide; congruence.
Qed.

Lemma rule_by_ind_foldl d rules ind :
  Py.dict_get (foldl (fun d r => Py.dict_set d (indicator r) r) d rules) ind
  = last_rule (Py.dict_get d ind) rules ind.
Proof.
  revert d. induction rules as [|r rules IH]; intros d; cbn; [done|].
  by rewrite IH, dict_get_dict_set.
Qed.

Lemma rule_by_ind_get rules ind :
  Py.dict_get (rule_by_ind rules) ind = last_rule None rules ind.
Proof. apply rule_by_ind_foldl. Qed.

Lemma last_rule_None acc rules ind :
  last_rule acc rules ind = None ->
  acc = None /\ forall r, r ∈ rules -> indicator r <> ind.
Proof.
  revert acc. induction rules as [|r rules IH]; intros acc; cbn.
  - intros ->. split; [done|]. by intros r ?%elem_of_nil.
  - intros H. apply IH in H as [Hacc Hr].
    destruct (Py.eqb ind (indicator r)) eqn:E; [done|].
    split; [done|]. intros r' [->|?]%elem_of_cons; [|auto].
    intros <-. unfold Py.eqb in E. by rewrite bool_decide_eq_true_2 in E.
Qed.

Lemma last_rule_Some acc rules ind r :
  last_rule acc rules ind = Some r ->
  (acc = Some r /\ forall r', r' ∈ rules -> indicator r' <> ind)
  \/ (exists l1 l2, rules = l1 ++ r :: l2 /\ indicator r = ind
        /\ forall r', r' ∈ l2 -> indicator r' <> ind).
Proof.
  revert acc. induction rules as [|r0 rules IH]; intros acc; cbn.
  - intros ->. left. split; [done|]. by intros r' ?%elem_of_nil.
  - intros H. apply IH in H as [[Hacc Hr]|(l1 & l2 & -> & Hi & Hl2)].
    + unfold Py.eqb in Hacc. case_bool_decide as E.
      * injection Hacc as ->. right. by exists [], rules.
      * left. split; [done|]. intros r' [->|?]%elem_of_cons; [congruence|auto].
    + right. by exists (r0 :: l1), l2.
Qed.

Lemma weight_for_fun rules ind w w' :
  weight_for rules ind w -> weight_for rules ind w' -> w = w'.
Proof.
  intros (l1 & r & l2 & E & Hi & <- & Hl2) (l1' & r' & l2' & E' & Hi' & <- & Hl2').
  subst rules. revert l1' E'. induction l1 as [|a l1 IH]; intros [|a' l1'] E'; cbn in E'.
  - congruence.
  - injection E' as -> ->. exfalso. apply (Hl2 r'); [|done].
    apply elem_of_app. right. left.
  - injection E' as <- <-. exfalso. apply (Hl2' r); [|done].
    apply elem_of_app. right. left.
  - injection E' as -> E'. by apply (IH l1').
Qed.

Lemma cell_meets_spec indicator_values indicator_thresholds rules ind c :
  cell indicator_values indicator_thresholds (rule_by_ind rules) ind = Ok c ->
  cell_spec indicator_values indicator_thresholds rules ind c.
Proof.
  unfold cell. rewrite rule_by_ind_get.
  destruct (last_rule None rules ind) as [r|] eqn:Hr.
  - apply last_rule_Some in Hr as [[? _]|(l1 & l2 & E & Hi & Hl2)]; [done|].
    assert (weight_for rules ind (weight r)) as Hw by (by exists l1, r, l2).
    assert (references rules ind) as Href.
    { exists r. split; [|done]. rewrite E. apply elem_of_app. right. left. }
    fold (threshold_of indicator_thresholds ind).
    destruct (indicator_values !! ind) as [val|] eqn:Hv.
    + destruct (threshold_of indicator_thresholds ind) as [tc|] eqn:Ht.
      * fold (threshold_op tc). fold (threshold_bound tc).
        destruct (check_condition _ _ _) as [ok|e] eqn:Hc; simpl_result; [|done].
        intros [= <-]. split; [done|]. split; [intros; congruence|].
        intros w val' Hw' Hv'. assert (val' = val) as -> by congruence.
        rewrite (weight_for_fun _ _ _ _ Hw' Hw).
        split; [|intros; congruence]. intros tc' Ht'.
        assert (tc' = tc) as -> by congruence. by exists ok.
      * intros [= <-]. split; [done|]. split; [intros; congruence|].
        intros w val' Hw' Hv'. assert (val' = val) as -> by congruence.
        rewrite (weight_for_fun _ _ _ _ Hw' Hw).
        split; [intros; congruence|done].
    + intros [= <-]. split; [done|]. split; [done|]. intros w val' _ Hv'. congruence.
  - apply last_rule_None in Hr as [_ Hr]. intros [= <-].
    split; [done|]. split; [done|].
    intros w val (l1 & r & l2 & E & Hi & _) _. exfalso.
    apply (Hr r); [|done]. rewrite E. apply elem_of_app. right. left.
Qed.

Lemma cell_spec_cases indicator_values indicator_thresholds rules ind c :
  cell_spec indicator_values indicator_thresholds rules ind c ->
  cell_cases indicator_values indicator_thresholds rules ind c.
Proof.
  intros (H1 & H2 & H3). split; [done|]. split; [done|].
  intros w val Hw Hv. destruct (H3 w val Hw Hv) as [Hsome Hnone].
  destruct indicator_thresholds as [table|]; [|by apply Hnone].
  change (threshold_of (Some table) ind) with (table !! ind) in Hsome, Hnone.
  destruct (table !! ind) as [entry|]; [|by apply Hnone].
  destruct (Hsome entry eq_refl) as (ok & Hok & Hc).
  exists ok. split; [exact Hok|]. split; [|done].
  exact (check_condition_alarming _ _ _ _ Hok).
Qed.

Lemma supported_table_valid indicator_thresholds :
  supported_table indicator_thresholds -> valid_thresholds indicator_thresholds.
Proof.
  intros H ind tc Htc. destruct indicator_thresholds as [table|]; [|done].
  exact (H table ind tc eq_refl Htc).
Qed.

Lemma cell_total indicator_values indicator_thresholds by_ind ind :
  valid_thresholds indicator_thresholds ->
  exists c, cell indicator_values indicator_thresholds by_ind ind = Ok c.
Proof.
  intros Hv. unfold cell.
  destruct (Py.dict_get by_ind ind) as [r|]; [|eauto].
  destruct (indicator_values !! ind) as [val|]; [|eauto].
  fold (threshold_of indicator_thresholds ind).
  destruct (threshold_of indicator_thresholds ind) as [tc|] eqn:Ht; [|eauto].
  fold (threshold_op tc). fold (threshold_bound tc).
  destruct (check_condition_cases val (threshold_op tc) (threshold_bound tc))
    as [[_ ->]|[[_ ->]|[[_ ->]|[[_ ->]|[Hn _]]]]]; simpl_result; eauto.
  exfalso. apply Hn. by eapply Hv.
Qed.

Lemma dict_get_key {V} (d : Py.dict V) k :
  k ∈ map fst d -> exists v, Py.dict_get d k = Some v.
Proof.
  induction d as [|[k' v'] d IH]; cbn.
  - by intros ?%elem_of_nil.
  - intros [->|H]%elem_of_cons; unfold Py.eqb.
    + rewrite bool_decide_eq_true_2 by done. eauto.
    + case_bool_decide; eauto.
Qed.

Lemma py_sum_zeros l : Forall (fun c => c = 0%Q) l -> (py_sum l == 0)%Q.
Proof.
  induction 1 as [|x l -> _ IH]; [done|]. rewrite py_sum_cons, IH. lra.
Qed.

(** C2. [build_indicator_matrix] returns a matrix whenever the operators of
    the threshold table are supported. In the matrix it returns, the row of a
    strategy has one cell per indicator: 0 when the strategy has no rule for
    the indicator or the indicator has no value; with a value and an entry
    of the indicator in the threshold table, the strategy's weight when
    [check_condition] holds for the operator and bound of that entry, that
    is in the alarming region, and 0 when it does not; with a value and no
    entry, or no table, the weight. The compliance of the strategy is the sum
    of its row, which is 0 for a strategy without rules. *)
Theorem C2_indicator_matrix indicator_values strategies_config indicators
    indicator_thresholds :
  (supported_table indicator_thresholds ->
   exists matrix,
     build_indicator_matrix indicator_values strategies_config indicators
       indicator_thresholds = Ok (matrix, map fst strategies_config))
  /\ (forall matrix strategy_names,
        build_indicator_matrix indicator_values strategies_config indicators
          indicator_thresholds = Ok (matrix, strategy_names) ->
        strategy_names = map fst strategies_config
        /\ forall i est, strategy_names !! i = Some est ->
             exists rules row,
               Py.dict_get strategies_config est = Some rules
               /\ matrix !! i = Some row
               /\ length row = length indicators
               /\ (forall j ind, indicators !! j = Some ind ->
                     exists c, row !! j = Some c
                       /\ cell_cases indicator_values indicator_thresholds
                            rules ind c)
               /\ (exists comp, compliance matrix = Ok comp
                     /\ comp !! i = Some (py_sum row))
               /\ (rules = [] -> (py_sum row == 0)%Q)).
Proof.
  unfold build_indicator_matrix. split.
  - intros Hv%supported_table_valid.
    destruct (mapM_total
      (fun est => match Py.dict_get strategies_config est with
                  | Some rules =>
                    Py.mapM (cell indicator_values indicator_thresholds
                               (rule_by_ind rules)) indicators
                  | None => Raise Py.KeyError
                  end) (map fst strategies_config)) as [matrix E].
    { intros est Hest. destruct (dict_get_key _ _ Hest) as [rules ->].
      apply mapM_total. intros ind _. by apply cell_total. }
    exists matrix. simpl_result. by rewrite E.
  - intros matrix strategy_names. simpl_result.
    destruct (Py.mapM _ _) as [m|e] eqn:E; [|done]. intros [= -> <-].
    split; [done|]. intros i est Hi.
    apply mapM_Ok in E.
    destruct (Forall2_lookup_l _ _ _ _ _ E Hi) as (row & Hrow & Hf).
    destruct (Py.dict_get strategies_config est) as [rules|]; [|done].
    apply mapM_Ok in Hf. exists rules, row.
    split; [done|]. split; [done|].
    split; [symmetry; by eapply Forall2_length|]. split; [|split].
    + intros j ind Hj.
      destruct (Forall2_lookup_l _ _ _ _ _ Hf Hj) as (c & Hc & Hcell).
      exists c. split; [done|]. by apply cell_spec_cases, cell_meets_spec.
    + exists (map py_sum matrix). split.
      * unfold compliance. destruct matrix; [done|done].
      * change (map py_sum matrix) with (py_sum <$> matrix).
        by rewrite list_lookup_fmap, Hrow.
    + intros ->. apply py_sum_zeros. apply Forall_forall. intros c Hc.
      apply list_elem_of_lookup in Hc as [j Hj].
      destruct (Forall2_lookup_r _ _ _ _ _ Hf Hj) as (ind & _ & Hcell).
      by cbn in Hcell; injection Hcell.
Qed.

Lemma C2_witness :
  let matrix := [[0; 0.6; 0]; [0; 0; 0]]%Q in
  build_indicator_matrix ejemplo_values ejemplo_config ejemplo_indicators
    ejemplo_umbrales = Ok (matrix, [py "E1"; py "E2"])
  /\ forall i est, [py "E1"; py "E2"] !! i = Some est ->
       exists rules row,
         Py.dict_get ejemplo_config est = Some rules
         /\ matrix !! i = Some row
         /\ length row = length ejemplo_indicators
         /\ (forall j ind, ejemplo_indicators !! j = Some ind ->
               exists c, row !! j = Some c
                 /\ cell_cases ejemplo_values ejemplo_umbrales rules ind c)
         /\ (exists comp, compliance matrix = Ok comp
               /\ comp !! i = Some (py_sum row))
         /\ (rules = [] -> (py_sum row == 0)%Q).
Proof.
  intros matrix.
  assert (E : build_indicator_matrix ejemplo_values ejemplo_config
                ejemplo_indicators ejemplo_umbrales
              = Ok (matrix, [py "E1"; py "E2"])) by (vm_compute; reflexivity).
  split; [exact E|].
  exact (proj2 (proj2 (C2_indicator_matrix ejemplo_values ejemplo_config
                         ejemplo_indicators ejemplo_umbrales) matrix _ E)).
Defined.

(** *** Re-ranking *)

Lemma setitem_Ok {A} (l : list A) i x :
  (i < length l)%nat -> setitem l i x = Ok (<[i := x]> l).
Proof. intros H. unfold setitem. by rewrite (proj2 (Nat.ltb_lt _ _) H). Qed.

Lemma assign_ranks_spec indices : forall rank ranks,
  NoDup indices -> (forall i, i ∈ indices -> (i < length ranks)%nat) ->
  exists ranks',
    assign_ranks rank indices ranks = Ok ranks'
    /\ length ranks' = length ranks
    /\ (forall k i, indices !! k = Some i -> ranks' !! i = Some (rank + k)%nat)
    /\ (forall i, i ∉ indices -> ranks' !! i = ranks !! i).
Proof.
  induction indices as [|idx indices IH]; intros rank ranks Hnd Hlt; cbn.
  - exists ranks. split; [done|]. split; [done|]. split; [|done]. by intros k i ?.
  - apply NoDup_cons in Hnd as [Hidx Hnd].
    rewrite setitem_Ok by (apply Hlt; left). cbv [mbind result_bind Py.bind].
    destruct (IH (S rank) (<[idx := rank]> ranks) Hnd) as (ranks' & E & Hlen & Hk & Ho).
    { intros i Hi. rewrite length_insert. apply Hlt. by right. }
    exists ranks'. split; [done|]. rewrite length_insert in Hlen.
    split; [done|]. split.
    + intros [|k] i Hi; cbn in Hi.
      * injection Hi as <-. rewrite Ho by done.
        rewrite list_lookup_insert_eq by (apply Hlt; left). f_equal. lia.
      * rewrite (Hk k i Hi). f_equal. lia.
    + intros i [Hne Hi]%not_elem_of_cons. rewrite Ho by done.
      by rewrite list_lookup_insert_ne.
Qed.

Section RankingFacts.
Context (argsort : list Q -> list nat) (scores : list Q).
Hypothesis Hspec : argsort_spec argsort scores.
Let N := length scores.

Lemma argsort_length : length (argsort scores) = N.
Proof. destruct Hspec as [Hp _]. by rewrite Hp, length_seq. Qed.

Lemma argsort_NoDup : NoDup (argsort scores).
Proof. destruct Hspec as [Hp _]. rewrite Hp. apply NoDup_seq. Qed.

Lemma argsort_elem i : i ∈ argsort scores <-> (i < N)%nat.
Proof. destruct Hspec as [Hp _]. rewrite Hp, elem_of_seq. unfold N. lia. Qed.

Lemma ranks_ajustados_spec :
  exists ranks,
    ranks_ajustados argsort scores = Ok ranks
    /\ length ranks = N
    /\ forall k idx, argsort scores !! k = Some idx ->
         ranks !! idx = Some (N - k)%nat.
Proof.
  unfold ranks_ajustados, indices_ordenados.
  destruct (assign_ranks_spec (reverse (argsort scores)) 1
              (map (fun _ => 0%nat) scores)) as (ranks & E & Hlen & Hk & _).
  - rewrite reverse_Permutation. apply argsort_NoDup.
  - intros i Hi. rewrite length_map. by apply elem_of_reverse, argsort_elem in Hi.
  - exists ranks. split; [done|]. rewrite length_map in Hlen. split; [done|].
    intros k idx Hidx.
    pose proof (lookup_lt_Some _ _ _ Hidx) as Hlt. rewrite argsort_length in Hlt.
    rewrite (Hk (N - S k)%nat idx).
    + f_equal. lia.
    + rewrite reverse_lookup by (rewrite argsort_length; lia).
      rewrite argsort_length. rewrite <- Hidx. f_equal. lia.
Qed.

End RankingFacts.

(** *** A stable [argsort] *)

Section InsertionSort.
Context (v : list Q).

Lemma ainsert_Permutation vi R : ainsert v vi R ≡ₚ vi :: R.
Proof.
  induction R as [|pk R IH]; cbn; [done|].
  destruct (Qlt_bool _ _); [|done]. rewrite IH. apply perm_swap.
Qed.

Lemma ainsert_sorted vi R :
  StronglySorted (after v) R -> Forall (fun x => x < vi)%nat R ->
  StronglySorted (after v) (ainsert v vi R).
Proof.
  induction R as [|pk R IH]; cbn; intros Hs Hlt.
  - repeat constructor.
  - apply StronglySorted_inv in Hs as [Hs Hpk].
    apply Forall_cons in Hlt as [Hpkvi Hlt].
    destruct (Qlt_bool (item v vi) (item v pk)) eqn:E.
    + apply Qlt_bool_iff in E. constructor; [by apply IH|].
      rewrite ainsert_Permutation. constructor; [by left|done].
    + assert (item v pk <= item v vi)%Q as Hle.
      { apply Qnot_lt_le. intros H. apply Qlt_bool_iff in H. congruence. }
      constructor; [by constructor|]. constructor.
      * apply Qle_lteq in Hle as [?|?]; [by left|by right].
      * rewrite Forall_forall in Hpk, Hlt. apply Forall_forall. intros y Hy.
        specialize (Hlt y Hy). destruct (Hpk y Hy) as [H|[H _]].
        -- left. lra.
        -- apply Qle_lteq in Hle as [?|?]; [left|right; split; [|done]]; lra.
Qed.

Lemma insertion_prefix m :
  let R := foldl (fun R vi => ainsert v vi R) [] (seq 0 m) in
  R ≡ₚ seq 0 m /\ StronglySorted (after v) R.
Proof.
  induction m as [|m [IHp IHs]]; cbn zeta.
  - split; [done|constructor].
  - rewrite seq_S, foldl_app. cbn. split.
    + rewrite ainsert_Permutation, IHp. apply Permutation_cons_append.
    + apply ainsert_sorted; [done|]. rewrite IHp. apply Forall_forall.
      intros x Hx%elem_of_seq. lia.
Qed.

Lemma StronglySorted_lookup {B} (rel : relation B) l a b x y :
  StronglySorted rel l -> (a < b)%nat ->
  l !! a = Some x -> l !! b = Some y -> rel x y.
Proof.
  intros Hs. revert a b. induction Hs as [|z l Hs IH Hz]; intros a b Hab Ha Hb.
  - done.
  - destruct b as [|b]; [lia|]. cbn in Hb. destruct a as [|a]; cbn in Ha.
    + injection Ha as ->. rewrite Forall_forall in Hz.
      by eapply Hz, list_elem_of_lookup_2.
    + apply (IH a b); [lia|done..].
Qed.

Lemma item_lookup i s : v !! i = Some s -> item v i = s.
Proof. unfold item. by intros ->. Qed.

(** The insertion sort meets the contract of [argsort] on every input. *)
Lemma insertion_argsort_spec : argsort_spec insertion_argsort v.
Proof.
  destruct (insertion_prefix (length v)) as [Hp Hs].
  unfold argsort_spec, insertion_argsort. split.
  - by rewrite reverse_Permutation.
  - set (R := foldl _ _ _) in *. intros k1 k2 i1 i2 s1 s2 Hk H1 H2 Hs1 Hs2.
    pose proof (lookup_lt_Some _ _ _ H1) as L1.
    pose proof (lookup_lt_Some _ _ _ H2) as L2.
    rewrite length_reverse in L1, L2.
    rewrite reverse_lookup in H1, H2 by done.
    assert (length R - S k2 < length R - S k1)%nat as Hlt by lia.
    destruct (StronglySorted_lookup _ _ _ _ _ _ Hs Hlt H2 H1) as [H|[H _]];
      rewrite (item_lookup _ _ Hs1), (item_lookup _ _ Hs2) in H; lra.
Qed.

(** It is stable: of two equal entries the earlier one comes first. *)
Lemma insertion_argsort_stable i j si sj ki kj :
  (i < j)%nat -> v !! i = Some si -> v !! j = Some sj -> (si == sj)%Q ->
  insertion_argsort v !! ki = Some i -> insertion_argsort v !! kj = Some j ->
  (ki < kj)%nat.
Proof.
  intros Hij Hi Hj Heq Hki Hkj.
  destruct (insertion_prefix (length v)) as [Hp Hs].
  unfold insertion_argsort in Hki, Hkj. set (R := foldl _ _ _) in *.
  pose proof (lookup_lt_Some _ _ _ Hki) as L1.
  pose proof (lookup_lt_Some _ _ _ Hkj) as L2.
  rewrite length_reverse in L1, L2.
  rewrite reverse_lookup in Hki, Hkj by done.
  destruct (decide (ki < kj)%nat) as [|Hge]; [done|]. exfalso.
  destruct (decide (ki = kj)) as [->|Hne]; [rewrite Hki in Hkj; injection Hkj; lia|].
  assert (length R - S ki < length R - S kj)%nat as Hlt by lia.
  destruct (StronglySorted_lookup _ _ _ _ _ _ Hs Hlt Hki Hkj) as [H|[_ H]]; [|lia].
  rewrite (item_lookup _ _ Hi), (item_lookup _ _ Hj) in H. lra.
Qed.

End InsertionSort.

(** With that [argsort], equal adjusted scores are always ranked in reverse
    input order. *)
Corollary ties_reversed_when_stable scores i j si sj :
  (i < j)%nat -> scores !! i = Some si -> scores !! j = Some sj -> (si == sj)%Q ->
  exists ranks ri rj,
    ranks_ajustados insertion_argsort scores = Ok ranks
    /\ ranks !! i = Some ri /\ ranks !! j = Some rj /\ (rj < ri)%nat.
Proof.
  intros Hij Hi Hj Heq.
  pose proof (insertion_argsort_spec scores) as Hspec.
  destruct (ranks_ajustados_spec _ _ Hspec) as (ranks & E & Hlen & Hk).
  pose proof (lookup_lt_Some _ _ _ Hi) as Li.
  pose proof (lookup_lt_Some _ _ _ Hj) as Lj.
  assert (i ∈ insertion_argsort scores) as [ki Hki]%list_elem_of_lookup
    by (by apply argsort_elem).
  assert (j ∈ insertion_argsort scores) as [kj Hkj]%list_elem_of_lookup
    by (by apply argsort_elem).
  pose proof (insertion_argsort_stable scores _ _ _ _ _ _ Hij Hi Hj Heq Hki Hkj).
  pose proof (lookup_lt_Some _ _ _ Hkj) as Lkj.
  rewrite (argsort_length _ _ Hspec) in Lkj.
  exists ranks, (length scores - ki)%nat, (length scores - kj)%nat.
  split; [done|]. split; [by apply Hk|]. split; [by apply Hk|]. lia.
Qed.

(** C9, amended. Whatever [np.argsort] returns within its contract, the
    adjusted ranks are a permutation of 1..N, a strictly higher adjusted
    score has a strictly smaller rank, and the strategy at position [k] of the
    [argsort] output has rank [N - k]: equal scores are ranked in the reverse
    of the order [argsort] leaves them in. *)
Theorem C9_ranks_descending (argsort : list Q -> list nat) (scores : list Q) :
  argsort_spec argsort scores ->
  exists ranks,
    ranks_ajustados argsort scores = Ok ranks
    /\ ranks ≡ₚ seq 1 (length scores)
    /\ (forall i j si sj ri rj,
          scores !! i = Some si -> scores !! j = Some sj ->
          ranks !! i = Some ri -> ranks !! j = Some rj ->
          (sj < si)%Q -> (ri < rj)%nat)
    /\ (forall k idx, argsort scores !! k = Some idx ->
          ranks !! idx = Some (length scores - k)%nat).
Proof.
  intros Hspec.
  destruct (ranks_ajustados_spec argsort scores Hspec) as (ranks & E & Hlen & Hk).
  exists ranks. split; [done|]. split; [|split; [|done]].
  - pose (f := fun i => default 0%nat (ranks !! i)).
    assert (ranks = f <$> seq 0 (length scores)) as Hf.
    { apply list_eq. intros i. symmetry. rewrite list_lookup_fmap.
      destruct (decide (i < length scores)%nat) as [Hi|Hi].
      - rewrite lookup_seq_lt by done. cbn. unfold f.
        destruct (ranks !! i) eqn:Ei; [done|].
        apply lookup_ge_None in Ei. lia.
      - rewrite lookup_seq_ge by lia. symmetry. apply lookup_ge_None. lia. }
    trans (f <$> seq 0 (length scores)); [by rewrite <- Hf|]. clear Hf.
    destruct Hspec as [Hp Hs]. rewrite <- Hp.
    rewrite <- (reverse_Permutation (f <$> argsort scores)).
    assert (reverse (f <$> argsort scores) = seq 1 (length scores)) as ->; [|done].
    apply list_eq. intros k. rewrite <- fmap_reverse, list_lookup_fmap.
    pose proof (argsort_length argsort scores (conj Hp Hs)) as Hal.
    destruct (decide (k < length scores)%nat) as [Hlt|Hge].
    + rewrite reverse_lookup by lia. rewrite lookup_seq_lt by done.
      destruct (lookup_lt_is_Some_2 (argsort scores) (length (argsort scores) - S k))
        as [idx Hidx]; [lia|].
      rewrite Hidx. cbn. unfold f. rewrite (Hk _ _ Hidx). cbn. f_equal. lia.
    + rewrite lookup_seq_ge by lia.
      rewrite (proj2 (lookup_ge_None _ _)); [done|]. rewrite length_reverse. lia.
  - intros i j si sj ri rj Hi Hj Hri Hrj Hlt.
    destruct Hspec as [Hp Hs].
    pose proof (lookup_lt_Some _ _ _ Hi) as Hil.
    pose proof (lookup_lt_Some _ _ _ Hj) as Hjl.
    assert (i ∈ argsort scores) as [ki Hki]%list_elem_of_lookup
      by (rewrite Hp, elem_of_seq; lia).
    assert (j ∈ argsort scores) as [kj Hkj]%list_elem_of_lookup
      by (rewrite Hp, elem_of_seq; lia).
    pose proof (Hk _ _ Hki) as Ri. pose proof (Hk _ _ Hkj) as Rj.
    rewrite Hri in Ri. rewrite Hrj in Rj. injection Ri as ->. injection Rj as ->.
    pose proof (lookup_lt_Some _ _ _ Hki) as Hkil.
    pose proof (lookup_lt_Some _ _ _ Hkj) as Hkjl.
    rewrite (argsort_length argsort scores (conj Hp Hs)) in Hkil, Hkjl.
    destruct (decide (kj < ki)%nat) as [?|Hge]; [lia|]. exfalso.
    destruct (decide (ki = kj)) as [->|Hne].
    + assert (i = j) as -> by congruence.
      assert (si = sj) as -> by congruence. by apply Qlt_irrefl in Hlt.
    + assert (ki < kj)%nat as Hkk by lia.
      pose proof (Hs _ _ _ _ _ _ Hkk Hki Hkj Hi Hj). lra.
Qed.

Lemma C9_witness :
  exists ranks,
    ranks_ajustados insertion_argsort [0.5; 1; 0.25]%Q = Ok ranks
    /\ ranks ≡ₚ seq 1 3
    /\ (forall i j si sj ri rj,
          [0.5; 1; 0.25]%Q !! i = Some si -> [0.5; 1; 0.25]%Q !! j = Some sj ->
          ranks !! i = Some ri -> ranks !! j = Some rj ->
          (sj < si)%Q -> (ri < rj)%nat)
    /\ (forall k idx, insertion_argsort [0.5; 1; 0.25]%Q !! k = Some idx ->
          ranks !! idx = Some (3 - k)%nat).
Proof.
  apply (C9_ranks_descending insertion_argsort [0.5; 1; 0.25]%Q).
  split.
  - exact (Permutation_cons_append [0; 1]%nat 2%nat).
  - intros k1 k2 i1 i2 s1 s2 Hk H1 H2 H3 H4.
    destruct k1 as [|[|[|k1]]], k2 as [|[|[|k2]]]; try lia;
      vm_compute in H1, H2; try discriminate;
      injection H1 as <-; injection H2 as <-;
      vm_compute in H3, H4; injection H3 as <-; injection H4 as <-; done.
Defined.

(** C9 as stated fails: with a stable [argsort] two equal scores are ranked
    in reverse input order, the later strategy first. *)
Lemma C9_ties_reversed :
  argsort_spec insertion_argsort [1; 1]%Q
  /\ ranks_ajustados insertion_argsort [1; 1]%Q = Ok [2; 1]%nat
  /\ ~ ties_by_input_order [1; 1]%Q [2; 1]%nat.
Proof.
  split; [|split].
  - split; [done|].
    intros k1 k2 i1 i2 s1 s2 Hk H1 H2 H3 H4.
    destruct k1 as [|[|k1]], k2 as [|[|k2]]; try lia;
      vm_compute in H1, H2; try discriminate;
      injection H1 as <-; injection H2 as <-;
      vm_compute in H3, H4; injection H3 as <-; injection H4 as <-; done.
  - by vm_compute.
  - intros H. specialize (H 0 1 1%Q 1%Q 2 1)%nat.
    assert (2 < 1)%nat; [|lia]. apply H; [lia|reflexivity..].
Qed.

(** *** The matcher *)

Section RegexFacts.
Context {A : Type}.

Lemma star_suffix p s (k : Py.str -> option A) a :
  Re.star p s k = Some a -> exists s', s' `suffix_of` s /\ k s' = Some a.
Proof.
  induction s as [|c s IH]; cbn.
  - intros H. by exists [].
  - destruct (p c).
    + destruct (Re.star p s k) as [a'|] eqn:E.
      * intros [= ->]. destruct (IH eq_refl) as (s' & Hs & Hk).
        exists s'. split; [by apply suffix_cons_r|done].
      * intros H. by exists (c :: s).
    + intros H. by exists (c :: s).
Qed.

Lemma exec_suffix r : forall s g (k : Py.str -> Re.match_obj -> option A) a,
  Re.exec r s g k = Some a ->
  exists s' g', s' `suffix_of` s /\ k s' g' = Some a.
Proof.
  induction r as [p|p|p|r IH|r1 IH1 r2 IH2|n r IH]; intros s g k a; cbn.
  - destruct s as [|c s]; [done|]. destruct (p c); [|done].
    intros H. exists s, g. split; [by apply suffix_cons_r|done].
  - intros (s' & Hs & Hk)%star_suffix. eauto.
  - destruct s as [|c s]; [done|]. destruct (p c); [|done].
    intros (s' & Hs & Hk)%star_suffix. exists s', g.
    split; [by apply suffix_cons_r|done].
  - destruct (Re.exec r s g k) as [a'|] eqn:E.
    + intros [= ->]. by apply IH in E.
    + intros H. by exists s, g.
  - intros (s1 & g1 & Hs1 & H)%IH1. apply IH2 in H as (s2 & g2 & Hs2 & H).
    exists s2, g2. split; [by etrans|done].
  - intros (s' & g' & Hs & H)%IH. eauto.
Qed.

Lemma exec_demands P r : demands P r ->
  forall s g (k : Py.str -> Re.match_obj -> option A) a,
  Re.exec r s g k = Some a -> exists c, c ∈ s /\ P c.
Proof.
  induction 1 as [q Hq|q Hq|r1 r2 _ IH|r1 r2 _ IH|n r _ IH]; intros s g k a; cbn.
  - destruct s as [|c s]; [done|]. destruct (q c) eqn:E; [|done].
    intros _. exists c. split; [left|auto].
  - destruct s as [|c s]; [done|]. destruct (q c) eqn:E; [|done].
    intros _. exists c. split; [left|auto].
  - apply IH.
  - intros (s1 & g1 & [l ->] & H)%exec_suffix.
    apply IH in H as (c & Hc & HP). exists c. split; [|done].
    apply elem_of_app. by right.
  - apply IH.
Qed.

(** A greedy repetition followed by a continuation that cannot fail takes
    every character it can. *)
Lemma star_greedy p s (k : Py.str -> option A) :
  (forall s', is_Some (k s')) -> Re.star p s k = k (span p s).2.
Proof.
  intros Hk. induction s as [|c s IH]; cbn; [done|].
  destruct (p c); [|done]. rewrite IH.
  destruct (span p s) as [run r]. cbn. by destruct (Hk r) as [a ->].
Qed.

End RegexFacts.

Lemma span_app p s : s = (span p s).1 ++ (span p s).2.
Proof.
  induction s as [|c s IH]; cbn; [done|].
  destruct (p c); [|done]. destruct (span p s) as [run r]. cbn in *. by f_equal.
Qed.

Lemma span_run p s c : c ∈ (span p s).1 -> p c = true.
Proof.
  induction s as [|c0 s IH]; cbn; [by intros ?%elem_of_nil|].
  destruct (p c0) eqn:E; [|by intros ?%elem_of_nil].
  destruct (span p s) as [run r]. cbn in *.
  intros [->|?]%elem_of_cons; auto.
Qed.

Lemma span_rest p s :
  match (span p s).2 with
  | [] => True
  | c :: _ => p c = false
  end.
Proof.
  induction s as [|c0 s IH]; cbn; [done|].
  destruct (p c0) eqn:E; [|done]. by destruct (span p s) as [run r].
Qed.

Lemma span_stuck p s :
  match s with [] => True | c :: _ => p c = false end -> span p s = ([], s).
Proof. destruct s as [|c s]; cbn; [done|]. by intros ->. Qed.

Lemma take_prefix {B} (a b s : list B) :
  s = a ++ b -> take (length s - length b) s = a.
Proof.
  intros ->. rewrite length_app.
  replace (length a + length b - length b)%nat with (length a) by lia.
  by rewrite take_app_length.
Qed.

Section BareNumber.
Context (db : Py.unicode_db).

Lemma match_at_bare_nil : Re.match_at (re_bare db) [] = None.
Proof. reflexivity. Qed.

Lemma match_at_bare_other c s :
  Py.isdecimal db c = false -> Re.match_at (re_bare db) (c :: s) = None.
Proof. intros H. unfold Re.match_at. cbn. by rewrite H. Qed.

Lemma match_at_bare_digit c s :
  Py.isdecimal db c = true ->
  Re.match_at (re_bare db) (c :: s) = Some {[1%nat := number_at db (c :: s)]}.
Proof.
  intros Hc. unfold Re.match_at, re_bare, re_number.
  cbn [Re.exec]. rewrite Hc.
  rewrite star_greedy.
  2:{ intros s'. destruct s' as [|d s'].
      - rewrite star_greedy by (intros; by eexists). by eexists.
      - destruct (is_char 46%N d);
          rewrite !star_greedy by (intros; by eexists); by eexists. }
  unfold number_at, digit_run. cbn [span]. rewrite Hc.
  pose proof (span_app (Py.isdecimal db) s) as Happ.
  pose proof (span_rest (Py.isdecimal db) s) as Hrest.
  destruct (span (Py.isdecimal db) s) as [ip r]. cbn [fst snd] in *.
  destruct r as [|d r].
  - rewrite star_greedy by (intros; by eexists). cbn [span snd].
    rewrite insert_empty. do 2 f_equal. apply take_prefix. cbn. by f_equal.
  - unfold is_char. destruct (d =? 46)%N eqn:Ed.
    + rewrite star_greedy by (intros; by eexists).
      pose proof (span_app (Py.isdecimal db) r) as Happ2.
      destruct (span (Py.isdecimal db) r) as [fp r2]. cbn [fst snd] in *.
      rewrite insert_empty. do 2 f_equal. apply take_prefix.
      rewrite Happ, Happ2. cbn. by rewrite <- app_assoc.
    + rewrite star_greedy by (intros; by eexists).
      rewrite span_stuck by done. cbn [snd].
      rewrite insert_empty. do 2 f_equal. apply take_prefix. cbn. by f_equal.
Qed.

Lemma search_bare s :
  Re.search (re_bare db) s
  = (fun tok => {[1%nat := tok]}) <$> first_number db s.
Proof.
  induction s as [|c s IH]; [done|].
  cbn [Re.search first_number].
  destruct (Py.isdecimal db c) eqn:Hc.
  - by rewrite match_at_bare_digit.
  - by rewrite match_at_bare_other.
Qed.

End BareNumber.

(** *** [parse_threshold] *)

Section ParserFacts.
Context (db : Py.unicode_db).

Lemma isdecimal_dot : Py.isdecimal db 46%N = false.
Proof. reflexivity. Qed.

Lemma span_app_run p run rest :
  (forall c, c ∈ run -> p c = true) ->
  match rest with [] => True | c :: _ => p c = false end ->
  span p (run ++ rest) = (run, rest).
Proof.
  intros Hrun Hrest. induction run as [|c run IH]; cbn.
  - by apply span_stuck.
  - rewrite (Hrun c) by left. rewrite IH; [done|]. intros; apply Hrun; by right.
Qed.

Lemma digits_rest acc s :
  (Py.digits db acc s).2 = (span (Py.isdecimal db) s).2.
Proof.
  revert acc. induction s as [|c s IH]; intros acc; cbn; [done|].
  unfold Py.isdecimal. destruct (Py.to_decimal db c) as [d|]; [|done].
  rewrite IH. by destruct (span _ s).
Qed.

(** [float] accepts every text the number pattern captures. *)
Lemma float_number_at c s :
  Py.isdecimal db c = true -> exists v, Py.float db (number_at db (c :: s)) = Ok v.
Proof.
  intros Hc. unfold number_at, digit_run. cbn [span]. rewrite Hc.
  pose proof (span_run (Py.isdecimal db) s) as Hrun.
  pose proof (span_rest (Py.isdecimal db) s) as Hrest.
  destruct (span (Py.isdecimal db) s) as [ip r]. cbn [fst snd] in *.
  assert (Hip : forall x, x ∈ c :: ip -> Py.isdecimal db x = true).
  { intros x [->|?]%elem_of_cons; auto. }
  assert (Hfloat : forall fp,
    (forall x, x ∈ fp -> Py.isdecimal db x = true) ->
    exists v, Py.float db ((c :: ip) ++ 46%N :: fp) = Ok v).
  { intros fp Hfp. unfold Py.float. cbn [app]. rewrite Hc.
    pose proof (digits_rest 0 ((c :: ip) ++ 46%N :: fp)) as Hd.
    rewrite span_app_run in Hd by (done || apply isdecimal_dot).
    cbn [app] in Hd.
    destruct (Py.digits db 0 (c :: ip ++ 46%N :: fp)) as [n r1]. cbn in Hd. subst r1.
    cbn. pose proof (digits_rest 0 fp) as Hd2.
    rewrite <- (app_nil_r fp) in Hd2 at 2. rewrite span_app_run in Hd2 by done.
    destruct (Py.digits db 0 fp) as [n2 r2]. cbn in Hd2. subst r2. eauto. }
  assert (Hint : exists v, Py.float db (c :: ip) = Ok v).
  { unfold Py.float. rewrite Hc.
    pose proof (digits_rest 0 (c :: ip)) as Hd.
    rewrite <- (app_nil_r (c :: ip)) in Hd at 2.
    rewrite span_app_run in Hd by done.
    destruct (Py.digits db 0 (c :: ip)) as [n r1]. cbn in Hd. subst r1. eauto. }
  destruct r as [|d r]; [done|].
  destruct (d =? 46)%N eqn:Ed; [|done].
  apply N.eqb_eq in Ed. subst d. apply Hfloat. apply span_run.
Qed.

Lemma first_number_digit s tok :
  first_number db s = Some tok ->
  exists c s', tok = number_at db (c :: s') /\ Py.isdecimal db c = true.
Proof.
  induction s as [|c s IH]; cbn; [done|].
  destruct (Py.isdecimal db c) eqn:E; [|done]. intros [= <-]. eauto.
Qed.

Lemma search_demands P r s m :
  demands P r -> Re.search r s = Some m -> exists c, c ∈ s /\ P c.
Proof.
  intros Hd. induction s as [|c s IH]; cbn [Re.search].
  - destruct (Re.match_at r []) eqn:E; [|done].
    intros _. by eapply exec_demands.
  - destruct (Re.match_at r (c :: s)) eqn:E.
    + intros _. by eapply exec_demands.
    + intros (c' & Hc' & HP)%IH. exists c'. split; [by right|done].
Qed.

Lemma demands_number : demands (has_digit db) (re_number db).
Proof. apply demands_cat_l, demands_plus. by intros c. Qed.

Lemma demands_compound : demands (has_digit db) (re_compound db).
Proof. do 4 apply demands_cat_r. apply demands_grp, demands_number. Qed.

Lemma demands_simple : demands (has_digit db) (re_simple db).
Proof. do 2 apply demands_cat_r. apply demands_grp, demands_number. Qed.

Lemma demands_paren : demands (has_digit db) (re_paren db).
Proof. do 3 apply demands_cat_r. apply demands_grp, demands_number. Qed.

Lemma demands_bare : demands (has_digit db) (re_bare db).
Proof. apply demands_grp, demands_number. Qed.

Lemma no_digit_no_match r s :
  demands (has_digit db) r -> (forall c, c ∈ s -> Py.isdecimal db c = false) ->
  Re.search r s = None.
Proof.
  intros Hd Hs. destruct (Re.search r s) as [m|] eqn:E; [|done].
  destruct (search_demands _ _ _ _ Hd E) as (c & Hc & HP).
  unfold has_digit in HP. rewrite (Hs c Hc) in HP. done.
Qed.

Lemma elem_of_lstrip c s : c ∈ Py.lstrip db s -> c ∈ s.
Proof.
  induction s as [|c0 s IH]; cbn; [done|].
  destruct (Py.isspace db c0); [|done]. intros ?%IH. by right.
Qed.

Lemma elem_of_rev (c : Py.char) s : c ∈ rev s <-> c ∈ s.
Proof. rewrite !list_elem_of_In. symmetry. apply in_rev. Qed.

Lemma elem_of_strip c s : c ∈ Py.strip db s -> c ∈ s.
Proof.
  unfold Py.strip, Py.rstrip.
  intros H. apply (proj1 (elem_of_rev _ _)) in H. apply elem_of_lstrip in H.
  apply (proj1 (elem_of_rev _ _)) in H. by apply elem_of_lstrip.
Qed.

Lemma elem_of_replace c old new s :
  c ∈ Py.replace old new s -> c ∈ new \/ c ∈ s.
Proof.
  unfold Py.replace. rewrite !list_elem_of_In, in_flat_map.
  intros (x & Hx & Hc). destruct (x =? old)%N; [by left|].
  right. destruct Hc as [<-|[]]. done.
Qed.

Lemma normalise_text_digit s :
  (forall c, c ∈ s -> Py.isdecimal db c = false) ->
  forall c, c ∈ normalise_text db s -> Py.isdecimal db c = false.
Proof.
  intros Hs c. unfold normalise_text.
  intros [Hc|[Hc|Hc]%elem_of_replace]%elem_of_replace.
  - apply list_elem_of_In in Hc. cbn in Hc. by destruct Hc as [<-|[<-|[]]].
  - apply list_elem_of_In in Hc. cbn in Hc. by destruct Hc as [<-|[<-|[]]].
  - by apply Hs, elem_of_strip.
Qed.

Lemma normalise_text_nil : normalise_text db [] = [].
Proof. reflexivity. Qed.

End ParserFacts.

(** C4. On the stripped text with the two glyphs replaced: when none of the
    three operator patterns matches and the text has a number, the first one,
    [parse_threshold] returns the operator [>=] with the value of that number;
    when the input has no digit at all it returns (None, None). *)
Theorem C4_bare_number_or_none db (s : Py.str) :
  let t := normalise_text db s in
  (Re.search (re_compound db) t = None ->
   Re.search (re_simple db) t = None ->
   Re.search (re_paren db) t = None ->
   forall tok, first_number db t = Some tok ->
     exists v, Py.float db tok = Ok v
       /\ parse_threshold db s = Ok (Some (py ">="), Some v))
  /\ ((forall c, c ∈ s -> Py.isdecimal db c = false) ->
      parse_threshold db s = Ok (None, None)).
Proof.
  intros t. split.
  - intros H1 H2 H3 tok Htok.
    destruct (first_number_digit db _ _ Htok) as (c & s' & -> & Hc).
    destruct (float_number_at db c s' Hc) as [v Hv]. exists v. split; [done|].
    unfold parse_threshold. destruct s as [|c0 s0].
    { subst t. by rewrite normalise_text_nil in Htok. }
    fold t. cbn [first_pattern patterns]. rewrite H1, H2, H3.
    rewrite search_bare, Htok. cbn [fmap option_fmap option_map].
    unfold Re.group. rewrite lookup_singleton_eq.
    cbv [mbind result_bind Py.bind]. by rewrite Hv.
  - intros Hs. unfold parse_threshold. destruct s as [|c0 s0]; [done|].
    fold t. pose proof (normalise_text_digit db _ Hs) as Ht. fold t in Ht.
    cbn [first_pattern patterns].
    rewrite (no_digit_no_match db _ _ (demands_compound db) Ht).
    rewrite (no_digit_no_match db _ _ (demands_simple db) Ht).
    rewrite (no_digit_no_match db _ _ (demands_paren db) Ht).
    by rewrite (no_digit_no_match db _ _ (demands_bare db) Ht).
Qed.

Lemma C4_witness :
  (exists v, Py.float latin1_db (py "12.5") = Ok v
     /\ parse_threshold latin1_db (py "unas 12.5.7 semanas")
        = Ok (Some (py ">="), Some v))
  /\ parse_threshold latin1_db (py "sin umbral") = Ok (None, None).
Proof.
  destruct (C4_bare_number_or_none latin1_db (py "unas 12.5.7 semanas"))
    as [Hnum _].
  destruct (C4_bare_number_or_none latin1_db (py "sin umbral")) as [_ Hnone].
  split.
  - apply Hnum; vm_compute; reflexivity.
  - apply Hnone. apply Forall_forall. vm_compute. repeat constructor.
Defined.

Lemma elem_of_replace_old old new s :
  old ∉ new -> old ∉ Py.replace old new s.
Proof.
  intros Hn Hc. unfold Py.replace in Hc.
  apply list_elem_of_In, in_flat_map in Hc as (x & Hx & Hc).
  destruct (x =? old)%N eqn:E.
  - by apply Hn, list_elem_of_In.
  - destruct Hc as [<-|[]]. by rewrite N.eqb_refl in E.
Qed.

Lemma replace_glyphs (x : Py.str) :
  Py.replace 8805%N (py ">=") (Py.replace 8804%N (py "<=") x)
  = flat_map sin_glifo x.
Proof.
  unfold Py.replace. induction x as [|c x IH]; [done|].
  cbn [flat_map]. rewrite flat_map_app. f_equal; [|exact IH].
  unfold sin_glifo. destruct (c =? 8804)%N eqn:E1; [done|].
  cbn [flat_map]. by rewrite app_nil_r.
Qed.

(** C3. [parse_threshold] returns ("<", 70.0) on "< 70%", (">=", 50.0) on
    "≥ 50", (">=", 6.0) on "Tipo II (≥ 6 semanas)" and (None, None) on the
    empty text. The text the patterns are tried on is the stripped text in
    which every U+2264 has become the two characters "<=" and every U+2265
    the two characters ">=", all else unchanged, so that no glyph is left:
    "Tipo I (≤ 4 semanas)" gives ("<=", 4.0) and "≤ 30" gives ("<=", 30.0).
    The patterns are tried in the order compound, simple, parenthesised, the
    first that matches giving the result, as on "> 3 y <= 5", where the
    compound operator further right wins. *)
Theorem C3_parse_threshold_examples db :
  Py.db_isspace db 8805%N = false ->
  parse_threshold db (py "< 70%") = Ok (Some (py "<"), Some 70%Q)
  /\ parse_threshold db (py "≥ 50") = Ok (Some (py ">="), Some 50%Q)
  /\ parse_threshold db (py "Tipo II (≥ 6 semanas)") = Ok (Some (py ">="), Some 6%Q)
  /\ parse_threshold db (py "") = Ok (None, None)
  /\ parse_threshold db (py "> 3 y <= 5") = Ok (Some (py "<="), Some 5%Q)
  /\ (forall s, (8804%N ∉ normalise_text db s) /\ (8805%N ∉ normalise_text db s))
  /\ (forall s, normalise_text db s = flat_map sin_glifo (Py.strip db s))
  /\ parse_threshold db (py "Tipo I (≤ 4 semanas)")
     = Ok (Some (py "<="), Some 4%Q)
  /\ (Py.db_isspace db 8804%N = false ->
      parse_threshold db (py "≤ 30") = Ok (Some (py "<="), Some 30%Q))
  /\ (forall s, s <> [] ->
        let t := normalise_text db s in
        (forall m, Re.search (re_compound db) t = Some m ->
           parse_threshold db s
           = (g1 ← Re.group m 1; g2 ← Re.group m 2; v ← Py.float db g2;
              Ok (Some (normalise_op (g1 ++ py "=")), Some v)))
        /\ (Re.search (re_compound db) t = None ->
            forall m, Re.search (re_simple db) t = Some m ->
              parse_threshold db s
              = (g1 ← Re.group m 1; g2 ← Re.group m 2; v ← Py.float db g2;
                 Ok (Some (normalise_op g1), Some v)))
        /\ (Re.search (re_compound db) t = None ->
            Re.search (re_simple db) t = None ->
            forall m, Re.search (re_paren db) t = Some m ->
              parse_threshold db s
              = (g1 ← Re.group m 1; g2 ← Re.group m 2; v ← Py.float db g2;
                 Ok (Some (normalise_op
                             (g1 ++ (if Py.contains g1 (py "=") then py "=" else []))),
                     Some v)))).
Proof.
  intros Hsp. destruct db as [sp dec low]. cbn in Hsp.
  split; [by vm_compute|]. split.
  { vm_compute. rewrite Hsp. reflexivity. }
  split; [by vm_compute|]. split; [done|]. split; [by vm_compute|]. split.
  - intros s. unfold normalise_text. split.
    + intros [H|H]%elem_of_replace.
      * apply list_elem_of_In in H. vm_compute in H. by destruct H as [|[|]].
      * revert H. apply elem_of_replace_old.
        intros H. apply list_elem_of_In in H. vm_compute in H. by destruct H as [|[|]].
    + apply elem_of_replace_old.
      intros H. apply list_elem_of_In in H. vm_compute in H. by destruct H as [|[|]].
  - split.
    { intros s. unfold normalise_text. apply replace_glyphs. }
    split; [by vm_compute|]. split.
    { intros Hsp'. cbn in Hsp'. vm_compute. rewrite Hsp'. reflexivity. }
    intros s Hs t. unfold parse_threshold. destruct s as [|c0 s0]; [done|]. fold t.
    cbn [first_pattern patterns].
    split; [|split].
    + intros m ->. cbv [mbind result_bind Py.bind].
      destruct (Re.group m 1); [|done]. destruct (Re.group m 2); [|done].
      by destruct (Py.float _ _).
    + intros -> m ->. cbv [mbind result_bind Py.bind].
      destruct (Re.group m 1); [|done]. destruct (Re.group m 2); [|done].
      by destruct (Py.float _ _).
    + intros -> -> m ->. cbv [mbind result_bind Py.bind].
      destruct (Re.group m 1); [|done]. destruct (Re.group m 2); [|done].
      by destruct (Py.float _ _).
Qed.

Lemma C3_witness :
  parse_threshold latin1_db (py "< 70%") = Ok (Some (py "<"), Some 70%Q)
  /\ parse_threshold latin1_db (py "≥ 50") = Ok (Some (py ">="), Some 50%Q)
  /\ parse_threshold latin1_db (py "Tipo II (≥ 6 semanas)")
     = Ok (Some (py ">="), Some 6%Q)
  /\ parse_threshold latin1_db (py "") = Ok (None, None)
  /\ parse_threshold latin1_db (py "Tipo I (≤ 4 semanas)")
     = Ok (Some (py "<="), Some 4%Q)
  /\ parse_threshold latin1_db (py "≤ 30") = Ok (Some (py "<="), Some 30%Q).
Proof.
  destruct (C3_parse_threshold_examples latin1_db eq_refl)
    as (H1 & H2 & H3 & H4 & _ & _ & _ & H5 & H6 & _).
  exact (conj H1 (conj H2 (conj H3 (conj H4 (conj H5 (H6 eq_refl)))))).
Defined.

(** *** More on [normalize_criterion] *)

Lemma normalize_criterion_cases values maximize :
  values <> [] ->
  ((np_max values == np_min values)%Q
   /\ normalize_criterion values maximize = map (fun _ => 1%Q) values)
  \/ ((np_min values < np_max values)%Q
      /\ normalize_criterion values maximize
         = map (fun x => if maximize
                         then ((x - np_min values) / (np_max values - np_min values))%Q
                         else (1 - (x - np_min values) / (np_max values - np_min values))%Q)
               values).
Proof.
  intros Hne. unfold normalize_criterion.
  destruct values as [|v vs] eqn:Ev; [done|]. rewrite <- Ev in *. clear Ev v vs.
  destruct (Qeq_bool (np_max values) (np_min values)) eqn:E.
  - left. by apply Qeq_bool_iff in E.
  - right. apply Qeq_bool_neq in E. split.
    + destruct (np_min_is_min values Hne) as [_ Hm].
      destruct (np_max_is_max values Hne) as [Hi _].
      pose proof (Hm _ Hi) as H. apply Qle_lteq in H as [H|H]; [done|].
      exfalso. apply E. by symmetry.
    + destruct maximize; [done|]. by rewrite map_map.
Qed.

(** X12. [normalize_criterion] keeps the order of the values with
    [maximize=True] and reverses it with [maximize=False], strictly for
    distinct values; unless all values are equal, the smallest value goes to
    0 and the largest to 1 with [maximize=True], and to 1 and 0 with
    [maximize=False]. *)
Theorem normalize_criterion_monotone values i j x y :
  values !! i = Some x -> values !! j = Some y -> (x <= y)%Q ->
  exists nx ny mx my,
    normalize_criterion values true !! i = Some nx
    /\ normalize_criterion values true !! j = Some ny
    /\ normalize_criterion values false !! i = Some mx
    /\ normalize_criterion values false !! j = Some my
    /\ (nx <= ny)%Q /\ (my <= mx)%Q
    /\ ((x < y)%Q -> (nx < ny)%Q /\ (my < mx)%Q)
    /\ ((x < y)%Q -> is_min x values -> (nx == 0)%Q /\ (mx == 1)%Q)
    /\ ((x < y)%Q -> is_max y values -> (ny == 1)%Q /\ (my == 0)%Q).
Proof.
  intros Hi Hj Hxy.
  assert (values <> []) as Hne by (intros ->; done).
  pose proof (np_min_is_min values Hne) as Hmin.
  pose proof (np_max_is_max values Hne) as Hmax.
  assert (x ∈ values) as Hx by (by eapply list_elem_of_lookup_2).
  assert (y ∈ values) as Hy by (by eapply list_elem_of_lookup_2).
  change (normalize_criterion values ?m) with (normalize_criterion values m).
  destruct (normalize_criterion_cases values true Hne) as [[E Et]|[Hlt Et]];
    destruct (normalize_criterion_cases values false Hne) as [[E' Ef]|[Hlt' Ef]];
    try (rewrite E in Hlt'; by apply Qlt_irrefl in Hlt');
    try (rewrite E' in Hlt; by apply Qlt_irrefl in Hlt);
    rewrite Et, Ef; change (map ?f values) with (f <$> values);
    rewrite !list_lookup_fmap, Hi, Hj; cbn; eexists _, _, _, _;
    (split; [done|]); (split; [done|]); (split; [done|]); (split; [done|]).
  - assert (x == y)%Q as Exy.
    { apply Qle_antisym; [done|].
      pose proof (proj2 Hmin x Hx). pose proof (proj2 Hmax y Hy). lra. }
    split; [lra|]. split; [lra|]. split; [lra|]. split; lra.
  - set (lo := np_min values) in *. set (hi := np_max values) in *.
    assert (0 < / (hi - lo))%Q as Hinv by (apply Qinv_lt_0_compat; lra).
    unfold Qdiv. split; [nra|]. split; [nra|]. split; [intros; nra|]. split.
    + intros _ Hm. pose proof (is_min_unique _ _ _ Hm Hmin) as ->.
      split; [nra|nra].
    + intros _ Hm. pose proof (is_max_unique _ _ _ Hm Hmax) as ->.
      assert ((hi - lo) * / (hi - lo) == 1)%Q by (apply Qmult_inv_r; lra).
      split; nra.
Qed.

Lemma normalize_criterion_monotone_witness :
  exists nx ny mx my,
    normalize_criterion [1; 3; 2]%Q true !! 0%nat = Some nx
    /\ normalize_criterion [1; 3; 2]%Q true !! 1%nat = Some ny
    /\ normalize_criterion [1; 3; 2]%Q false !! 0%nat = Some mx
    /\ normalize_criterion [1; 3; 2]%Q false !! 1%nat = Some my
    /\ (nx <= ny)%Q /\ (my <= mx)%Q
    /\ ((1 < 3)%Q -> (nx < ny)%Q /\ (my < mx)%Q)
    /\ ((1 < 3)%Q -> is_min 1%Q [1; 3; 2]%Q -> (nx == 0)%Q /\ (mx == 1)%Q)
    /\ ((1 < 3)%Q -> is_max 3%Q [1; 3; 2]%Q -> (ny == 1)%Q /\ (my == 0)%Q).
Proof.
  refine (normalize_criterion_monotone [1; 3; 2]%Q 0 1 1 3 _ _ _).
  - reflexivity.
  - reflexivity.
  - vm_compute. discriminate.
Defined.

(** X14. Normalising a column that is already normalised changes nothing. *)
Theorem normalize_criterion_idempotent values maximize :
  Forall2 Qeq
    (normalize_criterion (normalize_criterion values maximize) true)
    (normalize_criterion values maximize).
Proof.
  destruct (decide (values = [])) as [->|Hne]; [constructor|].
  pose proof (np_min_is_min values Hne) as Hmin.
  pose proof (np_max_is_max values Hne) as Hmax.
  destruct (normalize_criterion_cases values maximize Hne) as [[E ->]|[Hlt ->]].
  - set (ones := map (fun _ => 1%Q) values).
    assert (ones <> []) as Hne' by (subst ones; destruct values; done).
    assert (all_equal ones) as Hall.
    { intros x y Hx Hy. subst ones.
      apply list_elem_of_In, in_map_iff in Hx as (? & <- & _).
      apply list_elem_of_In, in_map_iff in Hy as (? & <- & _). reflexivity. }
    destruct (normalize_criterion_cases ones true Hne') as [[E' ->]|[Hlt' _]].
    + subst ones. rewrite map_map. apply Forall2_fmap, Forall_Forall2_diag.
      apply Forall_forall. intros; reflexivity.
    + exfalso. destruct (np_min_is_min ones Hne') as [H1 _].
      destruct (np_max_is_max ones Hne') as [H2 _].
      pose proof (Hall _ _ H1 H2). lra.
  - set (lo := np_min values) in *. set (hi := np_max values) in *.
    set (f := fun x => if maximize then ((x - lo) / (hi - lo))%Q
                       else (1 - (x - lo) / (hi - lo))%Q).
    set (col := map f values).
    assert (col <> []) as Hne' by (subst col; destruct values; done).
    assert (0 < / (hi - lo))%Q as Hinv by (apply Qinv_lt_0_compat; lra).
    assert ((hi - lo) * / (hi - lo) == 1)%Q as Hone by (apply Qmult_inv_r; lra).
    assert (forall x, x ∈ values -> (0 <= f x <= 1)%Q) as Hrange.
    { intros x Hx. pose proof (proj2 Hmin x Hx). pose proof (proj2 Hmax x Hx).
      fold lo in H. fold hi in H0. unfold f, Qdiv. destruct maximize; nra. }
    assert (np_min col == 0)%Q as Emin.
    { destruct (np_min_is_min col Hne') as [Hi Hm].
      apply Qle_antisym.
      - destruct maximize.
        + apply Qle_trans with (f lo); [apply Hm|unfold f, Qdiv; nra].
          apply list_elem_of_In, in_map_iff. exists lo.
          split; [done|apply list_elem_of_In, Hmin].
        + apply Qle_trans with (f hi); [apply Hm|unfold f, Qdiv; nra].
          apply list_elem_of_In, in_map_iff. exists hi.
          split; [done|apply list_elem_of_In, Hmax].
      - apply list_elem_of_In, in_map_iff in Hi as (x & <- & Hx).
        apply Hrange. by apply list_elem_of_In. }
    assert (np_max col == 1)%Q as Emax.
    { destruct (np_max_is_max col Hne') as [Hi Hm].
      apply Qle_antisym.
      - apply list_elem_of_In, in_map_iff in Hi as (x & <- & Hx).
        apply Hrange. by apply list_elem_of_In.
      - destruct maximize.
        + apply Qle_trans with (f hi); [unfold f, Qdiv; nra|apply Hm].
          apply list_elem_of_In, in_map_iff. exists hi.
          split; [done|apply list_elem_of_In, Hmax].
        + apply Qle_trans with (f lo); [unfold f, Qdiv; nra|apply Hm].
          apply list_elem_of_In, in_map_iff. exists lo.
          split; [done|apply list_elem_of_In, Hmin]. }
    destruct (normalize_criterion_cases col true Hne') as [[E' _]|[_ ->]].
    + exfalso. rewrite Emin, Emax in E'. lra.
    + apply Forall2_fmap_l, Forall_Forall2_diag, Forall_forall.
      intros x _. unfold compose. rewrite Emin, Emax. field.
Qed.

(** *** More on [normalize_strategy_weights] *)

Lemma normalized_rule strategies_config : forall h est rules r,
  NoDup (concat (map snd strategies_config)) ->
  (est, rules) ∈ strategies_config -> r ∈ rules ->
  ~ (total_weight h rules == 0)%Q ->
  normalize_strategy_weights strategies_config h r
  = {| indicator := indicator (h r);
       weight := (weight (h r) / total_weight h rules)%Q |}.
Proof.
  induction strategies_config as [|[est0 rules0] cfg IH];
    intros h est rules r Hnd Hin Hr; [by apply elem_of_nil in Hin|].
  cbn in Hnd. apply NoDup_app in Hnd as (Hnd0 & Hdisj & Hnd').
  rewrite normalize_strategy_weights_cons.
  apply elem_of_cons in Hin as [[= <- <-]|Hin].
  - intros Hnz.
    rewrite normalize_strategy_weights_other by (by apply Hdisj).
    unfold normalize_one.
    destruct (Qeq_bool _ _) eqn:E; [by apply Qeq_bool_iff in E|].
    by apply divide_weights_in.
  - intros Hnz.
    assert (forall r, r ∈ rules -> normalize_one h rules0 r = h r) as Hsame.
    { intros r' Hr'. apply normalize_one_other. intros Hr0.
      apply (Hdisj r' Hr0). by eapply elem_of_rules. }
    rewrite (IH _ est rules r); [|done..|].
    + by rewrite (Hsame r Hr), (total_weight_ext _ h rules).
    + by rewrite (total_weight_ext _ h rules).
Qed.

(** X8. When every rule is an object of its own, [normalize_strategy_weights]
    divides every weight of a strategy whose total is not 0 by that total:
    the proportions between the weights of a strategy are kept, and a weight
    that is not negative stays so when the total is positive. *)
Theorem normalize_strategy_weights_proportional
    (strategies_config : Py.dict (list loc)) (h : store) est rules r :
  NoDup (concat (map snd strategies_config)) ->
  (est, rules) ∈ strategies_config -> r ∈ rules ->
  ~ (total_weight h rules == 0)%Q ->
  let h' := normalize_strategy_weights strategies_config h in
  weight (h' r) = (weight (h r) / total_weight h rules)%Q
  /\ ((0 < total_weight h rules)%Q -> (0 <= weight (h r))%Q ->
      (0 <= weight (h' r))%Q).
Proof.
  intros Hnd Hin Hr Hnz h'. subst h'.
  rewrite (normalized_rule _ _ est rules) by done. cbn. split; [done|].
  intros Hpos Hw. apply Qle_shift_div_l; lra.
Qed.

Lemma normalize_strategy_weights_proportional_witness :
  let h' := normalize_strategy_weights ejemplo_refs ejemplo_store in
  weight (h' 1%nat) = (6 / total_weight ejemplo_store [0; 1]%nat)%Q
  /\ ((0 < total_weight ejemplo_store [0; 1]%nat)%Q -> (0 <= 6)%Q ->
      (0 <= weight (h' 1%nat))%Q).
Proof.
  refine (normalize_strategy_weights_proportional ejemplo_refs ejemplo_store
            (py "E1") [0; 1]%nat 1%nat _ _ _ _).
  - apply (bool_decide_unpack _); vm_compute; exact I.
  - unfold ejemplo_refs; left.
  - right; left.
  - vm_compute. discriminate.
Defined.

(** *** More on [aplicar_multiplicador_urgencia] *)

Section UrgencyFacts.

Context (db : Py.unicode_db).

Lemma ajuste_positive nivel multiplicadores contexto score est_name :
  Py.dict_get MULTIPLICADORES_URGENCIA nivel = Some multiplicadores ->
  (0 < score)%Q ->
  (0 < ajuste db multiplicadores (mult_contexto contexto) (score, est_name))%Q.
Proof.
  intros Hn Hs. unfold ajuste. cbn.
  destruct (multiplicador_nivel _ _ _ Hn (get_tipo_respuesta_tag db est_name))
    as (m & -> & Hm). cbn.
  pose proof (mult_ctx_positive db _ est_name (mult_contexto_positive contexto)).
  apply Qmult_lt_0_compat; [apply Qmult_lt_0_compat|]; lra.
Qed.

End UrgencyFacts.

(** X17. At a known level and for scores that are not negative, the adjusted
    scores have the length of the input and lie in [0,1]; a strategy with a
    positive base score keeps a positive score, and then the best adjusted
    score is exactly 1. *)
Theorem aplicar_multiplicador_urgencia_range db scores strategy_names
    nivel_riesgo contexto_escenario multiplicadores :
  Py.dict_get MULTIPLICADORES_URGENCIA nivel_riesgo = Some multiplicadores ->
  Forall (fun s => 0 <= s)%Q scores ->
  let result := aplicar_multiplicador_urgencia db scores strategy_names
                  nivel_riesgo contexto_escenario in
  length result = length scores
  /\ Forall (fun y => 0 <= y /\ y <= 1)%Q result
  /\ forall i score est_name,
       scores !! i = Some score -> strategy_names !! i = Some est_name ->
       (0 < score)%Q ->
       (exists y, result !! i = Some y /\ (0 < y)%Q)
       /\ (exists j y, result !! j = Some y /\ (y == 1)%Q).
Proof.
  intros Hn Hpos result.
  set (raw := scores_ajustados db multiplicadores (mult_contexto contexto_escenario)
                scores strategy_names).
  assert (Hres : result = if Qlt_bool 0 (np_max raw)
                          then map (fun x => (x / np_max raw)%Q) raw else raw)
    by (by apply aplicar_eq).
  assert (Hlen : length raw = length scores) by apply scores_ajustados_length.
  assert (Hraw : Forall (fun x => 0 <= x)%Q raw)
    by (by eapply scores_ajustados_nonneg).
  destruct (decide (raw = [])) as [E|Hne].
  { rewrite Hres, E in *. destruct scores; [|done].
    destruct (Qlt_bool _ _); cbn; repeat split; try constructor; done. }
  destruct (np_max_is_max raw Hne) as [Hi Hm].
  rewrite Forall_forall in Hraw.
  destruct (Qlt_bool 0 (np_max raw)) eqn:E.
  - apply Qlt_bool_iff in E. set (hi := np_max raw) in *.
    assert (0 < / hi)%Q as Hinv by (by apply Qinv_lt_0_compat).
    assert (hi * / hi == 1)%Q as Hone by (apply Qmult_inv_r; lra).
    rewrite Hres. split; [by rewrite length_map|]. split.
    + apply Forall_forall. intros y Hy.
      apply list_elem_of_In, in_map_iff in Hy as (x & <- & Hx).
      apply list_elem_of_In in Hx.
      pose proof (Hraw x Hx). pose proof (Hm x Hx). unfold Qdiv. nra.
    + intros i score est_name Hs Hname Hsc. split.
      * exists (ajuste db multiplicadores (mult_contexto contexto_escenario)
                  (score, est_name) / hi)%Q.
        change (map ?f raw) with (f <$> raw). rewrite list_lookup_fmap.
        unfold raw at 1. erewrite scores_ajustados_lookup by done.
        split; [done|].
        pose proof (ajuste_positive db _ _ contexto_escenario _ est_name Hn Hsc).
        unfold Qdiv. nra.
      * apply list_elem_of_lookup in Hi as [j Hj]. exists j, (hi / hi)%Q.
        change (map ?f raw) with (f <$> raw). rewrite list_lookup_fmap, Hj.
        split; [done|]. unfold Qdiv. lra.
  - assert (~ (0 < np_max raw)%Q) as Hle
      by (intros H; apply Qlt_bool_iff in H; congruence).
    rewrite Hres. split; [done|]. split.
    + apply Forall_forall. intros y Hy.
      pose proof (Hraw y Hy). pose proof (Hm y Hy). split; lra.
    + intros i score est_name Hs Hname Hsc. exfalso.
      pose proof (ajuste_positive db _ _ contexto_escenario _ est_name Hn Hsc).
      assert (raw !! i = Some (ajuste db multiplicadores
                (mult_contexto contexto_escenario) (score, est_name))) as Hl
        by (by apply scores_ajustados_lookup).
      apply list_elem_of_lookup_2 in Hl. pose proof (Hm _ Hl). lra.
Qed.

Lemma aplicar_multiplicador_urgencia_range_witness :
  let result := aplicar_multiplicador_urgencia latin1_db [0.5; 0.25]%Q
                  [est_adulticidas; est_promover] (py "emergencia") None in
  length result = 2%nat
  /\ Forall (fun y => 0 <= y /\ y <= 1)%Q result
  /\ forall i score est_name,
       [0.5; 0.25]%Q !! i = Some score ->
       [est_adulticidas; est_promover] !! i = Some est_name ->
       (0 < score)%Q ->
       (exists y, result !! i = Some y /\ (0 < y)%Q)
       /\ (exists j y, result !! j = Some y /\ (y == 1)%Q).
Proof.
  refine (aplicar_multiplicador_urgencia_range latin1_db [0.5; 0.25]%Q
            [est_adulticidas; est_promover] (py "emergencia") None _ _ _).
  - vm_compute. reflexivity.
  - repeat constructor; vm_compute; discriminate.
Defined.

(** *** Soundness and completeness of the matcher *)

Section MatcherFacts.

Context {A : Type}.

Lemma star_sound p s (k : Py.str -> option A) a :
  Re.star p s k = Some a ->
  exists run s', s = run ++ s' /\ Forall (fun c => p c = true) run
    /\ k s' = Some a.
Proof.
  induction s as [|c s IH]; cbn.
  - intros H. by exists [], [].
  - destruct (p c) eqn:Hc; [|intros H; by exists [], (c :: s)].
    destruct (Re.star p s k) as [a'|] eqn:E.
    + intros [= ->]. destruct (IH eq_refl) as (run & s' & -> & Hrun & Hk).
      exists (c :: run), s'. by repeat split; [constructor|].
    + intros H. by exists [], (c :: s).
Qed.

Lemma star_complete p run s' (k : Py.str -> option A) :
  Forall (fun c => p c = true) run -> is_Some (k s') ->
  is_Some (Re.star p (run ++ s') k).
Proof.
  intros Hrun Hk. induction Hrun as [|c run Hc Hrun IH]; cbn.
  - destruct s' as [|c s']; cbn; [done|].
    destruct (p c); [|done]. by destruct (Re.star p s' k).
  - rewrite Hc. destruct IH as [a ->]. by eexists.
Qed.

Lemma exec_sound r : forall s g (k : Py.str -> Re.match_obj -> option A) a,
  Re.exec r s g k = Some a ->
  exists s' g', matches r s g s' g' /\ k s' g' = Some a.
Proof.
  induction r as [p|p|p|r IH|r1 IH1 r2 IH2|n r IH]; intros s g k a; cbn.
  - destruct s as [|c s]; [done|]. destruct (p c) eqn:Hc; [|done].
    intros H. exists s, g. split; [by constructor|done].
  - intros H. apply star_sound in H as (run & s' & -> & Hrun & Hk).
    exists s', g. split; [by constructor|done].
  - destruct s as [|c s]; [done|]. destruct (p c) eqn:Hc; [|done].
    intros H. apply star_sound in H as (run & s' & -> & Hrun & Hk).
    exists s', g. split; [by constructor|done].
  - destruct (Re.exec r s g k) as [a'|] eqn:E.
    + intros [= ->]. destruct (IH _ _ _ _ E) as (s' & g' & Hm & Hk).
      exists s', g'. split; [by constructor|done].
    + intros H. exists s, g. split; [apply matches_opt_none|done].
  - intros H. destruct (IH1 _ _ _ _ H) as (s1 & g1 & Hm1 & H').
    destruct (IH2 _ _ _ _ H') as (s2 & g2 & Hm2 & Hk).
    exists s2, g2. split; [by econstructor|done].
  - intros H. destruct (IH _ _ _ _ H) as (s' & g' & Hm & Hk).
    eexists s', _. split; [by constructor|done].
Qed.

Lemma exec_complete r s g s' g' :
  matches r s g s' g' ->
  forall k : Py.str -> Re.match_obj -> option A,
  is_Some (k s' g') -> is_Some (Re.exec r s g k).
Proof.
  induction 1 as [p c s g Hc|p run s g Hrun|p c run s g Hc Hrun
                 |r s g s' g' Hm IH|r s g|r1 r2 s g s1 g1 s2 g2 Hm1 IH1 Hm2 IH2
                 |n r s g s' g' Hm IH]; intros k Hk; cbn.
  - by rewrite Hc.
  - by apply star_complete.
  - rewrite Hc. by apply star_complete.
  - destruct (IH k Hk) as [a ->]. by eexists.
  - by destruct (Re.exec r s g k).
  - apply IH1, IH2, Hk.
  - by apply IH.
Qed.

End MatcherFacts.

Lemma search_sound r s m :
  Re.search r s = Some m ->
  exists pre u, s = pre ++ u /\ Re.match_at r u = Some m.
Proof.
  induction s as [|c s IH]; cbn.
  - destruct (Re.match_at r []) eqn:E; [|done]. intros [= ->]. by exists [], [].
  - destruct (Re.match_at r (c :: s)) eqn:E.
    + intros [= ->]. by exists [], (c :: s).
    + intros H. destruct (IH H) as (pre & u & -> & Hu). by exists (c :: pre), u.
Qed.

Lemma search_complete r pre u :
  is_Some (Re.match_at r u) -> is_Some (Re.search r (pre ++ u)).
Proof.
  intros Hu. induction pre as [|c pre IH]; cbn.
  - destruct u; cbn; destruct Hu as [m ->]; by eexists.
  - by destruct (Re.match_at r (c :: pre ++ u)).
Qed.

Lemma match_at_sound r u m :
  Re.match_at r u = Some m -> exists s', matches r u ∅ s' m.
Proof.
  intros H. apply exec_sound in H as (s' & g' & Hm & [= ->]). by exists s'.
Qed.

Lemma match_at_complete r u s' m :
  matches r u ∅ s' m -> is_Some (Re.match_at r u).
Proof. intros H. by eapply exec_complete. Qed.

Ltac inv_matches :=
  repeat match goal with
  | H : matches (Re.Cls _) _ _ _ _ |- _ => inversion H; subst; clear H
  | H : matches (Re.Star _) _ _ _ _ |- _ => inversion H; subst; clear H
  | H : matches (Re.Plus _) _ _ _ _ |- _ => inversion H; subst; clear H
  | H : matches (Re.Opt _) _ _ _ _ |- _ => inversion H; subst; clear H
  | H : matches (_ ⋅ _) _ _ _ _ |- _ => inversion H; subst; clear H
  | H : matches (Re.Grp _ _) _ _ _ _ |- _ => inversion H; subst; clear H
  end.

Section ThresholdFacts.

Context (db : Py.unicode_db).

Lemma matches_number s g s' g' :
  matches (re_number db) s g s' g' ->
  g' = g
  /\ exists num, s = num ++ s' /\ number_text db num
       /\ forall h, matches (re_number db) (num ++ s') h s' h.
Proof.
  unfold re_number. intros H. inv_matches; (split; [done|]).
  - match goal with
    | H : is_char _ ?c0 = true |- _ =>
      unfold is_char in H; apply N.eqb_eq in H; subst c0
    end.
    exists (c :: run ++ [46%N] ++ run0). split; [|split].
    + cbn. by rewrite <- !app_assoc.
    + exists c, run, [46%N], run0. repeat split; auto.
    + intros h. cbn. rewrite <- !app_assoc. cbn.
      econstructor; [by constructor|].
      econstructor; [apply matches_opt_some; by constructor|by constructor].
  - exists (c :: run ++ [] ++ run0). split; [|split].
    + cbn. by rewrite <- !app_assoc.
    + exists c, run, [], run0. repeat split; auto.
    + intros h. cbn. rewrite <- !app_assoc.
      econstructor; [by constructor|].
      econstructor; [apply matches_opt_none|by constructor].
Qed.

Lemma digits_run acc run rest :
  Forall (fun c => Py.isdecimal db c = true) run ->
  exists acc', Py.digits db acc (run ++ rest) = Py.digits db acc' rest.
Proof.
  intros Hrun. revert acc. induction Hrun as [|c run Hc Hrun IH]; intros acc.
  - by exists acc.
  - cbn. unfold Py.isdecimal in Hc.
    destruct (Py.to_decimal db c) as [d|]; [|done]. apply IH.
Qed.

Lemma float_number_text num :
  number_text db num -> exists v, Py.float db num = Ok v /\ (0 <= v)%Q.
Proof.
  intros (c & d1 & dot & d2 & -> & Hc & H1 & Hdot & H2).
  assert (forall n : N, (0 <= inject_Z (Z.of_N n))%Q) as Hpos.
  { intros n. change 0%Q with (inject_Z 0). rewrite <- Zle_Qle. lia. }
  unfold Py.float. rewrite Hc.
  destruct (digits_run 0 (c :: d1) (dot ++ d2)) as [ip Hip]; [by constructor|].
  change (c :: d1 ++ dot ++ d2) with ((c :: d1) ++ dot ++ d2). rewrite Hip.
  destruct Hdot as [->| ->].
  - destruct (digits_run ip d2 [] H2) as [ip' Hip'].
    cbn [app]. rewrite <- (app_nil_r d2), Hip'. cbn. eauto.
  - cbn. destruct (digits_run 0 d2 [] H2) as [fp Hfp].
    rewrite <- (app_nil_r d2), Hfp. cbn. eexists. split; [done|].
    rewrite app_nil_r.
    apply Qle_trans with (inject_Z (Z.of_N ip) + 0)%Q; [rewrite Qplus_0_r; apply Hpos|].
    apply Qplus_le_r. apply Qle_shift_div_l.
    + change 0%Q with (inject_Z 0). rewrite <- Zlt_Qlt.
      assert (0 < 10 ^ N.of_nat (length d2))%N; [|lia].
      apply N.neq_0_lt_0, N.pow_nonzero. done.
    + rewrite Qmult_0_l. apply Hpos.
Qed.

(** What a match of each operator pattern captures. *)
Lemma matches_compound u s' m :
  matches (re_compound db) u ∅ s' m ->
  exists c num,
    is_lt_gt c = true /\ number_text db num
    /\ m = <[2%nat := num]> (<[1%nat := [c]]> ∅).
Proof.
  unfold re_compound. intros H. inv_matches.
  match goal with
  | H : matches (re_number db) _ _ _ _ |- _ =>
    apply matches_number in H as (-> & num & E & Hnum & _)
  end.
  match goal with
  | H : is_lt_gt ?c = true |- _ => exists c, num; split; [exact H|]
  end.
  split; [done|]. subst. rewrite (take_prefix num s' (num ++ s') eq_refl).
  match goal with
  | |- context [take (length (?c :: ?x) - length ?x) (?c :: ?x)] =>
    by rewrite (take_prefix [c] x (c :: x) eq_refl)
  end.
Qed.

Lemma matches_simple u s' m :
  matches (re_simple db) u ∅ s' m ->
  exists c num,
    is_lt_gt c = true /\ number_text db num
    /\ m = <[2%nat := num]> (<[1%nat := [c]]> ∅).
Proof.
  unfold re_simple. intros H. inv_matches.
  match goal with
  | H : matches (re_number db) _ _ _ _ |- _ =>
    apply matches_number in H as (-> & num & E & Hnum & _)
  end.
  match goal with
  | H : is_lt_gt ?c = true |- _ => exists c, num; split; [exact H|]
  end.
  split; [done|]. subst. rewrite (take_prefix num s' (num ++ s') eq_refl).
  match goal with
  | |- context [take (length (?c :: ?x) - length ?x) (?c :: ?x)] =>
    by rewrite (take_prefix [c] x (c :: x) eq_refl)
  end.
Qed.

End ThresholdFacts.

Section ThresholdFacts2.

Context (db : Py.unicode_db).

Lemma matches_bare u s' m :
  matches (re_bare db) u ∅ s' m ->
  exists num, number_text db num /\ m = <[1%nat := num]> ∅.
Proof.
  unfold re_bare. intros H. inv_matches.
  match goal with
  | H : matches (re_number db) _ _ _ _ |- _ =>
    apply matches_number in H as (-> & num & E & Hnum & _)
  end.
  exists num. split; [done|]. subst.
  by rewrite (take_prefix num s' (num ++ s') eq_refl).
Qed.

(** Where the parenthesised pattern matches, the compound or the simple
    pattern matches one character further right. *)
Lemma matches_paren u s' m :
  matches (re_paren db) u ∅ s' m ->
  exists v, u = 40%N :: v
    /\ (is_Some (Re.match_at (re_compound db) v)
        \/ is_Some (Re.match_at (re_simple db) v)).
Proof.
  unfold re_paren. intros H. inv_matches;
    match goal with
    | H : matches (re_number db) _ _ _ _ |- _ =>
      apply matches_number in H as (_ & num & -> & _ & Hnum)
    end;
    match goal with
    | H : is_char 40 ?c = true |- _ =>
      unfold is_char in H; apply N.eqb_eq in H; subst c
    end;
    eexists; (split; [reflexivity|]).
  - left. eapply match_at_complete. unfold re_compound.
    eapply matches_cat; [apply matches_grp; by apply matches_cls|].
    eapply matches_cat; [by apply (matches_star _ [])|]. cbn [app].
    eapply matches_cat; [by apply matches_cls|].
    eapply matches_cat; [by apply matches_star|].
    apply matches_grp, Hnum.
  - right. eapply match_at_complete. unfold re_simple.
    eapply matches_cat; [apply matches_grp; by apply matches_cls|].
    eapply matches_cat; [by apply matches_star|].
    apply matches_grp, Hnum.
Qed.

Lemma search_paren_None t :
  Re.search (re_compound db) t = None -> Re.search (re_simple db) t = None ->
  Re.search (re_paren db) t = None.
Proof.
  intros H1 H2. destruct (Re.search (re_paren db) t) as [m|] eqn:E; [|done].
  exfalso. apply search_sound in E as (pre & u & -> & Hu).
  apply match_at_sound in Hu as (s' & Hm).
  apply matches_paren in Hm as (v & -> & [Hv|Hv]).
  - apply (search_complete _ (pre ++ [40%N])) in Hv.
    rewrite <- app_assoc in Hv. destruct Hv as [m' Hv].
    pose proof (eq_trans (eq_sym Hv) H1). discriminate.
  - apply (search_complete _ (pre ++ [40%N])) in Hv.
    rewrite <- app_assoc in Hv. destruct Hv as [m' Hv].
    pose proof (eq_trans (eq_sym Hv) H2). discriminate.
Qed.

Lemma is_lt_gt_cases c : is_lt_gt c = true -> c = 60%N \/ c = 62%N.
Proof. unfold is_lt_gt. intros H. apply orb_true_iff in H as [H|H]; apply N.eqb_eq in H; auto. Qed.

Lemma search_compound_result t m :
  Re.search (re_compound db) t = Some m ->
  exists c num v,
    (c = 60%N \/ c = 62%N)
    /\ Re.group m 1 = Ok [c] /\ Re.group m 2 = Ok num
    /\ Py.float db num = Ok v /\ (0 <= v)%Q.
Proof.
  intros H. apply search_sound in H as (pre & u & -> & Hu).
  apply match_at_sound in Hu as (s' & Hm).
  apply matches_compound in Hm as (c & num & Hc & Hnum & ->).
  destruct (float_number_text db num Hnum) as (v & Hv & Hpos).
  exists c, num, v. split; [by apply is_lt_gt_cases|].
  unfold Re.group. rewrite lookup_insert_eq.
  rewrite lookup_insert_ne by done. rewrite lookup_insert_eq. done.
Qed.

Lemma search_simple_result t m :
  Re.search (re_simple db) t = Some m ->
  exists c num v,
    (c = 60%N \/ c = 62%N)
    /\ Re.group m 1 = Ok [c] /\ Re.group m 2 = Ok num
    /\ Py.float db num = Ok v /\ (0 <= v)%Q.
Proof.
  intros H. apply search_sound in H as (pre & u & -> & Hu).
  apply match_at_sound in Hu as (s' & Hm).
  apply matches_simple in Hm as (c & num & Hc & Hnum & ->).
  destruct (float_number_text db num Hnum) as (v & Hv & Hpos).
  exists c, num, v. split; [by apply is_lt_gt_cases|].
  unfold Re.group. rewrite lookup_insert_eq.
  rewrite lookup_insert_ne by done. rewrite lookup_insert_eq. done.
Qed.

Lemma search_bare_result t m :
  Re.search (re_bare db) t = Some m ->
  exists num v,
    Re.group m 1 = Ok num /\ Py.float db num = Ok v /\ (0 <= v)%Q.
Proof.
  intros H. apply search_sound in H as (pre & u & -> & Hu).
  apply match_at_sound in Hu as (s' & Hm).
  apply matches_bare in Hm as (num & Hnum & ->).
  destruct (float_number_text db num Hnum) as (v & Hv & Hpos).
  exists num, v. unfold Re.group. by rewrite lookup_insert_eq.
Qed.

Lemma first_number_None s :
  first_number db s = None -> forall c, c ∈ s -> Py.isdecimal db c = false.
Proof.
  induction s as [|c s IH]; cbn; [intros _ c Hc; by apply elem_of_nil in Hc|].
  destruct (Py.isdecimal db c) eqn:E; [done|].
  intros H c' Hc'. apply elem_of_cons in Hc' as [->|Hc']; auto.
Qed.

(** The two outcomes of [parse_threshold]. *)
Lemma parse_threshold_cases s :
  (parse_threshold db s = Ok (None, None)
   /\ forall c, c ∈ normalise_text db s -> Py.isdecimal db c = false)
  \/ exists op v,
       parse_threshold db s = Ok (Some op, Some v)
       /\ supported_op op /\ (0 <= v)%Q.
Proof.
  unfold parse_threshold. destruct s as [|c0 s0].
  { left. split; [done|]. intros c Hc. by apply elem_of_nil in Hc. }
  set (t := normalise_text db (c0 :: s0)). cbn [first_pattern patterns].
  destruct (Re.search (re_compound db) t) as [m|] eqn:E1.
  { right. destruct (search_compound_result _ _ E1)
      as (c & num & v & Hc & -> & -> & Hv & Hpos).
    simpl_result. rewrite Hv. cbn [fst snd].
    destruct Hc as [-> | ->]; eexists _, v; (split; [reflexivity|]);
      (split; [|done]); vm_compute; auto. }
  destruct (Re.search (re_simple db) t) as [m|] eqn:E2.
  { right. destruct (search_simple_result _ _ E2)
      as (c & num & v & Hc & -> & -> & Hv & Hpos).
    simpl_result. rewrite Hv. cbn [fst snd].
    destruct Hc as [-> | ->]; eexists _, v; (split; [reflexivity|]);
      (split; [|done]); vm_compute; auto. }
  rewrite (search_paren_None t E1 E2).
  destruct (Re.search (re_bare db) t) as [m|] eqn:E4.
  - right. destruct (search_bare_result _ _ E4) as (num & v & -> & Hv & Hpos).
    simpl_result. rewrite Hv. exists (py ">="), v. split; [done|].
    split; [|done]. vm_compute; auto.
  - left. split; [done|]. apply first_number_None.
    rewrite search_bare in E4. by destruct (first_number db t).
Qed.

Lemma elem_of_lstrip_keep c s :
  c ∈ s -> Py.isspace db c = false -> c ∈ Py.lstrip db s.
Proof.
  intros Hc Hsp. induction s as [|d s IH]; [done|]. cbn.
  destruct (Py.isspace db d) eqn:E; [|done].
  apply elem_of_cons in Hc as [->|Hc]; [congruence|auto].
Qed.

Lemma elem_of_strip_keep c s :
  c ∈ s -> Py.isspace db c = false -> c ∈ Py.strip db s.
Proof.
  intros Hc Hsp. unfold Py.strip, Py.rstrip.
  apply elem_of_rev, elem_of_lstrip_keep; [|done].
  by apply elem_of_rev, elem_of_lstrip_keep.
Qed.

Lemma elem_of_replace_keep c old new s :
  c ∈ s -> c <> old -> c ∈ Py.replace old new s.
Proof.
  intros Hc Hne. unfold Py.replace. apply list_elem_of_In, in_flat_map.
  exists c. split; [by apply list_elem_of_In|].
  apply N.eqb_neq in Hne. rewrite Hne. by left.
Qed.

Lemma ascii_digit_kept c s :
  c ∈ s -> (48 <= c <= 57)%N ->
  c ∈ normalise_text db s /\ Py.isdecimal db c = true.
Proof.
  intros Hc Hd.
  assert (Py.is_ascii c = true) as Ha by (apply N.ltb_lt; lia).
  split.
  - unfold normalise_text.
    apply elem_of_replace_keep; [|lia]. apply elem_of_replace_keep; [|lia].
    apply elem_of_strip_keep; [done|]. unfold Py.isspace. rewrite Ha.
    unfold Py.ascii_isspace.
    apply orb_false_iff. split; apply andb_false_iff.
    + right. apply N.leb_gt. lia.
    + right. apply N.leb_gt. lia.
  - unfold Py.isdecimal, Py.to_decimal. rewrite Ha.
    assert (((48 <=? c) && (c <=? 57))%N = true) as ->; [|done].
    apply andb_true_iff. split; apply N.leb_le; lia.
Qed.

End ThresholdFacts2.

(** X1. [parse_threshold] never raises: it returns (None, None) or one of the
    four operators [check_condition] supports with a value that is not
    negative, so [check_condition] never raises on what it returns. *)
Theorem parse_threshold_total db s :
  parse_threshold db s = Ok (None, None)
  \/ exists op v,
       parse_threshold db s = Ok (Some op, Some v)
       /\ supported_op op /\ (0 <= v)%Q
       /\ forall value, exists b, check_condition value op v = Ok b.
Proof.
  destruct (parse_threshold_cases db s) as [[H _]|(op & v & H & Hop & Hv)];
    [by left|right].
  exists op, v. repeat split; try done.
  intros [value|]; [|by exists false].
  destruct (check_condition_cases value op v)
    as [[_ E]|[[_ E]|[[_ E]|[[_ E]|[Hn _]]]]]; [by eexists..|done].
Qed.

(** X2. [parse_threshold] returns (None, None) exactly when the stripped text
    with the glyphs replaced has no decimal digit; a text with one of the
    digits 0 to 9 always gets an operator and a value. *)
Theorem parse_threshold_none_iff db s :
  (parse_threshold db s = Ok (None, None)
   <-> forall c, c ∈ normalise_text db s -> Py.isdecimal db c = false)
  /\ (forall c, c ∈ s -> (48 <= c <= 57)%N ->
      exists op v, parse_threshold db s = Ok (Some op, Some v)).
Proof.
  assert (Hiff : parse_threshold db s = Ok (None, None)
    <-> forall c, c ∈ normalise_text db s -> Py.isdecimal db c = false).
  { split.
    - intros H. destruct (parse_threshold_cases db s)
        as [[_ Hd]|(op & v & H' & _)]; [done|congruence].
    - intros Hd. unfold parse_threshold. destruct s as [|c0 s0]; [done|].
      cbn [first_pattern patterns].
      rewrite (no_digit_no_match db _ _ (demands_compound db) Hd).
      rewrite (no_digit_no_match db _ _ (demands_simple db) Hd).
      rewrite (no_digit_no_match db _ _ (demands_paren db) Hd).
      by rewrite (no_digit_no_match db _ _ (demands_bare db) Hd). }
  split; [done|].
  intros c Hc Hd. destruct (ascii_digit_kept db c s Hc Hd) as [Ht Hdec].
  destruct (parse_threshold_cases db s) as [[_ Hn]|(op & v & H & _)]; [|eauto].
  specialize (Hn c Ht). congruence.
Qed.

(** X3. The parenthesised pattern never decides: wherever it matches, the
    compound or the simple pattern matches as well and is tried first, so
    dropping it from the list changes no result. *)
Theorem paren_pattern_never_decides db t :
  (Re.search (re_paren db) t <> None ->
   Re.search (re_compound db) t <> None \/ Re.search (re_simple db) t <> None)
  /\ first_pattern (patterns db) t = first_pattern (take 2 (patterns db)) t.
Proof.
  split.
  - intros H.
    destruct (Re.search (re_compound db) t) eqn:E1; [by left|].
    destruct (Re.search (re_simple db) t) eqn:E2; [by right|].
    by rewrite (search_paren_None db t E1 E2) in H.
  - cbn [first_pattern patterns take].
    destruct (Re.search (re_compound db) t) eqn:E1; [done|].
    destruct (Re.search (re_simple db) t) eqn:E2; [done|].
    by rewrite (search_paren_None db t E1 E2).
Qed.

(** *** White space around a threshold text *)

Section StripFacts.

Context (db : Py.unicode_db).

Lemma lstrip_head s :
  match Py.lstrip db s with
  | [] => True
  | c :: _ => Py.isspace db c = false
  end.
Proof.
  induction s as [|c s IH]; cbn; [done|].
  destruct (Py.isspace db c) eqn:E; [done|]. cbn. done.
Qed.

Lemma lstrip_fixed s :
  match s with [] => True | c :: _ => Py.isspace db c = false end ->
  Py.lstrip db s = s.
Proof. destruct s as [|c s]; cbn; [done|]. by intros ->. Qed.

Lemma lstrip_idem s : Py.lstrip db (Py.lstrip db s) = Py.lstrip db s.
Proof. apply lstrip_fixed, lstrip_head. Qed.

Lemma lstrip_snoc l c :
  Py.isspace db c = false -> Py.lstrip db (l ++ [c]) = Py.lstrip db l ++ [c].
Proof.
  intros Hc. induction l as [|d l IH]; cbn; [by rewrite Hc|].
  by destruct (Py.isspace db d).
Qed.

Lemma rstrip_cons c s :
  Py.isspace db c = false -> Py.rstrip db (c :: s) = c :: Py.rstrip db s.
Proof.
  intros Hc. unfold Py.rstrip. cbn [rev].
  by rewrite lstrip_snoc, rev_app_distr.
Qed.

Lemma rstrip_idem s : Py.rstrip db (Py.rstrip db s) = Py.rstrip db s.
Proof. unfold Py.rstrip. by rewrite rev_involutive, lstrip_idem. Qed.

Lemma strip_idem s : Py.strip db (Py.strip db s) = Py.strip db s.
Proof.
  unfold Py.strip.
  assert (Py.lstrip db (Py.rstrip db (Py.lstrip db s))
          = Py.rstrip db (Py.lstrip db s)) as ->; [|apply rstrip_idem].
  pose proof (lstrip_head s) as H.
  destruct (Py.lstrip db s) as [|c y]; [done|].
  rewrite rstrip_cons by done. cbn. by rewrite H.
Qed.

Lemma normalise_text_strip s :
  normalise_text db (Py.strip db s) = normalise_text db s.
Proof. unfold normalise_text. by rewrite strip_idem. Qed.

End StripFacts.

(** X4. White space before and after a threshold text does not change what
    [parse_threshold] returns; a text of white space alone gives
    (None, None). *)
Theorem parse_threshold_strip db s :
  parse_threshold db (Py.strip db s) = parse_threshold db s
  /\ (Py.strip db s = [] -> parse_threshold db s = Ok (None, None)).
Proof.
  assert (Hblank : Py.strip db s = [] -> parse_threshold db s = Ok (None, None)).
  { intros E. unfold parse_threshold. destruct s as [|c0 s0]; [done|].
    unfold normalise_text. rewrite E. reflexivity. }
  split; [|done].
  destruct (Py.strip db s) as [|c t] eqn:E; [by rewrite Hblank|].
  pose (body := fun u : Py.str =>
    match first_pattern (patterns db) u with
    | Some r => p ← r; Ok (Some p.1, Some p.2)
    | None =>
      match Re.search (re_bare db) u with
      | Some number_match =>
        g1 ← Re.group number_match 1; v ← Py.float db g1;
        Ok (Some (py ">="), Some v)
      | None => Ok (None, None)
      end
    end).
  assert (Hbody : forall x, x <> [] ->
            parse_threshold db x = body (normalise_text db x))
    by (by intros [|]).
  rewrite !Hbody; [|by intros ->|done].
  by rewrite <- E, normalise_text_strip.
Qed.

(** *** The compliance of a strategy *)







Section Compliance.

Context (indicator_values : gmap Py.str Q)
        (indicator_thresholds : option (gmap Py.str threshold_config)).

Lemma cell_Ok rules ind c :
  cell indicator_values indicator_thresholds (rule_by_ind rules) ind = Ok c ->
  c = cell_value indicator_values indicator_thresholds rules ind.
Proof.
  unfold cell, cell_value. rewrite rule_by_ind_get.
  destruct (last_rule None rules ind) as [r|] eqn:E; [|by intros [= <-]].
  assert (indicator r = ind) as Hr.
  { apply last_rule_Some in E as [[? _]|(l1 & l2 & _ & H & _)]; done. }
  unfold contribution, activates. rewrite Hr.
  destruct (indicator_values !! ind) as [val|]; [|by intros [= <-]].
  destruct (threshold_of indicator_thresholds ind) as [tc|]; [|by intros [= <-]].
  simpl_result. destruct (check_condition _ _ _) as [ok|]; [|done].
  intros [= <-]. by destruct ok.
Qed.



Lemma contribution_bounds r :
  (0 <= weight r)%Q ->
  (0 <= contribution indicator_values indicator_thresholds r <= weight r)%Q.
Proof.
  intros H. unfold contribution. destruct (activates _ _ _); lra.
Qed.

End Compliance.





(** *** [load_strategies_from_xlsx] *)

Lemma foldM_inv {S B} (P : S -> Prop) (f : S -> B -> Py.result S) l : forall s,
  P s ->
  (forall s x, P s -> x ∈ l -> exists s', f s x = Ok s' /\ P s') ->
  exists s', foldM f s l = Ok s' /\ P s'.
Proof.
  induction l as [|x l IH]; intros s Hs Hf; cbn; [by exists s|].
  destruct (Hf s x Hs) as (s1 & -> & Hs1); [left|]. simpl_result.
  apply IH; [done|]. intros s2 y Hs2 Hy. apply Hf; [done|by right].
Qed.

Lemma unique_elem x l : x ∈ unique l <-> x ∈ l.
Proof.
  induction l as [|y l IH]; cbn; [done|].
  rewrite !elem_of_cons, list_elem_of_filter, IH.
  destruct (decide (x = y)) as [->|Hne]; [split; auto|].
  split; [intros [?|[_ ?]]; auto|intros [?|?]; auto].
Qed.

Lemma unique_NoDup l : NoDup (unique l).
Proof.
  induction l as [|y l IH]; cbn; [constructor|].
  constructor; [|by apply NoDup_filter].
  rewrite list_elem_of_filter. by intros [H _].
Qed.

Lemma dict_set_fresh {V} (d : Py.dict V) k v :
  k ∉ map fst d -> Py.dict_set d k v = d ++ [(k, v)].
Proof.
  induction d as [|[k' v'] d IH]; cbn; [done|].
  intros H. apply not_elem_of_cons in H as [Hne H].
  unfold Py.eqb. rewrite bool_decide_eq_false_2 by done. by rewrite IH.
Qed.

(** The order of [str] is a total order. *)
Lemma str_leb_refl a : str_leb a a = true.
Proof.
  induction a as [|x a IH]; cbn; [done|].
  by rewrite N.eqb_refl, IH, orb_true_r.
Qed.

Lemma str_leb_total a b : str_leb a b = true \/ str_leb b a = true.
Proof.
  revert b. induction a as [|x a IH]; intros [|y b]; cbn; auto.
  destruct (N.lt_trichotomy x y) as [H|[->|H]].
  - left. apply N.ltb_lt in H. by rewrite H.
  - rewrite N.ltb_irrefl, N.eqb_refl. cbn. apply IH.
  - right. apply N.ltb_lt in H. by rewrite H.
Qed.

Lemma str_leb_trans a b c :
  str_leb a b = true -> str_leb b c = true -> str_leb a c = true.
Proof.
  revert b c. induction a as [|x a IH]; intros [|y b] [|z c]; cbn; try done.
  rewrite !orb_true_iff, !andb_true_iff, !N.ltb_lt, !N.eqb_eq.
  intros [H1|[-> H1]] [H2|[-> H2]].
  - left. lia.
  - by left.
  - by left.
  - right. split; [done|]. by eapply IH.
Qed.

Lemma str_leb_antisym a b :
  str_leb a b = true -> str_leb b a = true -> a = b.
Proof.
  revert b. induction a as [|x a IH]; intros [|y b]; cbn; try done.
  rewrite !orb_true_iff, !andb_true_iff, !N.ltb_lt, !N.eqb_eq.
  intros [H1|[-> H1]] [H2|[H2 H3]]; try lia.
  f_equal. by apply IH.
Qed.

#[export] Instance str_le_total : Total str_le.
Proof. intros a b. apply str_leb_total. Qed.

#[export] Instance str_le_trans : Transitive str_le.
Proof. intros a b c. apply str_leb_trans. Qed.

Lemma sorted_spec l :
  sorted l ≡ₚ l /\ StronglySorted str_le (sorted l).
Proof.
  split; [apply merge_sort_Permutation|apply StronglySorted_merge_sort; apply _].
Qed.

Lemma dict_get_map {V} (f : Py.str -> V) ests est :
  Py.dict_get (map (fun e => (e, f e)) ests) est
  = if bool_decide (est ∈ ests) then Some (f est) else None.
Proof.
  induction ests as [|e ests IH]; cbn; [done|]. unfold Py.eqb.
  destruct (decide (est = e)) as [->|Hne].
  - rewrite !bool_decide_eq_true_2; [done|left|done].
  - rewrite bool_decide_eq_false_2 by done. rewrite IH.
    destruct (decide (est ∈ ests)).
    + rewrite !bool_decide_eq_true_2; [done|by right|done].
    + rewrite !bool_decide_eq_false_2; [done| |done].
      intros [?|?]%elem_of_cons; congruence.
Qed.

Lemma build_indicator_matrix_total indicator_values strategies_config indicators
    indicator_thresholds :
  valid_thresholds indicator_thresholds ->
  exists matrix,
    build_indicator_matrix indicator_values strategies_config indicators
      indicator_thresholds = Ok (matrix, map fst strategies_config).
Proof.
  intros Hv. unfold build_indicator_matrix.
  destruct (mapM_total
    (fun est => match Py.dict_get strategies_config est with
                | Some rules =>
                  Py.mapM (cell indicator_values indicator_thresholds
                             (rule_by_ind rules)) indicators
                | None => Raise Py.KeyError
                end) (map fst strategies_config)) as [matrix E].
  { intros est Hest. destruct (dict_get_key _ _ Hest) as [rules ->].
    apply mapM_total. intros ind _. by apply cell_total. }
  exists matrix. simpl_result. by rewrite E.
Qed.

Section LoaderFacts.

Context (db : Py.unicode_db).

Lemma parse_cell_has_number umbral :
  if has_number db umbral
  then exists op v, parse_cell db umbral = Ok (Some op, Some v)
         /\ supported_op op /\ (0 <= v)%Q
  else parse_cell db umbral = Ok (None, None).
Proof.
  destruct umbral as [s|]; [|done]. cbn.
  destruct (existsb _ _) eqn:E.
  - apply existsb_exists in E as (c & Hc & Hd). apply list_elem_of_In in Hc.
    destruct (parse_threshold_cases db s) as [[_ Hn]|H]; [|done].
    specialize (Hn c Hc). congruence.
  - destruct (parse_threshold_cases db s) as [[H _]|(op & v & H & _)]; [done|].
    exfalso.
    assert (forall c, c ∈ normalise_text db s -> Py.isdecimal db c = false) as Hn.
    { intros c Hc. destruct (Py.isdecimal db c) eqn:Hd; [|done].
      assert (existsb (Py.isdecimal db) (normalise_text db s) = true)
        by (apply existsb_exists; exists c; by rewrite <- list_elem_of_In).
      congruence. }
    revert H. unfold parse_threshold. destruct s as [|c0 s0]; [done|].
    cbn [first_pattern patterns].
    rewrite (no_digit_no_match db _ _ (demands_compound db) Hn).
    rewrite (no_digit_no_match db _ _ (demands_simple db) Hn).
    rewrite (no_digit_no_match db _ _ (demands_paren db) Hn).
    by rewrite (no_digit_no_match db _ _ (demands_bare db) Hn).
Qed.

Lemma thresholds_after_nil thr : thresholds_after db [] thr thr.
Proof.
  split; [done|]. intros ind. split; [by left|].
  intros [H|(row & Hrow & _)]; [done|]. by apply elem_of_nil in Hrow.
Qed.

Lemma thresholds_after_app rows1 rows2 thr0 thr1 thr2 :
  thresholds_after db rows1 thr0 thr1 -> thresholds_after db rows2 thr1 thr2 ->
  thresholds_after db (rows1 ++ rows2) thr0 thr2.
Proof.
  intros [H1 H1'] [H2 H2']. split; [auto|].
  intros ind. rewrite H2', H1'. split.
  - intros [[H|(row & Hrow & H)]|(row & Hrow & H)]; [by left|right..];
      exists row; (split; [|done]); apply elem_of_app; auto.
  - intros [H|(row & Hrow & H)]; [by left; left|].
    apply elem_of_app in Hrow as [Hrow|Hrow]; [left; right|right]; by exists row.
Qed.

Lemma load_row_Ok rules thr row :
  exists thr',
    load_row db (rules, thr) row = Ok (rules ++ [row_rule row], thr')
    /\ thresholds_after db [row] thr thr'.
Proof.
  unfold load_row.
  change (match Peso row with Some p => p | None => 0%Q end)
    with (default 0%Q (Peso row)).
  fold (row_rule row).
  pose proof (parse_cell_has_number (Umbral row)) as Hp.
  destruct (has_number db (Umbral row)) eqn:E.
  - destruct Hp as (op & v & -> & Hop & Hv). simpl_result.
    eexists. split; [done|]. split.
    + intros Hthr. apply map_Forall_insert_2; [|done]. by exists op, v.
    + intros ind. destruct (decide (Indicador row = ind)) as [<-|Hne].
      * rewrite lookup_insert_eq. split; [|by eexists].
        intros _. right. exists row. by split; [left|].
      * rewrite lookup_insert_ne by done. split; [by left|].
        intros [H|(row' & Hrow & H & _)]; [done|].
        apply list_elem_of_singleton in Hrow as ->. done.
  - rewrite Hp. simpl_result. exists thr. split; [done|]. split; [done|].
    intros ind. split; [by left|].
    intros [H|(row' & Hrow & _ & H)]; [done|].
    apply list_elem_of_singleton in Hrow as ->. congruence.
Qed.

Lemma load_rows_Ok rows : forall rules thr,
  exists thr',
    foldM (load_row db) (rules, thr) rows = Ok (rules ++ map row_rule rows, thr')
    /\ thresholds_after db rows thr thr'.
Proof.
  induction rows as [|row rows IH]; intros rules thr; cbn [foldM map].
  - exists thr. rewrite app_nil_r. split; [done|apply thresholds_after_nil].
  - destruct (load_row_Ok rules thr row) as (thr1 & -> & H1). simpl_result.
    destruct (IH (rules ++ [row_rule row]) thr1) as (thr2 & -> & H2).
    exists thr2. rewrite <- app_assoc. split; [done|].
    by apply (thresholds_after_app [row] rows thr thr1 thr2).
Qed.

Lemma load_strategy_eq df cfg thr est :
  load_strategy db df (cfg, thr) est
  = (r ← foldM (load_row db) ([], thr)
         (filter (fun row => Estrategia row = est) df);
     Ok (Py.dict_set cfg est r.1, r.2)).
Proof. reflexivity. Qed.

Lemma load_strategies_Ok df ests : forall cfg thr,
  NoDup (map fst cfg ++ ests) ->
  exists thr',
    foldM (load_strategy db df) (cfg, thr) ests
    = Ok (cfg ++ map (fun est => (est, rules_of df est)) ests, thr')
    /\ thresholds_after db (rows_of df ests) thr thr'.
Proof.
  induction ests as [|est ests IH]; intros cfg thr Hnd; cbn [foldM map].
  - exists thr. rewrite app_nil_r. split; [done|apply thresholds_after_nil].
  - rewrite load_strategy_eq.
    destruct (load_rows_Ok (filter (fun row => Estrategia row = est) df) [] thr)
      as (thr1 & -> & H1). simpl_result. cbn [fst snd app].
    rewrite dict_set_fresh.
    2:{ apply NoDup_app in Hnd as (_ & Hd & _). intros H. apply (Hd _ H). left. }
    fold (rules_of df est).
    destruct (IH (cfg ++ [(est, rules_of df est)]) thr1) as (thr2 & E & H2).
    + rewrite map_app. cbn. by rewrite <- app_assoc.
    + exists thr2. split.
      * etrans; [exact E|]. by rewrite <- app_assoc.
      * by apply (thresholds_after_app _ (rows_of df ests) thr thr1 thr2).
Qed.

Lemma rows_of_unique df row :
  row ∈ rows_of df (unique (map Estrategia df)) <-> row ∈ df.
Proof.
  unfold rows_of. rewrite list_elem_of_In, in_concat. split.
  - intros (l & Hl & Hrow). apply in_map_iff in Hl as (est & <- & _).
    apply list_elem_of_In, list_elem_of_filter in Hrow. tauto.
  - intros Hrow. exists (filter (fun r => Estrategia r = Estrategia row) df).
    split.
    + apply in_map_iff. exists (Estrategia row). split; [done|].
      apply list_elem_of_In, unique_elem, list_elem_of_In, in_map.
      by apply list_elem_of_In.
    + apply list_elem_of_In, list_elem_of_filter. by split.
Qed.

Lemma load_strategies_from_xlsx_Ok df :
  exists thr,
    load_strategies_from_xlsx db df
    = Ok (map (fun est => (est, rules_of df est)) (unique (map Estrategia df)),
          sorted (unique (map Indicador df)), thr)
    /\ thresholds_after db df ∅ thr.
Proof.
  unfold load_strategies_from_xlsx.
  destruct (load_strategies_Ok df (unique (map Estrategia df)) [] ∅)
    as (thr & -> & [H1 H2]); [apply unique_NoDup|].
  exists thr. split; [done|]. split; [done|].
  intros ind. rewrite H2. by setoid_rewrite rows_of_unique.
Qed.

End LoaderFacts.

(** X5. On a data frame whose name cells are texts, whose weight cells are
    numbers or empty and whose threshold cells are texts or empty, every entry
    of the threshold table [load_strategies_from_xlsx] returns has both keys,
    an operator [check_condition] supports and a value that is not negative;
    and on the configuration, the indicators and the table it returns,
    [build_indicator_matrix] returns a matrix with the strategies in the
    order of the configuration, whatever the indicator values. *)
Theorem loaded_configuration_evaluates db df strategies_config indicators
    indicator_thresholds :
  load_strategies_from_xlsx db df
  = Ok (strategies_config, indicators, indicator_thresholds) ->
  (forall ind tc, indicator_thresholds !! ind = Some tc -> loaded_entry tc)
  /\ supported_table (Some indicator_thresholds)
  /\ forall indicator_values,
       exists matrix,
         build_indicator_matrix indicator_values strategies_config indicators
           (Some indicator_thresholds)
         = Ok (matrix, map fst strategies_config).
Proof.
  intros Hload.
  destruct (load_strategies_from_xlsx_Ok db df) as (thr & E & [Hthr _]).
  specialize (Hthr (map_Forall_empty _)).
  assert (indicator_thresholds = thr) as -> by congruence.
  split; [intros ind tc Htc; by apply (Hthr ind tc)|].
  assert (Hsup : supported_table (Some thr)).
  { intros table ind entry [= <-] Hentry.
    by destruct (Hthr ind entry Hentry) as (op & v & -> & Hop & _). }
  split; [exact Hsup|].
  intros indicator_values.
  by apply build_indicator_matrix_total, supported_table_valid.
Qed.

Lemma loaded_configuration_evaluates_witness :
  let strategies_config :=
    [ (py "E1", [ {| indicator := py "IB"; weight := 3%Q |};
                  {| indicator := py "IA"; weight := 1%Q |} ]);
      (py "E2", [ {| indicator := py "IA"; weight := 0%Q |} ]) ] in
  let indicators := [py "IA"; py "IB"] in
  let indicator_thresholds : gmap Py.str threshold_config :=
    <[py "IB" := {| tc_op := Some (py ">"); tc_threshold := Some 20%Q |}]> ∅ in
  load_strategies_from_xlsx latin1_db ejemplo_sheet
  = Ok (strategies_config, indicators, indicator_thresholds)
  /\ build_indicator_matrix ejemplo_values strategies_config indicators
       (Some indicator_thresholds)
     = Ok ([[1; 3]; [0; 0]]%Q, [py "E1"; py "E2"])
  /\ (forall ind tc, indicator_thresholds !! ind = Some tc -> loaded_entry tc)
  /\ supported_table (Some indicator_thresholds)
  /\ forall indicator_values,
       exists matrix,
         build_indicator_matrix indicator_values strategies_config indicators
           (Some indicator_thresholds)
         = Ok (matrix, map fst strategies_config).
Proof.
  intros strategies_config indicators indicator_thresholds.
  assert (E : load_strategies_from_xlsx latin1_db ejemplo_sheet
              = Ok (strategies_config, indicators, indicator_thresholds))
    by (vm_compute; reflexivity).
  split; [exact E|]. split; [vm_compute; reflexivity|].
  exact (loaded_configuration_evaluates latin1_db ejemplo_sheet strategies_config
           indicators indicator_thresholds E).
Defined.

(** X6. The configuration [load_strategies_from_xlsx] returns lists the
    strategies once each in the order of their first row, gives each the
    rules of its rows in the order of the sheet with 0 for a missing weight,
    and returns the indicators without repetition in ascending order, every
    indicator of a rule among them. *)
Theorem loaded_configuration_structure db df :
  exists strategies_config indicators indicator_thresholds,
    load_strategies_from_xlsx db df
    = Ok (strategies_config, indicators, indicator_thresholds)
    /\ map fst strategies_config = unique (map Estrategia df)
    /\ NoDup (map fst strategies_config)
    /\ (forall est,
          Py.dict_get strategies_config est
          = if bool_decide (est ∈ map Estrategia df)
            then Some (rules_of df est) else None)
    /\ NoDup indicators
    /\ StronglySorted str_le indicators
    /\ (forall ind, ind ∈ indicators <-> ind ∈ map Indicador df)
    /\ (forall est rules r,
          Py.dict_get strategies_config est = Some rules -> r ∈ rules ->
          indicator r ∈ indicators).
Proof.
  destruct (load_strategies_from_xlsx_Ok db df) as (thr & E & _).
  set (ests := unique (map Estrategia df)) in *.
  destruct (sorted_spec (unique (map Indicador df))) as [Hp Hs].
  assert (Hget : forall est,
    Py.dict_get (map (fun est => (est, rules_of df est)) ests) est
    = if bool_decide (est ∈ map Estrategia df)
      then Some (rules_of df est) else None).
  { intros est. rewrite dict_get_map. unfold ests.
    destruct (decide (est ∈ map Estrategia df)) as [H|H].
    - rewrite !bool_decide_eq_true_2; [done..|by apply unique_elem].
    - rewrite !bool_decide_eq_false_2; [done..|by rewrite unique_elem]. }
  assert (Hin : forall ind, ind ∈ sorted (unique (map Indicador df))
                            <-> ind ∈ map Indicador df).
  { intros ind. by rewrite Hp, unique_elem. }
  eexists _, _, thr. split; [exact E|].
  assert (map fst (map (fun est => (est, rules_of df est)) ests) = ests) as Hfst.
  { rewrite map_map. cbn. apply map_id. }
  rewrite Hfst. split; [done|]. split; [apply unique_NoDup|].
  split; [done|]. split; [rewrite Hp; apply unique_NoDup|].
  split; [done|]. split; [done|].
  intros est rules r Hrules Hr. rewrite Hget in Hrules.
  destruct (bool_decide _); [|done]. injection Hrules as <-.
  apply Hin. unfold rules_of in Hr.
  apply list_elem_of_In, in_map_iff in Hr as (row & <- & Hrow). cbn.
  apply list_elem_of_In, in_map.
  apply list_elem_of_In, list_elem_of_filter in Hrow as [_ Hrow].
  by apply list_elem_of_In.
Qed.

(** X7. An indicator has an entry in the threshold table exactly when the
    threshold cell of one of its rows holds a text with a decimal digit;
    without an entry, [build_indicator_matrix] writes the weight of the
    indicator in the cell of every strategy with a rule for it, whenever the
    indicator has a value. *)
Theorem loaded_thresholds_domain db df :
  exists strategies_config indicators indicator_thresholds,
    load_strategies_from_xlsx db df
    = Ok (strategies_config, indicators, indicator_thresholds)
    /\ (forall ind,
          is_Some (indicator_thresholds !! ind)
          <-> exists row, row ∈ df /\ Indicador row = ind
                /\ has_number db (Umbral row) = true)
    /\ (forall ind indicator_values rules r val,
          indicator_thresholds !! ind = None ->
          Py.dict_get (rule_by_ind rules) ind = Some r ->
          indicator_values !! ind = Some val ->
          cell indicator_values (Some indicator_thresholds) (rule_by_ind rules) ind
          = Ok (weight r)).
Proof.
  destruct (load_strategies_from_xlsx_Ok db df) as (thr & E & [_ Hdom]).
  eexists _, _, thr. split; [exact E|]. split.
  - intros ind. rewrite Hdom. split; [|auto].
    intros [H|H]; [|done]. rewrite lookup_empty in H. by destruct H.
  - intros ind values rules r val Hnone Hr Hval. unfold cell.
    rewrite Hr, Hval.
    change (threshold_of (Some thr) ind) with (thr !! ind). by rewrite Hnone.
Qed.

(** *** [build_mcda_matrix] *)

Lemma normalize_criterion_length values maximize :
  length (normalize_criterion values maximize) = length values.
Proof.
  destruct (decide (values = [])) as [->|Hne]; [done|].
  destruct (normalize_criterion_cases values maximize Hne) as [[_ ->]|[_ ->]];
    by rewrite length_map.
Qed.

Lemma normalize_criterion_range values maximize :
  Forall (fun x => 0 <= x <= 1)%Q (normalize_criterion values maximize).
Proof.
  destruct (decide (values = [])) as [->|Hne]; [constructor|].
  pose proof (np_min_is_min values Hne) as [_ Hmin].
  pose proof (np_max_is_max values Hne) as [_ Hmax].
  destruct (normalize_criterion_cases values maximize Hne) as [[_ ->]|[Hlt ->]];
    apply Forall_forall; intros y Hy;
    apply list_elem_of_In, in_map_iff in Hy as (x & <- & Hx);
    apply list_elem_of_In in Hx; [lra|].
  specialize (Hmin x Hx). specialize (Hmax x Hx).
  set (lo := np_min values) in *. set (hi := np_max values) in *.
  assert (0 < / (hi - lo))%Q as Hinv by (apply Qinv_lt_0_compat; lra).
  assert ((hi - lo) * / (hi - lo) == 1)%Q as Hone by (apply Qmult_inv_r; lra).
  unfold Qdiv. destruct maximize; nra.
Qed.

Lemma factor_score_nil ctx general : (factor_score [] ctx general == 0)%Q.
Proof.
  unfold factor_score.
  assert (forall names acc, (acc == 0)%Q ->
    (foldl (fun score_total factor_name =>
              score_total
              + default 0 (Py.dict_get (V:=Q) [] factor_name)
                * match Py.dict_get general factor_name with
                  | Some v => v
                  | None => default 0 (Py.dict_get ctx factor_name)
                  end) acc names == 0)%Q) as H.
  { induction names as [|n names IH]; intros acc Hacc; cbn; [done|].
    apply IH. rewrite Hacc. ring. }
  by apply H.
Qed.

Lemma column_stack_cases (a b : list Q) :
  (length a <> length b -> column_stack a b = Raise Py.ValueError)
  /\ (length a = length b ->
      column_stack a b = Ok (zip_with (fun x y => [x; y]) a b)
      /\ length (zip_with (fun x y => [x; y]) a b) = length b).
Proof.
  unfold column_stack. split; intros Hlen.
  - by rewrite (proj2 (Nat.eqb_neq _ _)).
  - rewrite (proj2 (Nat.eqb_eq _ _)) by done. split; [done|].
    rewrite length_zip_with. lia.
Qed.

Lemma build_mcda_matrix_eq db indicator_matrix strategy_names strategy_factors
    factor_values_by_strategy factor_values_general normalize :
  indicator_matrix <> [] ->
  let comp := map py_sum indicator_matrix in
  let fs := factor_scores db strategy_names strategy_factors
              factor_values_by_strategy factor_values_general in
  build_mcda_matrix db indicator_matrix strategy_names strategy_factors
    factor_values_by_strategy factor_values_general normalize
  = match column_stack
            (if normalize then normalize_criterion comp true else comp)
            (if normalize then normalize_criterion fs true else fs) with
    | Ok mcda_matrix => Ok (mcda_matrix, criteria_names, fs)
    | Raise e => Raise e
    end.
Proof.
  intros Hne. unfold build_mcda_matrix, compliance.
  destruct indicator_matrix as [|row rows]; [done|].
  simpl_result. by destruct normalize.
Qed.

(** X15. [build_mcda_matrix] raises when the indicator matrix has no row and
    when its number of rows differs from the number of strategy names;
    otherwise it returns one row per strategy with the raw factor scores,
    and with [normalize=True] every row holds two entries in [0,1]. *)
Theorem build_mcda_matrix_cases db indicator_matrix strategy_names
    strategy_factors factor_values_by_strategy factor_values_general normalize :
  let result := build_mcda_matrix db indicator_matrix strategy_names
                  strategy_factors factor_values_by_strategy
                  factor_values_general normalize in
  (indicator_matrix = [] -> result = Raise Py.AxisError)
  /\ (indicator_matrix <> [] ->
      length indicator_matrix <> length strategy_names ->
      result = Raise Py.ValueError)
  /\ (indicator_matrix <> [] ->
      length indicator_matrix = length strategy_names ->
      exists mcda_matrix,
        result
        = Ok (mcda_matrix, criteria_names,
              factor_scores db strategy_names strategy_factors
                factor_values_by_strategy factor_values_general)
        /\ length mcda_matrix = length strategy_names
        /\ (normalize = true -> Forall unit_row mcda_matrix)).
Proof.
  intros result. subst result. split; [by intros ->|].
  set (fs := factor_scores db strategy_names strategy_factors
               factor_values_by_strategy factor_values_general).
  set (comp := map py_sum indicator_matrix).
  assert (length fs = length strategy_names) as Hfs by apply length_map.
  assert (length comp = length indicator_matrix) as Hcomp by apply length_map.
  set (a := if normalize then normalize_criterion comp true else comp).
  set (b := if normalize then normalize_criterion fs true else fs).
  assert (length a = length indicator_matrix) as Ha.
  { subst a. destruct normalize; [by rewrite normalize_criterion_length|done]. }
  assert (length b = length strategy_names) as Hb.
  { subst b. destruct normalize; [by rewrite normalize_criterion_length|done]. }
  destruct (column_stack_cases a b) as [Hbad Hgood].
  split; intros Hne Hlen; rewrite build_mcda_matrix_eq by done; cbv zeta;
    fold fs comp a b.
  - rewrite Hbad; [done|lia].
  - destruct Hgood as [-> Hl]; [lia|]. eexists. split; [done|].
    split; [lia|]. intros ->.
    apply Forall_forall. intros row Hrow.
    apply list_elem_of_lookup in Hrow as [i Hi].
    apply lookup_zip_with_Some in Hi as (c & f & -> & Hc & Hf).
    exists c, f. split; [done|].
    pose proof (normalize_criterion_range comp true) as Rc.
    pose proof (normalize_criterion_range fs true) as Rf.
    rewrite Forall_forall in Rc, Rf.
    split; [apply Rc|apply Rf]; by eapply list_elem_of_lookup_2.
Qed.

(** X16. When no strategy has factors, neither under its own name nor under
    a key matching it in part, as with an empty factor table, every raw
    factor score of [build_mcda_matrix] is 0 and every entry of the
    normalised factor column is 1, not 0. *)
Theorem mcda_without_factors db indicator_matrix strategy_names strategy_factors
    factor_values_by_strategy factor_values_general mcda_matrix names raw :
  Forall (fun est => strategy_factors_of db strategy_factors est = [])
         strategy_names ->
  build_mcda_matrix db indicator_matrix strategy_names strategy_factors
    factor_values_by_strategy factor_values_general true
  = Ok (mcda_matrix, names, raw) ->
  Forall (fun s => s == 0)%Q raw
  /\ Forall (fun row => exists c, row = [c; 1%Q]) mcda_matrix.
Proof.
  intros Hnone H.
  assert (indicator_matrix <> []) as Hne by (by intros ->).
  rewrite build_mcda_matrix_eq in H by done. cbv zeta in H.
  set (fs := factor_scores db strategy_names strategy_factors
               factor_values_by_strategy factor_values_general) in *.
  set (comp := map py_sum indicator_matrix) in *.
  assert (Forall (fun s => s == 0)%Q fs) as Hzero.
  { apply Forall_forall. intros s Hs.
    apply list_elem_of_In, in_map_iff in Hs as (est & <- & Hest).
    rewrite Forall_forall in Hnone.
    rewrite (Hnone est) by (by apply list_elem_of_In).
    apply factor_score_nil. }
  unfold column_stack in H. destruct (_ =? _)%nat; [|done].
  injection H as <- <- <-. split; [done|].
  destruct (decide (fs = [])) as [E|Hnf].
  { rewrite E. change (normalize_criterion [] true) with (@nil Q).
    destruct (normalize_criterion comp true); constructor. }
  assert (normalize_criterion fs true = map (fun _ => 1%Q) fs) as ->.
  { destruct (normalize_criterion_cases fs true Hnf) as [[_ E]|[Hlt _]]; [done|].
    exfalso. destruct (np_min_is_min fs Hnf) as [H1 _].
    destruct (np_max_is_max fs Hnf) as [H2 _].
    rewrite Forall_forall in Hzero.
    pose proof (Hzero _ H1). pose proof (Hzero _ H2). lra. }
  apply Forall_forall. intros row Hrow.
  apply list_elem_of_lookup in Hrow as [i Hi].
  apply lookup_zip_with_Some in Hi as (c & f & -> & Hc & Hf).
  exists c. change (map ?g fs) with (g <$> fs) in Hf.
  rewrite list_lookup_fmap in Hf. destruct (fs !! i); [|done].
  by injection Hf as <-.
Qed.

Lemma mcda_without_factors_witness :
  Forall (fun s => s == 0)%Q [0; 0]%Q
  /\ Forall (fun row => exists c, row = [c; 1%Q]) [[1; 1]; [0; 1]]%Q.
Proof.
  refine (mcda_without_factors latin1_db [[1]; [0]]%Q
            [py "E1"; py "E2"] [] [] [] [[1; 1]; [0; 1]]%Q criteria_names
            [0; 0]%Q _ _).
  - repeat constructor.
  - vm_compute. reflexivity.
Defined.

(** *** The level and the ranking in [ejecutar_escenario] *)

Lemma nivel_por_alerta_cases z :
  nivel_por_alerta z
  = match z with
    | 1%Z => py "bajo_riesgo"
    | 3%Z => py "alto_riesgo"
    | 4%Z => py "emergencia"
    | _ => py "riesgo_moderado"
    end.
Proof.
  unfold nivel_por_alerta.
  destruct z as [|p|p]; [reflexivity| |reflexivity].
  destruct p as [q|q|]; [destruct q; reflexivity| |reflexivity].
  destruct q as [r|r|]; [reflexivity| |reflexivity].
  destruct r; reflexivity.
Qed.

Lemma nivel_por_alerta_valido z : nivel_por_alerta z ∈ niveles_validos.
Proof.
  rewrite nivel_por_alerta_cases. unfold niveles_validos.
  destruct z as [|p|p]; [right; left| |right; left].
  destruct p as [q|q|]; [destruct q; try (right; left); right; right; left| |left].
  destruct q as [r|r|]; [right; left| |right; left].
  destruct r; try (right; left); right; right; right; left.
Qed.

Lemma nivel_riesgo_valido escenario_id nivel_alerta :
  nivel_riesgo escenario_id nivel_alerta ∈ niveles_validos.
Proof.
  unfold nivel_riesgo. destruct (bool_decide _) eqn:E.
  - by apply bool_decide_eq_true in E.
  - apply nivel_por_alerta_valido.
Qed.

Lemma nivel_riesgo_known escenario_id nivel_alerta :
  exists multiplicadores,
    Py.dict_get MULTIPLICADORES_URGENCIA (nivel_riesgo escenario_id nivel_alerta)
    = Some multiplicadores.
Proof.
  apply dict_get_key. rewrite MULTIPLICADORES_URGENCIA_keys.
  apply nivel_riesgo_valido.
Qed.

Lemma insert_by_rank_Permutation x l : insert_by_rank x l ≡ₚ x :: l.
Proof.
  induction l as [|y l IH]; cbn; [done|].
  destruct (_ <=? _)%nat; [|done]. rewrite IH. apply perm_swap.
Qed.

Lemma insert_by_rank_sorted x l :
  StronglySorted by_rank l -> StronglySorted by_rank (insert_by_rank x l).
Proof.
  induction l as [|y l IH]; cbn; intros Hs; [repeat constructor|].
  apply StronglySorted_inv in Hs as [Hs Hy].
  destruct (entry_rank y <=? entry_rank x)%nat eqn:E.
  - apply Nat.leb_le in E. constructor; [by apply IH|].
    rewrite insert_by_rank_Permutation. by constructor.
  - apply Nat.leb_gt in E. constructor; [by constructor|].
    constructor; [unfold by_rank; lia|].
    eapply Forall_impl; [exact Hy|]. unfold by_rank. intros z Hz. lia.
Qed.

Lemma sorted_by_rank_spec l :
  sorted_by_rank l ≡ₚ l /\ StronglySorted by_rank (sorted_by_rank l).
Proof.
  unfold sorted_by_rank.
  induction l as [|x l [IHp IHs]] using rev_ind; [split; [done|constructor]|].
  rewrite foldl_app. cbn. split.
  - rewrite insert_by_rank_Permutation, IHp. apply Permutation_cons_append.
  - by apply insert_by_rank_sorted.
Qed.

Lemma StronglySorted_seq s n : StronglySorted le (seq s n).
Proof.
  revert s. induction n as [|n IH]; intros s; cbn; constructor; [apply IH|].
  apply Forall_forall. intros x Hx%elem_of_seq. lia.
Qed.

Lemma by_rank_of_ranks l :
  StronglySorted le (map entry_rank l) -> StronglySorted by_rank l.
Proof.
  induction l as [|x l IH]; cbn; intros H; [constructor|].
  apply StronglySorted_inv in H as [H1 H2]. constructor; [by apply IH|].
  rewrite Forall_forall in H2. apply Forall_forall. intros y Hy.
  apply H2, list_elem_of_In, in_map, list_elem_of_In, Hy.
Qed.

Lemma zip4_entry_at (alternatives : list Py.str) (ranks : list nat)
    (scores compliance : list Q) N :
  length alternatives = N -> length ranks = N -> length scores = N ->
  length compliance = N ->
  zip (zip (zip alternatives ranks) scores) compliance
  = map (entry_at alternatives ranks scores compliance) (seq 0 N).
Proof.
  intros Ha Hr Hs Hc. apply list_eq. intros i.
  change (map ?f (seq 0 N)) with (f <$> seq 0 N). rewrite list_lookup_fmap.
  rewrite !lookup_zip_with. unfold entry_at.
  destruct (decide (i < N)%nat) as [Hi|Hi].
  - rewrite lookup_seq_lt by done. cbn.
    destruct (lookup_lt_is_Some_2 alternatives i) as [a ->]; [lia|].
    destruct (lookup_lt_is_Some_2 ranks i) as [r ->]; [lia|].
    destruct (lookup_lt_is_Some_2 scores i) as [s ->]; [lia|].
    destruct (lookup_lt_is_Some_2 compliance i) as [c ->]; [lia|]. reflexivity.
  - rewrite lookup_seq_ge by lia.
    rewrite (proj2 (lookup_ge_None alternatives i)) by lia. done.
Qed.

Section RankingOrder.

Context (argsort : list Q -> list nat) (scores : list Q).
Hypothesis Hspec : argsort_spec argsort scores.

Lemma ranking_eq alternatives compliance ranks :
  ranks_ajustados argsort scores = Ok ranks ->
  length alternatives = length scores -> length compliance = length scores ->
  ranking alternatives ranks scores compliance
  = map (entry_at alternatives ranks scores compliance)
        (reverse (argsort scores))
  /\ map entry_rank (ranking alternatives ranks scores compliance)
     = seq 1 (length scores).
Proof.
  intros E Ha Hc.
  destruct (ranks_ajustados_spec argsort scores Hspec) as (ranks' & E' & Hlen & Hk).
  assert (ranks' = ranks) as -> by congruence. clear E'.
  pose proof (argsort_length argsort scores Hspec) as Hal.
  set (N := length scores) in *.
  set (f := entry_at alternatives ranks scores compliance).
  assert (Hrank : map entry_rank (map f (reverse (argsort scores))) = seq 1 N).
  { apply list_eq. intros k. rewrite map_map.
    change (map ?g (reverse ?l)) with (g <$> reverse l).
    rewrite list_lookup_fmap.
    destruct (decide (k < N)%nat) as [Hlt|Hge].
    - rewrite reverse_lookup by lia. rewrite lookup_seq_lt by done.
      destruct (lookup_lt_is_Some_2 (argsort scores) (length (argsort scores) - S k))
        as [idx Hidx]; [lia|].
      rewrite Hidx. cbn. unfold entry_rank, f, entry_at. cbn.
      rewrite (Hk _ _ Hidx). cbn. f_equal. lia.
    - rewrite lookup_seq_ge by lia.
      rewrite (proj2 (lookup_ge_None _ _)); [done|]. rewrite length_reverse. lia. }
  assert (Hsorted : StronglySorted by_rank (map f (reverse (argsort scores)))).
  { apply by_rank_of_ranks. rewrite Hrank. apply StronglySorted_seq. }
  assert (Heq : ranking alternatives ranks scores compliance
               = map f (reverse (argsort scores))).
  { unfold ranking. rewrite (zip4_entry_at _ _ _ _ N) by done. fold f.
    destruct (sorted_by_rank_spec (map f (seq 0 N))) as [Hp Hs].
    apply (StronglySorted_unique_strong by_rank); [|done|done|].
    - intros x1 x2 Hx1 Hx2 H12 H21. unfold by_rank in *.
      rewrite Hp in Hx1.
      apply list_elem_of_In, in_map_iff in Hx1 as (i & <- & Hi).
      apply list_elem_of_In, in_map_iff in Hx2 as (j & <- & Hj).
      apply list_elem_of_In, elem_of_seq in Hi.
      apply list_elem_of_In, elem_of_reverse, (argsort_elem argsort scores Hspec) in Hj.
      fold N in Hj.
      assert (i ∈ argsort scores) as [ki Hki]%list_elem_of_lookup
        by (apply (argsort_elem argsort scores Hspec); fold N; lia).
      assert (j ∈ argsort scores) as [kj Hkj]%list_elem_of_lookup
        by (by apply (argsort_elem argsort scores Hspec)).
      pose proof (lookup_lt_Some _ _ _ Hki) as Lki.
      pose proof (lookup_lt_Some _ _ _ Hkj) as Lkj.
      unfold entry_rank, f, entry_at in H12, H21. cbn in H12, H21.
      rewrite (Hk _ _ Hki), (Hk _ _ Hkj) in H12, H21. cbn in H12, H21.
      assert (ki = kj) as -> by lia. f_equal. congruence.
    - rewrite Hp. apply Permutation_map.
      rewrite reverse_Permutation. symmetry. apply Hspec. }
  split; [done|]. by rewrite Heq.
Qed.

End RankingOrder.

Section ScenarioFacts.

Context (db : Py.unicode_db).

Lemma aplicar_length scores strategy_names nivel contexto multiplicadores :
  Py.dict_get MULTIPLICADORES_URGENCIA nivel = Some multiplicadores ->
  length (aplicar_multiplicador_urgencia db scores strategy_names nivel contexto)
  = length scores.
Proof.
  intros Hn. rewrite (aplicar_eq db _ _ _ _ _ Hn). cbv zeta.
  destruct (Qlt_bool _ _); rewrite ?length_map; apply scores_ajustados_length.
Qed.

End ScenarioFacts.

(** X19. The level [ejecutar_escenario] applies the multipliers at is always
    one of the four of the multiplier table: the scenario id when it names a
    level, whatever the alert level of the scenario, else the level of the
    alert levels 1 to 4 and [riesgo_moderado] for any other or none. *)
Theorem nivel_riesgo_is_known escenario_id nivel_alerta :
  (exists multiplicadores,
     Py.dict_get MULTIPLICADORES_URGENCIA (nivel_riesgo escenario_id nivel_alerta)
     = Some multiplicadores)
  /\ (escenario_id ∈ niveles_validos ->
      nivel_riesgo escenario_id nivel_alerta = escenario_id)
  /\ (escenario_id ∉ niveles_validos ->
      nivel_riesgo escenario_id nivel_alerta
      = match nivel_alerta with
        | Some 1%Z => py "bajo_riesgo"
        | Some 3%Z => py "alto_riesgo"
        | Some 4%Z => py "emergencia"
        | _ => py "riesgo_moderado"
        end).
Proof.
  split; [apply nivel_riesgo_known|]. unfold nivel_riesgo. split; intros H.
  - by rewrite bool_decide_eq_true_2.
  - rewrite bool_decide_eq_false_2 by done. rewrite nivel_por_alerta_cases.
    destruct nivel_alerta as [z|]; [|reflexivity]. cbn [default].
    destruct z as [|p|p]; [reflexivity| |reflexivity].
    destruct p as [q|q|]; [destruct q; reflexivity| |reflexivity].
    destruct q as [r|r|]; [reflexivity| |reflexivity].
    destruct r; reflexivity.
Qed.

(** X20. Whatever [np.argsort] returns within its contract, the ranking
    [ejecutar_escenario] returns lists every strategy once, with its own
    adjusted score and compliance, the entry at position [k] having rank
    [k + 1], in the reverse of the order of [argsort]: the adjusted scores
    never increase along the ranking. *)
Theorem ejecutar_escenario_ranking_sorted db argsort scores strategy_names
    compliance escenario_id nivel_alerta contexto_escenario :
  let scores_ajustados :=
    aplicar_multiplicador_urgencia db scores strategy_names
      (nivel_riesgo escenario_id nivel_alerta) contexto_escenario in
  argsort_spec argsort scores_ajustados ->
  length strategy_names = length scores ->
  length compliance = length scores ->
  exists ranks ranking,
    ranks_ajustados argsort scores_ajustados = Ok ranks
    /\ ejecutar_escenario_ranking db argsort scores strategy_names compliance
         escenario_id nivel_alerta contexto_escenario = Ok ranking
    /\ ranking = map (entry_at strategy_names ranks scores_ajustados compliance)
                     (reverse (argsort scores_ajustados))
    /\ map entry_rank ranking = seq 1 (length scores)
    /\ (forall k1 k2 e1 e2,
          (k1 < k2)%nat -> ranking !! k1 = Some e1 -> ranking !! k2 = Some e2 ->
          (entry_score e2 <= entry_score e1)%Q).
Proof.
  intros adj Hspec Hnames Hcomp.
  destruct (nivel_riesgo_known escenario_id nivel_alerta) as [mults Hn].
  assert (length adj = length scores) as Hadj by (by eapply aplicar_length).
  destruct (ranks_ajustados_spec argsort adj Hspec) as (ranks & E & Hlen & Hk).
  destruct (ranking_eq argsort adj Hspec strategy_names compliance ranks E)
    as [Heq Hranks]; [lia..|].
  exists ranks, (ranking strategy_names ranks adj compliance).
  split; [done|]. split.
  { unfold ejecutar_escenario_ranking. cbv zeta. fold adj. rewrite E. done. }
  split; [done|]. split; [by rewrite Hranks, Hadj|].
  intros k1 k2 e1 e2 Hlt H1 H2. rewrite Heq in H1, H2.
  change (map ?f (reverse ?l)) with (f <$> reverse l) in H1, H2.
  rewrite list_lookup_fmap in H1, H2.
  pose proof (argsort_length argsort adj Hspec) as Hal.
  destruct (reverse (argsort adj) !! k1) as [i1|] eqn:E1; [|done].
  destruct (reverse (argsort adj) !! k2) as [i2|] eqn:E2; [|done].
  injection H1 as <-. injection H2 as <-.
  pose proof (lookup_lt_Some _ _ _ E1) as L1.
  pose proof (lookup_lt_Some _ _ _ E2) as L2.
  rewrite length_reverse in L1, L2.
  rewrite reverse_lookup in E1, E2 by done.
  assert (i1 < length adj)%nat as Hi1
    by (apply (argsort_elem argsort adj Hspec); by eapply list_elem_of_lookup_2).
  assert (i2 < length adj)%nat as Hi2
    by (apply (argsort_elem argsort adj Hspec); by eapply list_elem_of_lookup_2).
  destruct (lookup_lt_is_Some_2 adj i1 Hi1) as [s1 Hs1].
  destruct (lookup_lt_is_Some_2 adj i2 Hi2) as [s2 Hs2].
  unfold entry_score, entry_at. cbn. rewrite Hs1, Hs2. cbn.
  destruct Hspec as [_ Hord].
  apply (Hord (length (argsort adj) - S k2)%nat (length (argsort adj) - S k1)%nat
           i2 i1); [lia|done..].
Qed.

Lemma ejecutar_escenario_ranking_sorted_witness :
  let scores_ajustados :=
    aplicar_multiplicador_urgencia latin1_db [0.5; 0.25]%Q
      [est_adulticidas; est_promover]
      (nivel_riesgo (py "emergencia") None) None in
  exists ranks ranking,
    ranks_ajustados insertion_argsort scores_ajustados = Ok ranks
    /\ ejecutar_escenario_ranking latin1_db insertion_argsort [0.5; 0.25]%Q
         [est_adulticidas; est_promover] [1; 0]%Q (py "emergencia") None None
       = Ok ranking
    /\ ranking = map (entry_at [est_adulticidas; est_promover] ranks
                        scores_ajustados [1; 0]%Q)
                     (reverse (insertion_argsort scores_ajustados))
    /\ map entry_rank ranking = seq 1 2
    /\ (forall k1 k2 e1 e2,
          (k1 < k2)%nat -> ranking !! k1 = Some e1 -> ranking !! k2 = Some e2 ->
          (entry_score e2 <= entry_score e1)%Q).
Proof.
  refine (ejecutar_escenario_ranking_sorted latin1_db insertion_argsort
            [0.5; 0.25]%Q [est_adulticidas; est_promover] [1; 0]%Q
            (py "emergencia") None None _ _ _).
  - apply insertion_argsort_spec.
  - reflexivity.
  - reflexivity.
Defined.

(** *** The indicator counters *)

Lemma count_if_cons p x l :
  count_if p (x :: l) = ((if p x then 1 else 0) + count_if p l)%nat.
Proof.
  unfold count_if. rewrite filter_cons.
  destruct (p x); destruct (decide _); try done.
Qed.

Lemma contar_indicador_Ok indicator_values indicator_thresholds c n ind :
  map_Forall (fun _ => loaded_entry) indicator_thresholds ->
  let e := evaluated indicator_values indicator_thresholds ind in
  let a := activates indicator_values (Some indicator_thresholds) ind in
  contar_indicador indicator_values indicator_thresholds (c, n) ind
  = Ok ((if e && a then 1 else 0) + c, (if e && negb a then 1 else 0) + n)%nat.
Proof.
  intros Hthr e a. subst e a. unfold contar_indicador, evaluated, activates.
  change (threshold_of (Some indicator_thresholds) ind)
    with (indicator_thresholds !! ind).
  destruct (indicator_values !! ind) as [val|] eqn:Ev; [|done].
  destruct (indicator_thresholds !! ind) as [tc|] eqn:Et.
  2:{ rewrite (bool_decide_eq_false_2 (is_Some None)) by (by intros []).
      by rewrite andb_false_r. }
  destruct (Hthr ind tc Et) as (op & v & -> & Hop & _).
  rewrite !bool_decide_eq_true_2 by (by eexists).
  cbn [getitem tc_op tc_threshold threshold_op threshold_bound default
       from_option andb].
  unfold id. simpl_result.
  destruct (check_condition_cases val op v)
    as [[_ ->]|[[_ ->]|[[_ ->]|[[_ ->]|[Hn _]]]]]; [..|done];
    by destruct (_ : bool).
Qed.

Lemma contar_indicadores_from indicator_values indicator_thresholds indicators :
  map_Forall (fun _ => loaded_entry) indicator_thresholds ->
  forall c n,
  foldM (contar_indicador indicator_values indicator_thresholds) (c, n) indicators
  = Ok (count_if (fun ind =>
                    evaluated indicator_values indicator_thresholds ind
                    && activates indicator_values (Some indicator_thresholds) ind)
                 indicators + c,
        count_if (fun ind =>
                    evaluated indicator_values indicator_thresholds ind
                    && negb (activates indicator_values
                               (Some indicator_thresholds) ind))
                 indicators + n)%nat.
Proof.
  intros Hthr. induction indicators as [|ind inds IH]; intros c n; [done|].
  cbn [foldM]. rewrite contar_indicador_Ok by done. cbv zeta. simpl_result.
  rewrite IH, !count_if_cons. do 2 f_equal; lia.
Qed.

(** X21. On a threshold table as the loader builds it, the counting loop of
    [ejecutar_escenario] never raises; it counts as critical the indicators
    with a value and a threshold whose condition holds, the very ones whose
    weight [build_indicator_matrix] counts, as normal those whose condition
    does not hold, and the two counts add up to the number of indicators
    that have both a value and a threshold. *)
Theorem contar_indicadores_spec indicators indicator_values indicator_thresholds :
  (forall ind tc, indicator_thresholds !! ind = Some tc -> loaded_entry tc) ->
  exists indicadores_criticos indicadores_normales,
    contar_indicadores indicators indicator_values indicator_thresholds
    = Ok (indicadores_criticos, indicadores_normales)
    /\ indicadores_criticos
       = count_if (fun ind =>
                     evaluated indicator_values indicator_thresholds ind
                     && activates indicator_values (Some indicator_thresholds) ind)
                  indicators
    /\ (indicadores_criticos + indicadores_normales)%nat
       = count_if (evaluated indicator_values indicator_thresholds) indicators.
Proof.
  intros Hthr. unfold contar_indicadores.
  rewrite contar_indicadores_from by exact Hthr.
  eexists _, _. split; [reflexivity|]. split; [lia|].
  rewrite !Nat.add_0_r. induction indicators as [|ind inds IH]; [done|].
  rewrite !count_if_cons, <- IH.
  destruct (evaluated _ _ ind), (activates _ _ ind); cbn; lia.
Qed.

Lemma contar_indicadores_spec_witness :
  exists indicadores_criticos indicadores_normales,
    contar_indicadores ejemplo_indicators ejemplo_values
      (<[py "IB" := {| tc_op := Some (py ">"); tc_threshold := Some 20%Q |}]> ∅)
    = Ok (indicadores_criticos, indicadores_normales)
    /\ indicadores_criticos
       = count_if (fun ind =>
                     evaluated ejemplo_values
                       (<[py "IB" := {| tc_op := Some (py ">");
                                        tc_threshold := Some 20%Q |}]> ∅) ind
                     && activates ejemplo_values
                          (Some (<[py "IB" := {| tc_op := Some (py ">");
                                                 tc_threshold := Some 20%Q |}]> ∅))
                          ind)
                  ejemplo_indicators
    /\ (indicadores_criticos + indicadores_normales)%nat
       = count_if (evaluated ejemplo_values
                     (<[py "IB" := {| tc_op := Some (py ">");
                                      tc_threshold := Some 20%Q |}]> ∅))
                  ejemplo_indicators.
Proof.
  refine (contar_indicadores_spec ejemplo_indicators ejemplo_values
            (<[py "IB" := {| tc_op := Some (py ">"); tc_threshold := Some 20%Q |}]> ∅)
            _).
  intros ind tc H. apply lookup_insert_Some in H as [[_ <-]|[_ H]].
  - exists (py ">"), 20%Q. split; [reflexivity|]. split.
    + right. right. left. reflexivity.
    + vm_compute. discriminate.
  - rewrite lookup_empty in H. discriminate.
Defined.

(** *** From the sheet to the compliance *)

Lemma deref_keys cfg h : map fst (deref cfg h) = map fst cfg.
Proof.
  unfold deref. rewrite map_map. apply map_ext. by intros [est refs].
Qed.

Lemma deref_get cfg h h' est rules' :
  Py.dict_get (deref cfg h') est = Some rules' ->
  exists refs,
    (est, refs) ∈ cfg /\ rules' = map h' refs
    /\ Py.dict_get (deref cfg h) est = Some (map h refs).
Proof.
  induction cfg as [|[est0 refs0] cfg IH]; cbn; [done|].
  destruct (Py.eqb est est0) eqn:E.
  - apply eqb_eq in E as ->. intros [= <-]. exists refs0.
    split; [left|done].
  - intros H. destruct (IH H) as (refs & Hin & -> & Hget).
    exists refs. split; [by right|done].
Qed.

Lemma unique_nil l : unique l = [] -> l = [].
Proof. by destruct l. Qed.

Lemma build_indicator_matrix_rows indicator_values strategies_config indicators
    indicator_thresholds matrix strategy_names :
  build_indicator_matrix indicator_values strategies_config indicators
    indicator_thresholds = Ok (matrix, strategy_names) ->
  strategy_names = map fst strategies_config
  /\ length matrix = length strategies_config.
Proof.
  unfold build_indicator_matrix. simpl_result.
  destruct (Py.mapM _ _) as [m|e] eqn:E; [|done]. intros [= -> <-].
  split; [done|]. apply mapM_Ok, Forall2_length in E.
  by rewrite length_map in E.
Qed.

Lemma py_sum_ge_elem l x :
  Forall (fun w => 0 <= w)%Q l -> x ∈ l -> (x <= py_sum l)%Q.
Proof.
  induction 1 as [|y l Hy Hl IH]; [by intros ?%elem_of_nil|].
  pose proof (py_sum_nonneg l Hl). intros Hx. rewrite py_sum_cons.
  apply elem_of_cons in Hx as [->|Hx]; [lra|]. specialize (IH Hx). lra.
Qed.

Lemma build_indicator_matrix_unit indicator_values strategies_config indicators
    indicator_thresholds matrix strategy_names :
  build_indicator_matrix indicator_values strategies_config indicators
    indicator_thresholds = Ok (matrix, strategy_names) ->
  (forall est rules r,
     Py.dict_get strategies_config est = Some rules -> r ∈ rules ->
     (0 <= weight r <= 1)%Q) ->
  Forall (Forall (fun c => 0 <= c <= 1)%Q) matrix.
Proof.
  unfold build_indicator_matrix. simpl_result.
  destruct (Py.mapM _ _) as [m|e] eqn:E; [|done]. intros [= -> <-] Hw.
  apply mapM_Ok in E. apply Forall_lookup. intros i row Hrow.
  destruct (Forall2_lookup_r _ _ _ _ _ E Hrow) as (est & _ & Hf).
  destruct (Py.dict_get strategies_config est) as [rules|] eqn:Hrules; [|done].
  apply mapM_Ok in Hf. apply Forall_lookup. intros j c Hc.
  destruct (Forall2_lookup_r _ _ _ _ _ Hf Hc) as (ind & _ & Hcell).
  apply cell_Ok in Hcell as ->. unfold cell_value.
  destruct (last_rule None rules ind) as [r|] eqn:Hr; [|split; lra].
  assert (r ∈ rules) as Hin.
  { apply last_rule_Some in Hr as [[? _]|(l1 & l2 & -> & _)]; [done|].
    apply elem_of_app. right. left. }
  destruct (Hw est rules r Hrules Hin) as [H0 H1].
  pose proof (contribution_bounds indicator_values indicator_thresholds r H0).
  split; lra.
Qed.

(** X11. On a data frame whose name cells are texts, whose weight cells are
    numbers that are not negative or empty and whose threshold cells are
    texts or empty: when loading it, normalising the weights and building the
    indicator matrix returns, the matrix has one row per strategy, in the
    order of their first rows, every cell of it lies between 0 and 1, and,
    for a frame that is not empty, there is one compliance per strategy,
    none of them negative. *)
Theorem scenario_matrix_in_unit_interval db df indicator_values matrix
    strategy_names :
  Forall (fun row => 0 <= default 0 (Peso row))%Q df ->
  ejecutar_escenario_indicator_matrix db df indicator_values
  = Ok (matrix, strategy_names) ->
  strategy_names = unique (map Estrategia df)
  /\ length matrix = length strategy_names
  /\ Forall (Forall (fun c => 0 <= c <= 1)%Q) matrix
  /\ (df <> [] ->
      exists comp,
        compliance matrix = Ok comp
        /\ length comp = length strategy_names
        /\ Forall (fun c => 0 <= c)%Q comp).
Proof.
  intros Hpos Hrun.
  destruct (load_strategies_from_xlsx_Ok db df) as (thr & E & _).
  set (ests := unique (map Estrategia df)) in *.
  set (cfg0 := map (fun est => (est, rules_of df est)) ests) in *.
  set (inds := sorted (unique (map Indicador df))) in *.
  set (h0 := fun _ : loc => {| indicator := []; weight := 0%Q |}).
  pose proof (alloc_config_values cfg0 0 h0) as Hvals. cbv zeta in Hvals.
  pose proof (alloc_config_NoDup 0 cfg0 h0) as Hrefs.
  set (refs := (alloc_config 0 cfg0 h0).1) in *.
  set (h := (alloc_config 0 cfg0 h0).2) in *.
  fold (deref refs h) in Hvals.
  set (h' := normalize_strategy_weights refs h).
  assert (Hm : build_indicator_matrix indicator_values (deref refs h') inds
                 (Some thr) = Ok (matrix, strategy_names)).
  { unfold ejecutar_escenario_indicator_matrix in Hrun. rewrite E in Hrun.
    exact Hrun. }
  assert (Hkeys : map fst (deref refs h') = ests).
  { rewrite deref_keys, <- (deref_keys refs h), Hvals. unfold cfg0.
    rewrite map_map. apply map_id. }
  destruct (build_indicator_matrix_rows _ _ _ _ _ _ Hm) as [Hnames Hlen].
  rewrite Hkeys in Hnames. subst strategy_names.
  assert (length matrix = length ests) as Hlen'.
  { rewrite Hlen, <- Hkeys. by rewrite length_map. }
  assert (Hcells : Forall (Forall (fun c => 0 <= c <= 1)%Q) matrix).
  { apply (build_indicator_matrix_unit _ _ _ _ _ _ Hm).
    intros est rules' r Hrules' Hr.
    destruct (deref_get refs h h' est rules' Hrules') as (rs & Hin & -> & Hget).
    rewrite Hvals in Hget. unfold cfg0 in Hget. rewrite dict_get_map in Hget.
    destruct (bool_decide (est ∈ ests)); [|done]. injection Hget as Hrs.
    assert (Hw0 : Forall (fun l => 0 <= weight (h l))%Q rs).
    { apply Forall_forall. intros l Hl.
      assert (h l ∈ rules_of df est) as Hrow.
      { rewrite Hrs. apply list_elem_of_In, in_map. by apply list_elem_of_In. }
      unfold rules_of in Hrow.
      apply list_elem_of_In, in_map_iff in Hrow as (row & <- & Hrow).
      apply list_elem_of_In, list_elem_of_filter in Hrow as [_ Hrow].
      rewrite Forall_forall in Hpos. by apply Hpos. }
    apply list_elem_of_In, in_map_iff in Hr as (l & <- & Hl).
    apply list_elem_of_In in Hl.
    assert (0 <= weight (h l))%Q as Hl0
      by (rewrite Forall_forall in Hw0; by apply Hw0).
    assert (weight (h l) <= total_weight h rs)%Q as Hle.
    { apply py_sum_ge_elem; [by apply Forall_map|].
      apply list_elem_of_In, (in_map (fun r => weight (h r))).
      by apply list_elem_of_In. }
    destruct (Qeq_dec (total_weight h rs) 0) as [Hz|Hnz].
    - unfold h'. rewrite (zero_total_untouched refs h est rs Hrefs Hin Hz l Hl).
      split; lra.
    - unfold h'. rewrite (normalized_rule refs h est rs l Hrefs Hin Hl Hnz). cbn.
      split; [apply Qle_shift_div_l; lra|apply Qle_shift_div_r; lra]. }
  split; [done|]. split; [done|]. split; [done|].
  intros Hne. exists (map py_sum matrix).
  assert (ests <> []) as Hests.
  { intros H. apply unique_nil in H. by destruct df. }
  split. { destruct matrix; [by destruct ests|done]. }
  split; [by rewrite length_map|].
  apply Forall_map. eapply Forall_impl; [exact Hcells|].
  intros row Hrow. apply py_sum_nonneg.
  eapply Forall_impl; [exact Hrow|]. by intros c [H0 _].
Qed.

Lemma scenario_matrix_in_unit_interval_witness :
  let matrix := [[1 # 4; 3 # 4]; [0; 0]]%Q in
  let strategy_names := [py "E1"; py "E2"] in
  ejecutar_escenario_indicator_matrix latin1_db ejemplo_sheet ejemplo_values
  = Ok (matrix, strategy_names)
  /\ strategy_names = unique (map Estrategia ejemplo_sheet)
  /\ length matrix = length strategy_names
  /\ Forall (Forall (fun c => 0 <= c <= 1)%Q) matrix
  /\ (ejemplo_sheet <> [] ->
      exists comp,
        compliance matrix = Ok comp
        /\ length comp = length strategy_names
        /\ Forall (fun c => 0 <= c)%Q comp).
Proof.
  intros matrix strategy_names.
  assert (E : ejecutar_escenario_indicator_matrix latin1_db ejemplo_sheet
                ejemplo_values = Ok (matrix, strategy_names))
    by (vm_compute; reflexivity).
  split; [exact E|].
  refine (scenario_matrix_in_unit_interval latin1_db ejemplo_sheet ejemplo_values
            matrix strategy_names _ E).
  repeat constructor; vm_compute; discriminate.
Defined.
